(** * xorm: struct-result materialisation and the query-result cache

    A shallow embedding of [session_find.go] ([find], [ParseColumnsSchema],
    [noCacheFind], [cacheFind]), of [session_insert.go] ([cacheInsert] and
    the insert paths that call it), of [engine.go] ([ClearCacheBean],
    [ClearCache]), of [internal/statements/cache.go] ([ConvertIDSQL],
    [ConvertUpdateSQL]) and of [dialects/table_name.go]
    ([TableNameWithSchema]).

    Go values are modelled as the code has them: [int] is a 64-bit signed
    integer ([Z] with its wrap-around), Go maps with string keys are
    [gmap string _], slices are lists, [reflect.Type] is an inductive type of
    type descriptors, and [error] results are a sum.  Effects (the cache
    store, the logger, the queries sent to the database and the destination
    container) are threaded through an explicit state. *)

From Stdlib Require Import ZArith.
From stdpp Require Import base strings pretty list gmap sorting.

Local Open Scope Z_scope.

(** ** Go's [int] *)

Module GoInt.

Definition min_int : Z := - 2 ^ 63.
Definition max_int : Z := 2 ^ 63 - 1.

(** Two's-complement wrap-around of a 64-bit signed integer. *)
Definition wrap (z : Z) : Z := (z + 2 ^ 63) mod 2 ^ 64 - 2 ^ 63.

(** [idx++] *)
Definition incr (z : Z) : Z := wrap (z + 1).

End GoInt.

(** ** Strings

  [strings.ToLower] is Go's (Unicode aware) lower-casing; it is kept as an
  interface so that nothing below depends on a particular case table. *)

Class GoStrings := { ToLower : string -> string }.

Module Strings.

(** [strings.HasPrefix] *)
Fixpoint HasPrefix (s prefix : string) {struct prefix} : bool :=
  match prefix, s with
  | EmptyString, _ => true
  | String _ _, EmptyString => false
  | String a prefix', String b s' =>
      if decide (a = b) then HasPrefix s' prefix' else false
  end.

(** [strings.Index]: the index of the first instance of [sep] in [s], or
    [-1] when [sep] does not occur. *)
Fixpoint Index (s sep : string) : Z :=
  if HasPrefix s sep then 0
  else match s with
       | EmptyString => -1
       | String _ s' =>
           let i := Index s' sep in
           if decide (i = -1) then -1 else i + 1
       end.

End Strings.

(** ** Schemas *)

(** [schemas.Column]: the fields of a column descriptor that the find and
  cache layer reads. *)
Record Column := mkColumn {
  Name : string;
  FieldName_of : string;
  IsPrimaryKey : bool;
  IsDeleted : bool
}.

#[global] Instance Column_eq_dec : EqDecision Column.
Proof. solve_decision. Defined.

(** [schemas.Table] *)
Record Table := mkTable {
  TableName_of : string;
  columns : list Column;
  PrimaryKeys : list string;
  Deleted : string
}.

#[global] Instance Table_eq_dec : EqDecision Table.
Proof. solve_decision. Defined.

Section TableLookup.
Context `{GoStrings}.

(** Modelled from the spec: [Table.columnsByName] and [Table.GetColumnIdx]
    (schemas/table.go) are not under src/.  Spec 4.1: matching is
    case-insensitive; the i-th occurrence (0-indexed) of a lower-cased name
    binds to the i-th same-named field in struct order, and there is no
    match past the cardinality of same-named fields. *)
Definition columnsByName (table : Table) (name : string) : list Column :=
  filter (fun c => ToLower (Name c) = ToLower name) (columns table).

Definition GetColumnIdx (table : Table) (name : string) (idx : Z)
  : option Column :=
  let cols := columnsByName table name in
  if decide (0 <= idx < Z.of_nat (length cols))
  then cols !! Z.to_nat idx
  else None.

(** Modelled from the spec: [Table.PKColumns] (schemas/table.go) is not
    under src/.  Spec 3: the primary-key columns are the ordered subset of
    the column descriptors named by [PrimaryKeys]; a name without a column
    descriptor yields a nil entry. *)
Definition GetColumn (table : Table) (name : string) : option Column :=
  GetColumnIdx table name 0.

Definition PKColumns (table : Table) : list (option Column) :=
  map (GetColumn table) (PrimaryKeys table).

(** Modelled from the spec: [Table.DeletedColumn] (schemas/table.go) is not
    under src/; the soft-delete marker column, if the table names one. *)
Definition DeletedColumn (table : Table) : option Column :=
  if decide (Deleted table = "") then None
  else GetColumn table (Deleted table).

End TableLookup.

(** ** The column schema resolver ([session_find.go], lines 166-222) *)

Section ColumnSchema.
Context `{GoStrings}.

(** [*sql.ColumnType] is opaque to the resolver; it is represented by the
    driver-reported type name. *)
Definition SqlColumnType := string.

Record QueryedField := mkQueryedField {
  FieldName : string;
  LowerFieldName : string;
  ColumnType : SqlColumnType;
  TempIndex : Z;
  ColumnSchema : option Column
}.

Record ColumnsSchema := mkColumnsSchema {
  Fields : list QueryedField;
  FieldNames : list string;
  Types : list SqlColumnType
}.

Definition set_TempIndex (idx : Z) (f : QueryedField) : QueryedField :=
  mkQueryedField (FieldName f) (LowerFieldName f) (ColumnType f) idx
                 (ColumnSchema f).

Definition set_ColumnSchema (c : option Column) (f : QueryedField)
  : QueryedField :=
  mkQueryedField (FieldName f) (LowerFieldName f) (ColumnType f)
                 (TempIndex f) c.

(** [ColumnsSchema.ParseTableSchema]: every field is rebound in place. *)
Definition ParseTableSchema (columnsSchema : ColumnsSchema) (table : Table)
  : ColumnsSchema :=
  mkColumnsSchema
    (map (fun field =>
            set_ColumnSchema
              (GetColumnIdx table (FieldName field) (TempIndex field)) field)
         (Fields columnsSchema))
    (FieldNames columnsSchema) (Types columnsSchema).

(** First loop of [ParseColumnsSchema]: one field per name; [types[i]]
    panics when [types] is shorter than [fieldNames] ([None]). *)
Fixpoint makeFields (i : nat) (fieldNames : list string)
         (types : list SqlColumnType) : option (list QueryedField) :=
  match fieldNames with
  | [] => Some []
  | fieldName :: rest =>
      ty ← types !! i;
      fields ← makeFields (S i) rest types;
      Some (mkQueryedField fieldName (ToLower fieldName) ty 0 None :: fields)
  end.

(** Second loop of [ParseColumnsSchema]: [tempMap] counts the occurrences
    of each lower-cased name seen so far. *)
Fixpoint assignTempIndex (tempMap : gmap string Z)
         (fields : list QueryedField) : list QueryedField :=
  match fields with
  | [] => []
  | field :: rest =>
      let idx := match tempMap !! LowerFieldName field with
                 | None => 0
                 | Some idx => GoInt.incr idx
                 end in
      set_TempIndex idx field
        :: assignTempIndex (<[LowerFieldName field := idx]> tempMap) rest
  end.

Definition ParseColumnsSchema (fieldNames : list string)
           (types : list SqlColumnType) (table : option Table)
  : option ColumnsSchema :=
  fields ← makeFields 0 fieldNames types;
  let columnsSchema :=
    mkColumnsSchema (assignTempIndex ∅ fields) [] [] in
  Some match table with
       | Some table => ParseTableSchema columnsSchema table
       | None => columnsSchema
       end.

(** The number of columns before position [i] whose lower-cased name is
    that of [name]. *)
Definition earlier_same_name (fieldNames : list string) (i : nat)
           (name : string) : nat :=
  length (filter (fun n => ToLower n = ToLower name) (take i fieldNames)).

End ColumnSchema.

(** ** Reflected types and values *)

(** [reflect.Kind], restricted to the kinds the find layer distinguishes. *)
Inductive Kind :=
| KInvalid | KBool | KInt | KInt64 | KString | KInterface
| KStruct | KPtr | KSlice | KArray | KMap.

#[global] Instance Kind_eq_dec : EqDecision Kind.
Proof. solve_decision. Defined.

(** [reflect.Type] *)
Inductive GoType :=
| TBool | TInt | TInt64 | TString | TInterface
| TStruct (name : string)
| TPtr (elem : GoType)
| TSlice (elem : GoType)
| TArray (len : nat) (elem : GoType)
| TMap (key elem : GoType).

#[global] Instance GoType_eq_dec : EqDecision GoType.
Proof. solve_decision. Defined.

Definition KindOf (t : GoType) : Kind :=
  match t with
  | TBool => KBool | TInt => KInt | TInt64 => KInt64 | TString => KString
  | TInterface => KInterface
  | TStruct _ => KStruct
  | TPtr _ => KPtr
  | TSlice _ => KSlice
  | TArray _ _ => KArray
  | TMap _ _ => KMap
  end.

(** [Type.Elem()]; it panics on a type that has no element type. *)
Definition Elem (t : GoType) : option GoType :=
  match t with
  | TPtr e | TSlice e | TArray _ e | TMap _ e => Some e
  | _ => None
  end.

(** [Type.Key()]; it panics on a type that is not a map. *)
Definition Key (t : GoType) : option GoType :=
  match t with
  | TMap k _ => Some k
  | _ => None
  end.

(** The dynamic values carried in [interface{}] positions: query arguments
    and the components of a primary key. *)
Inductive SqlValue :=
| SqlInt (z : Z)
| SqlStr (s : string).

#[global] Instance SqlValue_eq_dec : EqDecision SqlValue.
Proof. solve_decision. Defined.

#[global] Instance SqlValue_countable : Countable SqlValue.
Proof.
  refine (inj_countable'
            (fun v => match v with SqlInt z => inl z | SqlStr s => inr s end)
            (fun x => match x with inl z => SqlInt z | inr s => SqlStr s end)
            _).
  intros []; reflexivity.
Defined.

(** [schemas.PK] is [[]interface{}]. *)
Abbreviation PK := (list SqlValue).

(** A bean: a struct instance, seen through its dynamic struct type and the
    values of its mapped fields (column name, value).  The cache and the
    backfill hold beans by pointer. *)
Record Bean := mkBean {
  bean_type : GoType;
  bean_fields : list (string * SqlValue)
}.

#[global] Instance Bean_eq_dec : EqDecision Bean.
Proof. solve_decision. Defined.

(** What one element of a destination container holds. *)
Inductive Payload :=
| PBean (b : Bean)
| PRaw (cells : list string).

(** An element is stored by value ([T]) or by address ([*T]). *)
Inductive Value :=
| VDirect (p : Payload)
| VAddr (p : Payload).

#[global] Instance Payload_eq_dec : EqDecision Payload.
Proof. solve_decision. Defined.

#[global] Instance Value_eq_dec : EqDecision Value.
Proof. solve_decision. Defined.

Definition payload (v : Value) : Payload :=
  match v with VDirect p | VAddr p => p end.

(** Keys of a destination map: a single converted key value, or the whole
    primary key. *)
Inductive MapKey :=
| KeyScalar (v : SqlValue)
| KeyPK (pk : PK).

#[global] Instance MapKey_eq_dec : EqDecision MapKey.
Proof. solve_decision. Defined.

#[global] Instance MapKey_countable : Countable MapKey.
Proof.
  refine (inj_countable'
            (fun k => match k with KeyScalar v => inl v | KeyPK pk => inr pk end)
            (fun x => match x with inl v => KeyScalar v | inr pk => KeyPK pk end)
            _).
  intros []; reflexivity.
Defined.

(** The content of the caller's container. *)
Inductive Container :=
| CSlice (items : list Value)
| CMap (entries : gmap MapKey Value).

(** [rowsSlicePtr interface{}]: nil, or a value of some dynamic type.  A
    value of type [TPtr t] points to a settable variable of type [t]. *)
Inductive Iface :=
| INil
| IValue (t : GoType).

(** [reflect.Indirect(reflect.ValueOf(x))]: the type of the resulting value
    and whether it is settable ([CanSet]); [None] is the invalid [Value]. *)
Definition Indirect_ValueOf (x : Iface) : option (GoType * bool) :=
  match x with
  | INil => None
  | IValue (TPtr t) => Some (t, true)
  | IValue t => Some (t, false)
  end.

(** ** Errors *)

Inductive Err :=
| ErrCacheFailed                (* the package-level sentinel *)
| ErrNew (msg : string)         (* [errors.New(msg)] in the code below *)
| ErrExt (msg : string).        (* an error returned by a collaborator *)

#[global] Instance Err_eq_dec : EqDecision Err.
Proof. solve_decision. Defined.

(** ** Conditions ([xorm.io/builder]) *)

Inductive Cond :=
| CondEmpty                                   (* [builder.NewCond()] *)
| CondEq (col : string) (v : SqlValue)        (* [builder.Eq{col: v}] *)
| CondAnd (c1 c2 : Cond)                      (* [c1.And(c2)] *)
| CondOpaque (tag : string).                  (* built by a collaborator *)

(** ** Statement and session *)

(** [statements.Statement]: the fields that [find], [cacheFind],
    [cacheInsert] and [ConvertIDSQL] read or write.  [builder_state] stands
    for everything the query builder keeps that this layer never inspects
    (conditions with their arguments, the table name given by [Table]). *)
Record Statement := mkStatement {
  RefTable : option Table;
  LastError : option string;
  NoAutoCondition : bool;
  unscoped : bool;
  ColumnMap : list string;
  IsDistinct : bool;
  UseCache : bool;
  LimitN : option Z;
  builder_state : list (string * list SqlValue)
}.

Record Session := mkSession {
  statement : Statement;
  isAutoCommit : bool
}.

Definition with_statement (session : Session) (st : Statement) : Session :=
  mkSession st (isAutoCommit session).

Definition set_ColumnMap (cm : list string) (st : Statement) : Statement :=
  mkStatement (RefTable st) (LastError st) (NoAutoCondition st) (unscoped st)
              cm (IsDistinct st) (UseCache st) (LimitN st) (builder_state st).

Definition set_UseCache (b : bool) (st : Statement) : Statement :=
  mkStatement (RefTable st) (LastError st) (NoAutoCondition st) (unscoped st)
              (ColumnMap st) (IsDistinct st) b (LimitN st) (builder_state st).

(** [Statement.GetUnscoped] *)
Definition GetUnscoped (st : Statement) : bool := unscoped st.

(** [Session.NoCache] ([engine.go], line 288: "you want temporilly stop use
    cache"): the statement stops using the cache. *)
Definition NoCache (session : Session) : Session :=
  with_statement session (set_UseCache false (statement session)).

(** ** Result cursor

    Results of collaborators are [string + A]: an error message or a
    value. *)

Abbreviation Row := (list string).

(** [core.Rows]: what [Columns], [ColumnTypes], the sequence of [Next]s and
    [Err] deliver. *)
Record Rows := mkRows {
  rows_columns : string + list string;
  rows_types : string + list SqlColumnType;
  rows_data : list Row;
  rows_err : option string
}.

(** ** The observable effects *)

Inductive LogLevel := Debug | Warn | Error.

Inductive Event :=
| EvQuery (sql : string) (args : list SqlValue)   (* [session.queryRows] *)
| EvExec (sql : string) (args : list SqlValue)    (* [session.exec] *)
| EvLog (lvl : LogLevel) (msg : string)           (* [engine.logger] *)
| EvGetIds (table : string) (sql : string) (args : list SqlValue)
| EvPutIds (table : string) (sql : string) (args : list SqlValue)
| EvClearIds (table : string)
| EvGetBean (table : string) (sid : string)
| EvPutBean (table : string) (sid : string)
| EvDelBean (table : string) (sid : string)
| EvClearBeans (table : string).

#[global] Instance LogLevel_eq_dec : EqDecision LogLevel.
Proof. solve_decision. Defined.

#[global] Instance Event_eq_dec : EqDecision Event.
Proof. solve_decision. Defined.

(** The events that read or write the cache store. *)
Definition is_cache_event (e : Event) : bool :=
  match e with
  | EvGetIds _ _ _ | EvPutIds _ _ _ | EvClearIds _
  | EvGetBean _ _ | EvPutBean _ _ | EvDelBean _ _ | EvClearBeans _ => true
  | _ => false
  end.

(** The events that send a query to the database. *)
Definition is_query (e : Event) : bool :=
  match e with
  | EvQuery _ _ => true
  | _ => false
  end.

(** Modelled from the spec: the cache store ([caches.Cacher] and its
    implementations) is not under src/.  Spec 3 and 6: it associates a table
    name and a fingerprint (normalised SQL, arguments) with an id list, and
    a table name and a canonical key string with a bean; it offers get, put
    and clear.  All cachers of an engine are seen as one store indexed by
    table name, since [GetCacher] is a function of the table name. *)
Record CacheStore := mkCacheStore {
  cache_ids : gmap string (gmap (string * list SqlValue) (list PK));
  cache_beans : gmap string (gmap string Bean)
}.

(** The state threaded through a call: the cache store, the trace of
    effects (oldest first) and the content of the destination container. *)
Record State := mkState {
  store : CacheStore;
  trace : list Event;
  dest : Container
}.

Definition emit (e : Event) (s : State) : State :=
  mkState (store s) (trace s ++ [e]) (dest s).

Definition set_dest (c : Container) (s : State) : State :=
  mkState (store s) (trace s) c.

Definition set_store (c : CacheStore) (s : State) : State :=
  mkState c (trace s) (dest s).

(** ** The monad of the find layer

    A computation returns a value, returns a Go [error], panics, or — for
    the fuel-indexed [find] only — runs out of fuel. *)
Inductive Res (A : Type) :=
| Ok (a : A)
| Fail (e : Err)
| Panic (msg : string)
| NoFuel.

Arguments Ok {A} a.
Arguments Fail {A} e.
Arguments Panic {A} msg.
Arguments NoFuel {A}.

Definition M (A : Type) : Type := State -> Res A * State.

Definition ret {A} (a : A) : M A := fun s => (Ok a, s).

Definition fail {A} (e : Err) : M A := fun s => (Fail e, s).

Definition panic {A} (msg : string) : M A := fun s => (Panic msg, s).

Definition bind {A B} (m : M A) (f : A -> M B) : M B :=
  fun s =>
    match m s with
    | (Ok a, s') => f a s'
    | (Fail e, s') => (Fail e, s')
    | (Panic msg, s') => (Panic msg, s')
    | (NoFuel, s') => (NoFuel, s')
    end.

Declare Scope go_scope.
Delimit Scope go_scope with go.

Notation "x <- c1 ;; c2" := (bind c1 (fun x => c2))
  (at level 100, c1 at next level, right associativity) : go_scope.
Notation "c1 ;; c2" := (bind c1 (fun _ => c2))
  (at level 100, right associativity) : go_scope.

Local Open Scope go_scope.

(** An effect-free step. *)
Definition tell (e : Event) : M unit := fun s => (Ok tt, emit e s).

Definition logf (lvl : LogLevel) (msg : string) : M unit := tell (EvLog lvl msg).

(** Lifting the result of a collaborator: its errors are error values
    other than the [ErrCacheFailed] sentinel. *)
Definition lift {A} (r : string + A) : M A :=
  match r with
  | inl msg => fail (ErrExt msg)
  | inr a => ret a
  end.

(** Lifting a partial operation whose failure is a run-time panic. *)
Definition or_panic {A} (msg : string) (o : option A) : M A :=
  match o with
  | Some a => ret a
  | None => panic msg
  end.

Definition get_dest : M Container := fun s => (Ok (dest s), s).

Definition put_dest (c : Container) : M unit := fun s => (Ok tt, set_dest c s).

(** ** Collaborators

    Everything the find and insert layer consumes from code that is not
    under src/ (the statement builder, the tag parser, the row scanner, the
    dialect) or from outside the repository (the SQL driver).  They are
    deterministic functions of their arguments: in particular the database
    answers a query from its text and arguments alone, that is, it is not
    written to while the calls under study run. *)
Class Collaborators := {
  (* database/sql, through [session.queryRows] and [session.exec] *)
  db_query : string -> list SqlValue -> string + Rows;
  db_exec : string -> list SqlValue -> string + Z;
  (* internal/statements *)
  GenFindSQL : Statement -> option Cond -> string + (string * list SqlValue);
  GenInsertMapSQL :
    Statement -> list string -> list SqlValue -> string + (string * list SqlValue);
  GenInsertMultipleMapSQL :
    Statement -> list string -> list (list SqlValue)
    -> string + (string * list SqlValue);
  GenInsertMultipleSQL :
    Statement -> list Bean -> string + (string * list SqlValue);
  SetRefValue : Statement -> GoType -> string + Statement;
  SetRefBean : Statement -> Bean -> string + Statement;
  BuildConds : Statement -> Table -> Bean -> bool -> string + Cond;
  CondDeleted : Statement -> Column -> Cond;
  NeedTableName : Statement -> bool;
  TableName : Statement -> string;
  NewStatement : Statement;
  joinColumns : Statement -> list (option Column) -> bool -> string;
  ColumnMap_Add : list string -> string -> list string;
  stmt_In : Statement -> string -> list SqlValue -> Statement;
  stmt_Or : Statement -> Cond -> Statement;
  stmt_Table : Statement -> string -> Statement;
  (* tags *)
  Parse : Bean -> string + Table;
  ParseWithCache : GoType -> string + Table;
  (* session.go *)
  canCache : Session -> bool;
  (* caches.Manager *)
  GetCacher : string -> bool;
  (* dialects *)
  Filters : list (string -> string);
  is_MSSQL : bool;
  quoter_Replace : string -> string;
  FullTableName : Bean -> string;
  (* schemas, convert, core.Rows *)
  ConvertID : Column -> string -> string + SqlValue;
  ScanSlice : Row -> nat -> string + list string;
  PK_ToString : PK -> string + string;
  IDOfV : Table -> Bean -> string + PK;
  AssignValue : GoType -> SqlValue -> string + SqlValue;
  slice2Bean :
    Table -> ColumnsSchema -> Row -> string + (list (string * SqlValue) * PK);
  scanValue : GoType -> list string -> Row -> string + list string;
  (* strconv, internal/utils *)
  Itoa : Z -> string;
  SplitNNoCase : string -> string -> Z -> list string
}.

Section Layer.
Context `{GoStrings} `{Collaborators}.

(** Modelled from the spec: [utils.IndexNoCase] (internal/utils) is not under
    src/.  Spec 3 and claim wording: the keywords are matched
    case-insensitively, so both strings are lower-cased before the search. *)
Definition IndexNoCase (s sep : string) : Z :=
  Strings.Index (ToLower s) (ToLower sep).

(** [kw] occurs in [s] up to case. *)
Definition contains_nocase (s kw : string) : Prop :=
  exists pre post, ToLower s = pre +:+ ToLower kw +:+ post.

(** [session.queryRows] and [session.exec]: the statement reaches the
    database, which answers. *)
Definition queryRows (sqlStr : string) (args : list SqlValue) : M Rows :=
  tell (EvQuery sqlStr args) ;; lift (db_query sqlStr args).

Definition exec (sqlStr : string) (args : list SqlValue) : M Z :=
  tell (EvExec sqlStr args) ;; lift (db_exec sqlStr args).

(** *** The cache store capability (modelled from the spec, see
    [CacheStore]) *)

Definition ids_of (c : CacheStore) (table : string)
  : gmap (string * list SqlValue) (list PK) :=
  default ∅ (cache_ids c !! table).

Definition beans_of (c : CacheStore) (table : string) : gmap string Bean :=
  default ∅ (cache_beans c !! table).

Definition GetIds (table sql : string) (args : list SqlValue)
  : M (option (list PK)) :=
  fun s => (Ok (ids_of (store s) table !! (sql, args)),
            emit (EvGetIds table sql args) s).

Definition PutIds (table sql : string) (args : list SqlValue) (ids : list PK)
  : M unit :=
  fun s =>
    let c := store s in
    (Ok tt,
     emit (EvPutIds table sql args)
       (set_store
          (mkCacheStore
             (<[table := <[(sql, args) := ids]> (ids_of c table)]> (cache_ids c))
             (cache_beans c)) s)).

Definition ClearIds (table : string) : M unit :=
  fun s =>
    let c := store s in
    (Ok tt,
     emit (EvClearIds table)
       (set_store (mkCacheStore (delete table (cache_ids c)) (cache_beans c)) s)).

Definition GetBean (table sid : string) : M (option Bean) :=
  fun s => (Ok (beans_of (store s) table !! sid), emit (EvGetBean table sid) s).

Definition PutBean (table sid : string) (bean : Bean) : M unit :=
  fun s =>
    let c := store s in
    (Ok tt,
     emit (EvPutBean table sid)
       (set_store
          (mkCacheStore
             (cache_ids c)
             (<[table := <[sid := bean]> (beans_of c table)]> (cache_beans c)))
          s)).

Definition DelBean (table sid : string) : M unit :=
  fun s =>
    let c := store s in
    (Ok tt,
     emit (EvDelBean table sid)
       (set_store
          (mkCacheStore
             (cache_ids c)
             (<[table := delete sid (beans_of c table)]> (cache_beans c)))
          s)).

Definition ClearBeans (table : string) : M unit :=
  fun s =>
    let c := store s in
    (Ok tt,
     emit (EvClearBeans table)
       (set_store (mkCacheStore (cache_ids c) (delete table (cache_beans c))) s)).

(** [caches.GetCacheSql]: the id list stored under the fingerprint, or
    "not exist". *)
Definition GetCacheSql (table sql : string) (args : list SqlValue)
  : M (option (list PK)) := GetIds table sql args.

(** [caches.PutCacheSql] *)
Definition PutCacheSql (ids : list PK) (table sql : string)
           (args : list SqlValue) : M unit := PutIds table sql args ids.

(** *** [Statement.ConvertIDSQL] ([internal/statements/cache.go], 17-45) *)
Definition ConvertIDSQL (statement : Statement) (sqlStr : string) : string :=
  match RefTable statement with
  | Some table =>
      let cols := PKColumns table in
      if decide (length cols = 0%nat) then ""
      else
        let colstrs := joinColumns statement cols false in
        match SplitNNoCase sqlStr " from " 2 with
        | [_; tail] =>
            "SELECT "
              +:+ match LimitN statement with
                  | Some n => if is_MSSQL then "TOP " +:+ Itoa n +:+ " " else ""
                  | None => ""
                  end
              +:+ colstrs +:+ " FROM " +:+ tail
        | _ => ""
        end
  | None => ""
  end.

(** *** [noCacheFind] ([session_find.go], 224-333) *)

(** [containerValue.Set(reflect.Append(containerValue, v))]: [Set] panics on
    a value that is not settable. *)
Definition appendToSlice (canSet : bool) (v : Value) : M unit :=
  if canSet then
    c <- get_dest ;;
    match c with
    | CSlice items => put_dest (CSlice (items ++ [v]))
    | CMap _ => panic "reflect: call of reflect.Append on map Value"
    end
  else panic "reflect: reflect.Value.Set using unaddressable value".

(** [containerValue.SetMapIndex(key, v)] *)
Definition setMapIndex (key : MapKey) (v : Value) : M unit :=
  c <- get_dest ;;
  match c with
  | CMap entries => put_dest (CMap (<[key := v]> entries))
  | CSlice _ => panic "reflect: call of reflect.Value.SetMapIndex on slice Value"
  end.

(** [newValue.Elem().Addr()] or [newValue.Elem()] *)
Definition asElement (isPointer : bool) (p : Payload) : Value :=
  if isPointer then VAddr p else VDirect p.

(** The [containerValueSetFunc] of a slice container (lines 258-265). *)
Definition sliceSetFunc (isPointer canSet : bool) (newValue : Payload)
           (pk : PK) : M unit :=
  appendToSlice canSet (asElement isPointer newValue).

(** The [containerValueSetFunc] of a map container (lines 275-292).
    [keyValue] is the result of [reflect.New]; it is not settable, so the
    composite-key branch panics. *)
Definition mapSetFunc (table : Table) (keyType : GoType) (isPointer : bool)
           (newValue : Payload) (pk : PK) : M unit :=
  let cols := PKColumns table in
  key <- (if decide (length cols = 1%nat) then
            pk0 <- or_panic "index out of range" (head pk) ;;
            k <- lift (AssignValue keyType pk0) ;;
            ret (KeyScalar k)
          else panic "reflect: reflect.Value.Set using unaddressable value") ;;
  setMapIndex key (asElement isPointer newValue).

(** Modelled from the spec: [Session.rows2Beans] (session.go) is not under
    src/.  Spec 4.2: for every row a new instance of the element type is
    allocated and filled from the row; a row that fails to convert aborts
    the remaining rows.  The placement of each bean is queued and run by
    [executeProcessors], in row order (spec 4.3). *)
Fixpoint rows2Beans (tb : Table) (columnsSchema : ColumnsSchema)
         (elemType : GoType) (rows : list Row) : M (list (Bean * PK)) :=
  match rows with
  | [] => ret []
  | row :: rest =>
      r <- lift (slice2Bean tb columnsSchema row) ;;
      more <- rows2Beans tb columnsSchema elemType rest ;;
      ret ((mkBean elemType r.1, r.2) :: more)
  end.

(** Modelled from the spec: [Session.executeProcessors] (session.go) is not
    under src/; it runs the queued placements in order and stops at the
    first error. *)
Fixpoint executeProcessors (setFunc : Payload -> PK -> M unit)
         (pending : list (Bean * PK)) : M unit :=
  match pending with
  | [] => ret tt
  | (bean, pk) :: rest =>
      setFunc (PBean bean) pk ;; executeProcessors setFunc rest
  end.

(** [rows.Err()] *)
Definition rowsErr (rows : Rows) : M unit :=
  match rows_err rows with
  | Some msg => fail (ErrExt msg)
  | None => ret tt
  end.

(** The loop of lines 312-331 over the rows of a non-struct element type. *)
Fixpoint scanRows (elemType : GoType) (fields : list string)
         (setFunc : Payload -> PK -> M unit) (rows : list Row) : M unit :=
  match rows with
  | [] => ret tt
  | row :: rest =>
      cells <- lift (scanValue elemType fields row) ;;
      setFunc (PRaw cells) [] ;;
      scanRows elemType fields setFunc rest
  end.

Definition noCacheFind (table : option Table) (containerValue : GoType * bool)
           (sqlStr : string) (args : list SqlValue) : M unit :=
  let ctype := containerValue.1 in
  let canSet := containerValue.2 in
  elemType0 <- or_panic "reflect: Elem of invalid type" (Elem ctype) ;;
  let isPointer := bool_decide (KindOf elemType0 = KPtr) in
  elemType <- (if isPointer
               then or_panic "reflect: Elem of invalid type" (Elem elemType0)
               else ret elemType0) ;;
  if decide (KindOf elemType = KPtr) then
    fail (ErrNew "pointer to pointer is not supported")
  else
    rows <- queryRows sqlStr args ;;
    fields <- lift (rows_columns rows) ;;
    types <- lift (rows_types rows) ;;
    containerValueSetFunc <-
      (if decide (KindOf ctype = KSlice) then
         ret (sliceSetFunc isPointer canSet)
       else
         keyType <- or_panic "reflect: Key of non-map type" (Key ctype) ;;
         table <- or_panic "nil pointer dereference" table ;;
         if decide (length (PrimaryKeys table) = 0%nat) then
           fail (ErrNew "don't support multiple primary key's map has non-slice key type")
         else if decide ((1 < length (PrimaryKeys table))%nat
                         /\ KindOf keyType <> KSlice) then
           fail (ErrNew "don't support multiple primary key's map has non-slice key type")
         else ret (mapSetFunc table keyType isPointer)) ;;
    if decide (KindOf elemType = KStruct) then
      tb <- lift (ParseWithCache elemType) ;;
      columnsSchema <-
        or_panic "index out of range" (ParseColumnsSchema fields types (Some tb)) ;;
      pending <- rows2Beans tb columnsSchema elemType (rows_data rows) ;;
      rowsErr rows ;;
      executeProcessors containerValueSetFunc pending
    else
      scanRows elemType fields containerValueSetFunc (rows_data rows) ;;
      rowsErr rows.

(** *** [cacheFind] ([session_find.go], 335-546) *)

(** Lines 374-387: one row of the rewritten query becomes a primary key. *)
Fixpoint convertPK (cols : list (option Column)) (res : list string)
  : M PK :=
  match cols with
  | [] => ret []
  | col :: cols' =>
      match res with
      | [] => panic "index out of range"
      | r :: res' =>
          col <- or_panic "nil pointer dereference" col ;;
          v <- lift (ConvertID col r) ;;
          pk <- convertPK cols' res' ;;
          ret (v :: pk)
      end
  end.

(** Lines 374-385: [ScanSlice] into as many strings as the table has
    primary-key columns, then the conversion of each. *)
Definition scanPK (table : Table) (row : Row) : M PK :=
  res <- lift (ScanSlice row (length (PrimaryKeys table))) ;;
  convertPK (PKColumns table) res.

(** The row scans and converts to the primary key [pk]. *)
Definition yields_key (table : Table) (row : Row) (pk : PK) : Prop :=
  forall s, scanPK table row s = (Ok pk, s).

(** Lines 366-388: the rows of the rewritten query are collected; [i] is the
    number of rows seen before this one. *)
Fixpoint collectIDs (table : Table) (i : Z) (ids : list PK) (rows : list Row)
  : M (list PK) :=
  match rows with
  | [] => ret ids
  | row :: rest =>
      let i := GoInt.incr i in
      if decide (i > 500) then
        logf Debug "[cacheFind] ids length > 500, no cache" ;;
        fail ErrCacheFailed
      else
        pk <- scanPK table row ;;
        collectIDs table i (ids ++ [pk]) rest
  end.

(** Lines 358-400: the id list comes from the cache or from the rewritten
    query, in which case it is stored. *)
Definition resolveIDs (table : Table) (tableName sqlStr newsql : string)
           (args : list SqlValue) : M (list PK) :=
  cached <- GetCacheSql tableName newsql args ;;
  match cached with
  | None =>
      rows <- queryRows newsql args ;;
      ids <- collectIDs table 0 [] (rows_data rows) ;;
      rowsErr rows ;;
      logf Debug "[cache] cache sql" ;;
      PutCacheSql ids tableName newsql args ;;
      ret ids
  | Some ids =>
      logf Debug "[cache] cache hit sql" ;;
      ret ids
  end.

(** Lines 416-427 (the fix of issue #894): a cached bean counts as a hit
    only when its struct type is the element type or the type the element
    type points to. *)
Definition isHit (t : GoType) (bean : option Bean) : bool :=
  match bean with
  | None => false
  | Some bean =>
      let ckb := bean_type bean in
      let ht := bool_decide (ckb = t) in
      if negb ht && bool_decide (KindOf t = KPtr)
      then bool_decide (Elem t = Some ckb)
      else ht
  end.

(** The three variables of lines 404-406. *)
Record Probe := mkProbe {
  ididxes : gmap string Z;
  ides : list PK;
  temps : list (option Bean)
}.

(** [temps[k] = bean]; an index out of range panics. *)
Definition setTemp (k : Z) (bean : Bean) (temps : list (option Bean))
  : M (list (option Bean)) :=
  if decide (0 <= k < Z.of_nat (length temps))
  then ret (<[Z.to_nat k := Some bean]> temps)
  else panic "index out of range".

(** Lines 408-450: one iteration for [id] at index [idx]. *)
Definition probeBean (table : Table) (tableName : string) (t : GoType)
           (idx : Z) (id : PK) (p : Probe) : M Probe :=
  sid <- lift (PK_ToString id) ;;
  bean <- GetBean tableName sid ;;
  if negb (isHit t bean) then
    ret (mkProbe (<[sid := idx]> (ididxes p)) (ides p ++ [id]) (temps p))
  else
    match bean with
    | None => ret p
    | Some bean =>
        logf Debug "[cache] cache hit bean" ;;
        pk <- lift (IDOfV table bean) ;;
        xid <- lift (PK_ToString pk) ;;
        if decide (sid <> xid) then
          logf Error "[cache] error cache" ;;
          fail ErrCacheFailed
        else
          temps' <- setTemp idx bean (temps p) ;;
          ret (mkProbe (ididxes p) (ides p) temps')
    end.

Fixpoint probeBeans (table : Table) (tableName : string) (t : GoType)
         (idx : Z) (ids : list PK) (p : Probe) : M Probe :=
  match ids with
  | [] => ret p
  | id :: rest =>
      p' <- probeBean table tableName t idx id p ;;
      probeBeans table tableName t (GoInt.incr idx) rest p'
  end.
(** Lines 463-466: [ie[0]] of every missing key. *)
Fixpoint firstComponents (ides : list PK) : M (list SqlValue) :=
  match ides with
  | [] => ret []
  | ie :: rest =>
      v <- or_panic "index out of range" (head ie) ;;
      ff <- firstComponents rest ;;
      ret (v :: ff)
  end.

(** Lines 471-474: the conjunction of equalities for one composite key. *)
Fixpoint pkCond (names : list string) (i : nat) (ie : PK) (cond : Cond)
  : M Cond :=
  match names with
  | [] => ret cond
  | name :: rest =>
      v <- or_panic "index out of range" (ie !! i) ;;
      pkCond rest (S i) ie (CondAnd cond (CondEq ("`" +:+ name +:+ "`") v))
  end.

(** Lines 470-476 *)
Fixpoint orConds (table : Table) (ides : list PK) (st : Statement)
  : M Statement :=
  match ides with
  | [] => ret st
  | ie :: rest =>
      cond <- pkCond (PrimaryKeys table) 0 ie CondEmpty ;;
      orConds table rest (stmt_Or st cond)
  end.

(** Lines 456-477: the isolated statement of the backfill query. *)
Definition backfillStatement (table : Table) (ides : list PK) : M Statement :=
  if decide (length (PrimaryKeys table) = 1%nat) then
    ff <- firstComponents ides ;;
    ret (stmt_In NewStatement
           ("`" +:+ default "" (head (PrimaryKeys table)) +:+ "`") ff)
  else orConds table ides NewStatement.

(** [session.NoCache().Table(tableName)] on the isolated statement. *)
Definition backfillSession (session : Session) (st : Statement)
           (tableName : string) : Session :=
  let session1 := NoCache (with_statement session st) in
  with_statement session1 (stmt_Table (statement session1) tableName).

(** Lines 453-485: the inner [find] fills a fresh slice of [t]; the caller's
    container is not touched. *)
Definition fetchMissing (find_rec : Session -> Iface -> list Bean -> M unit)
           (session : Session) (t : GoType) : M (list Value) :=
  fun s =>
    match find_rec session (IValue (TPtr (TSlice t))) []
                   (set_dest (CSlice []) s) with
    | (Ok _, s') =>
        (match dest s' with
         | CSlice vs => Ok vs
         | CMap _ => Panic "reflect: call of reflect.Value.Len on map Value"
         end, set_dest (dest s) s')
    | (Fail e, s') => (Fail e, set_dest (dest s) s')
    | (Panic msg, s') => (Panic msg, set_dest (dest s) s')
    | (NoFuel, s') => (NoFuel, set_dest (dest s) s')
    end.

(** Lines 486-504: every fetched bean is put at the index recorded for its
    key (a key that was not recorded reads as index 0 from the Go map) and
    into the bean cache. *)
Fixpoint storeBeans (table : Table) (tableName : string)
         (ididxes : gmap string Z) (vs : list Value)
         (temps : list (option Bean)) : M (list (option Bean)) :=
  match vs with
  | [] => ret temps
  | rv :: rest =>
      bean <- match payload rv with
              | PBean b => ret b
              | PRaw _ => panic "reflect: call of FieldByName on non-struct Value"
              end ;;
      id <- lift (IDOfV table bean) ;;
      sid <- lift (PK_ToString id) ;;
      temps' <- setTemp (default 0 (ididxes !! sid)) bean temps ;;
      logf Debug "[cache] cache bean" ;;
      PutBean tableName sid bean ;;
      storeBeans table tableName ididxes rest temps'
  end.

(** Lines 452-505 *)
Definition backfill (find_rec : Session -> Iface -> list Bean -> M unit)
           (session : Session) (table : Table) (tableName : string)
           (t : GoType) (p : Probe) : M (list (option Bean)) :=
  if decide (0 < length (ides p))%nat then
    st <- backfillStatement table (ides p) ;;
    vs <- fetchMissing find_rec (backfillSession session st tableName) t ;;
    storeBeans table tableName (ididxes p) vs (temps p)
  else ret (temps p).

(** [reflect.ValueOf(bean)] or [reflect.Indirect(reflect.ValueOf(bean))] *)
Definition beanElement (t : GoType) (bean : Bean) : Value :=
  if decide (KindOf t = KPtr) then VAddr (PBean bean) else VDirect (PBean bean).

Definition kindOfValue (v : option (GoType * bool)) : Kind :=
  match v with
  | Some (t, _) => KindOf t
  | None => KInvalid
  end.

(** Lines 514-542: one resolved bean goes to the caller's container. *)
Definition placeBean (t : GoType) (sliceValue : option (GoType * bool))
           (ids : list PK) (j : nat) (bean : Bean) : M unit :=
  if decide (kindOfValue sliceValue = KSlice) then
    appendToSlice (default false (snd <$> sliceValue)) (beanElement t bean)
  else if decide (kindOfValue sliceValue = KMap) then
    key <- or_panic "index out of range" (ids !! j) ;;
    keyType <- or_panic "reflect: Key of non-map type"
                        (sliceValue ≫= fun v => Key v.1) ;;
    ikey <- (if decide (length key = 1%nat) then
               k0 <- or_panic "index out of range" (head key) ;;
               k <- lift (AssignValue keyType k0) ;;
               ret (KeyScalar k)
             else if decide (KindOf keyType <> KSlice) then
               fail (ErrNew "table have multiple primary keys, key is not schemas.PK or slice")
             else ret (KeyPK key)) ;;
    setMapIndex ikey (beanElement t bean)
  else ret tt.

(** Lines 507-543: the slots are walked in the order of the id list; an
    empty slot is logged and skipped ("no need to return error, but continue
    instead"). *)
Fixpoint composeResult (t : GoType) (sliceValue : option (GoType * bool))
         (ids : list PK) (j : nat) (temps : list (option Bean)) : M unit :=
  match temps with
  | [] => ret tt
  | bean :: rest =>
      match bean with
      | None => logf Warn "[cache] cache no hit"
      | Some bean => placeBean t sliceValue ids j bean
      end ;;
      composeResult t sliceValue ids (S j) rest
  end.

(** Lines 402-545: the resolved ids are probed in the bean cache, the
    missing ones are fetched, and the result is composed. *)
Definition assemble (find_rec : Session -> Iface -> list Bean -> M unit)
           (session : Session) (table : Table) (tableName : string)
           (t : GoType) (rowsSlicePtr : Iface) (ids : list PK) : M unit :=
  let sliceValue := Indirect_ValueOf rowsSlicePtr in
  p <- probeBeans table tableName t 0 ids
                  (mkProbe ∅ [] (replicate (length ids) None)) ;;
  temps <- backfill find_rec session table tableName t p ;;
  composeResult t sliceValue ids 0 temps.

Definition cacheFind (find_rec : Session -> Iface -> list Bean -> M unit)
           (session : Session) (t : GoType) (sqlStr : string)
           (rowsSlicePtr : Iface) (args : list SqlValue) : M unit :=
  if negb (canCache session)
     || bool_decide (IndexNoCase sqlStr "having" <> -1)
     || bool_decide (IndexNoCase sqlStr "group by" <> -1)
  then fail ErrCacheFailed
  else
    let tableName := TableName (statement session) in
    if negb (GetCacher tableName) then ret tt
    else
      let sqlStr := fold_left (fun s filter => filter s) Filters sqlStr in
      let newsql := ConvertIDSQL (statement session) sqlStr in
      if decide (newsql = "") then fail ErrCacheFailed
      else
        table <- or_panic "nil pointer dereference"
                          (RefTable (statement session)) ;;
        ids <- resolveIDs table tableName sqlStr newsql args ;;
        assemble find_rec session table tableName t rowsSlicePtr ids.

(** *** [find] ([session_find.go], 81-164) *)

Definition tpStruct : Z := 0.
Definition tpNonStruct : Z := 1.

(** Lines 96-115: the reference table is derived from the element type when
    the statement has none. *)
Definition refFromElement (session : Session) (sliceElementType : GoType)
  : M (Session * Z) :=
  match RefTable (statement session) with
  | Some _ => ret (session, tpStruct)
  | None =>
      if decide (KindOf sliceElementType = KPtr) then
        inner <- or_panic "reflect: Elem of invalid type"
                          (Elem sliceElementType) ;;
        if decide (KindOf inner = KStruct) then
          st <- lift (SetRefValue (statement session) inner) ;;
          ret (with_statement session st, tpStruct)
        else ret (session, tpNonStruct)
      else if decide (KindOf sliceElementType = KStruct) then
        st <- lift (SetRefValue (statement session) sliceElementType) ;;
        ret (with_statement session st, tpStruct)
      else ret (session, tpNonStruct)
  end.

(** Lines 122-137 *)
Definition autoCondition (session : Session) (tp : Z) (condiBean : list Bean)
  : M (option Cond) :=
  let st := statement session in
  if decide (tp = tpStruct) then
    match condiBean with
    | bean0 :: _ =>
        if negb (NoAutoCondition st) then
          condTable <- lift (Parse bean0) ;;
          c <- lift (BuildConds st condTable bean0 (NeedTableName st)) ;;
          ret (Some c)
        else
          table <- or_panic "nil pointer dereference" (RefTable st) ;;
          match DeletedColumn table with
          | Some col =>
              if negb (GetUnscoped st) then ret (Some (CondDeleted st col))
              else ret None
          | None => ret None
          end
    | [] =>
        table <- or_panic "nil pointer dereference" (RefTable st) ;;
        match DeletedColumn table with
        | Some col =>
            if negb (GetUnscoped st) then ret (Some (CondDeleted st col))
            else ret None
        | None => ret None
        end
    end
  else ret None.

(** Lines 139-144 *)
Definition addPrimaryKeys (session : Session) (isMap : bool) : M Session :=
  let st := statement session in
  if isMap && negb (bool_decide (ColumnMap st = [])) then
    table <- or_panic "nil pointer dereference" (RefTable st) ;;
    ret (with_statement session
           (set_ColumnMap (fold_left ColumnMap_Add (PrimaryKeys table)
                                     (ColumnMap st)) st))
  else ret session.

(** The condition of lines 151-154 under which [cacheFind] is attempted. *)
Definition triesCache (session : Session) : bool :=
  let st := statement session in
  bool_decide (ColumnMap st = []) && canCache session
  && GetCacher (TableName st) && negb (IsDistinct st) && negb (GetUnscoped st).

(** Lines 151-163 *)
Definition materialize (find_rec : Session -> Iface -> list Bean -> M unit)
           (session : Session) (table : option Table)
           (sliceValue : GoType * bool) (sliceElementType : GoType)
           (rowsSlicePtr : Iface) (sqlStr : string) (args : list SqlValue)
  : M unit :=
  if triesCache session then
    fun s =>
      match cacheFind find_rec session sliceElementType sqlStr rowsSlicePtr
                      args s with
      | (Fail ErrCacheFailed, s') =>
          (logf Warn "Cache Find Failed" ;;
           noCacheFind table sliceValue sqlStr args) s'
      | r => r
      end
  else noCacheFind table sliceValue sqlStr args.

(** What lines 83-149 hand over to lines 151-163. *)
Record Prepared := mkPrepared {
  p_session : Session;
  p_table : option Table;
  p_sliceValue : GoType * bool;
  p_elemType : GoType;
  p_sql : string;
  p_args : list SqlValue
}.

(** Lines 83-149: the checks on the destination and the generation of the
    SQL; nothing is sent to the database and the cache is not consulted. *)
Definition prepare (session : Session) (rowsSlicePtr : Iface)
           (condiBean : list Bean) : M Prepared :=
  match LastError (statement session) with
  | Some msg => fail (ErrExt msg)
  | None =>
      match Indirect_ValueOf rowsSlicePtr with
      | None => fail (ErrNew "needs a pointer to a slice or a map")
      | Some sliceValue =>
          let isSlice := bool_decide (KindOf sliceValue.1 = KSlice) in
          let isMap := bool_decide (KindOf sliceValue.1 = KMap) in
          if negb isSlice && negb isMap then
            fail (ErrNew "needs a pointer to a slice or a map")
          else
            sliceElementType <- or_panic "reflect: Elem of invalid type"
                                         (Elem sliceValue.1) ;;
            r <- refFromElement session sliceElementType ;;
            let session := r.1 in
            let tp := r.2 in
            let table := RefTable (statement session) in
            autoCond <- autoCondition session tp condiBean ;;
            session <- addPrimaryKeys session isMap ;;
            q <- lift (GenFindSQL (statement session) autoCond) ;;
            ret (mkPrepared session table sliceValue sliceElementType q.1 q.2)
      end
  end.

Definition find_body (find_rec : Session -> Iface -> list Bean -> M unit)
           (session : Session) (rowsSlicePtr : Iface) (condiBean : list Bean)
  : M unit :=
  p <- prepare session rowsSlicePtr condiBean ;;
  materialize find_rec (p_session p) (p_table p) (p_sliceValue p)
              (p_elemType p) rowsSlicePtr (p_sql p) (p_args p).

(** [find] calls [cacheFind], which calls [find] again for the backfill; the
    recursion is cut by fuel. *)
Fixpoint find (fuel : nat) (session : Session) (rowsSlicePtr : Iface)
         (condiBean : list Bean) : M unit :=
  match fuel with
  | O => fun s => (NoFuel, s)
  | S fuel' => find_body (find fuel') session rowsSlicePtr condiBean
  end.

(** *** Cache invalidation on insert ([session_insert.go]) *)

(** [ErrTableNotFound] and [ErrNoElementsOnSlice] are package-level error
    values. *)
Definition ErrTableNotFound : Err := ErrNew "table not found".
Definition ErrNoElementsOnSlice : Err := ErrNew "no element on slice when insert".

(** [cacheInsert] (lines 436-447) *)
Definition cacheInsert (session : Session) (table : string) : M unit :=
  if negb (UseCache (statement session)) then ret tt
  else if negb (GetCacher table) then ret tt
  else
    logf Debug "[cache] clear SQL" ;;
    ClearIds table.

(** [insertMap] (lines 647-672) *)
Definition insertMap (session : Session) (columns : list string)
           (args : list SqlValue) : M Z :=
  let tableName := TableName (statement session) in
  if decide (String.length tableName = 0%nat) then fail ErrTableNotFound
  else
    q <- lift (GenInsertMapSQL (statement session) columns args) ;;
    let sql := quoter_Replace q.1 in
    cacheInsert session tableName ;;
    affected <- exec sql q.2 ;;
    ret affected.

(** [insertMultipleMap] (lines 674-699) *)
Definition insertMultipleMap (session : Session) (columns : list string)
           (argss : list (list SqlValue)) : M Z :=
  let tableName := TableName (statement session) in
  if decide (String.length tableName = 0%nat) then fail ErrTableNotFound
  else
    q <- lift (GenInsertMultipleMapSQL (statement session) columns argss) ;;
    let sql := quoter_Replace q.1 in
    cacheInsert session tableName ;;
    affected <- exec sql q.2 ;;
    ret affected.

(** [insertMultipleStruct] (lines 69-231).  The loop of lines 97-188 reads
    the beans by reflection and produces the column names and arguments; it
    and [WriteInsertMultiple] are the collaborator [GenInsertMultipleSQL]. *)
Definition insertMultipleStruct (session : Session) (beans : list Bean)
  : M Z :=
  match beans with
  | [] => fail ErrNoElementsOnSlice
  | bean0 :: _ =>
      st <- lift (SetRefBean (statement session) bean0) ;;
      let session := with_statement session st in
      let tableName := TableName st in
      if decide (String.length tableName = 0%nat) then fail ErrTableNotFound
      else
        q <- lift (GenInsertMultipleSQL st beans) ;;
        affected <- exec q.1 q.2 ;;
        cacheInsert session tableName ;;
        ret affected
  end.

(** *** [Engine.ClearCacheBean] and [Engine.ClearCache] ([engine.go],
    1100-1122) *)

Definition ClearCacheBean (bean : Bean) (id : string) : M unit :=
  let tableName := FullTableName bean in
  if GetCacher tableName then
    ClearIds tableName ;;
    DelBean tableName id
  else ret tt.

Fixpoint ClearCache (beans : list Bean) : M unit :=
  match beans with
  | [] => ret tt
  | bean :: rest =>
      let tableName := FullTableName bean in
      (if GetCacher tableName then
         ClearIds tableName ;;
         ClearBeans tableName
       else ret tt) ;;
      ClearCache rest
  end.

End Layer.

(** * Vocabulary of the statements *)

(** How often [k] occurs in a list of lower-cased names. *)
Definition occurrences (k : string) (l : list string) : nat :=
  length (filter (fun x => x = k) l).

(** [tempMap] holds, for every name seen so far, the index given to its
    latest occurrence. *)
Definition counts_ok (tempMap : gmap string Z) (seen : list string) : Prop :=
  forall k, tempMap !! k = match occurrences k seen with
                           | O => None
                           | S c => Some (Z.of_nat c)
                           end.

(** A computation is pure when it returns the same result in every state
    and leaves the state alone. *)
Definition pure {A} (m : M A) : Prop := exists r, forall s, m s = (r, s).

(** [m] neither reads nor writes the cache store. *)
Definition cache_free {A} (m : M A) : Prop :=
  forall s,
    store (m s).2 = store s
    /\ exists evs, trace (m s).2 = trace s ++ evs
                   /\ Forall (fun e => is_cache_event e = false) evs.

(** [m] changes nothing but the trace, and adds no cache event to it. *)
Definition quiet {A} (m : M A) : Prop :=
  forall s, dest (m s).2 = dest s /\ cache_free m.

Section Vocabulary.
Context `{GoStrings} `{Collaborators}.

(** The row materialises as the bean [b] of the element type. *)
Definition row_bean (tb : Table) (cs : ColumnsSchema) (elemType : GoType)
           (row : Row) (b : Bean) : Prop :=
  exists pk, slice2Bean tb cs row = inr (bean_fields b, pk)
             /\ bean_type b = elemType.

(** Whether the container holds pointers, and the element type that
    [noCacheFind] materialises. *)
Definition holdsPointers (ctype : GoType) : bool :=
  bool_decide (KindOf (default ctype (Elem ctype)) = KPtr).

Definition materialised (ctype : GoType) : GoType :=
  let e := default ctype (Elem ctype) in
  if bool_decide (KindOf e = KPtr) then default e (Elem e) else e.

(** [sid] is the canonical key string of the bean's own primary key. *)
Definition keyed (table : Table) (b : Bean) (sid : string) : Prop :=
  exists pk, IDOfV table b = inr pk /\ PK_ToString pk = inr sid.

(** Every filled slot holds a bean whose own key is the key of the id at
    the same index of the id list. *)
Definition slots_ok (table : Table) (ids : list PK)
           (temps : list (option Bean)) : Prop :=
  length temps = length ids
  /\ forall j b,
      temps !! j = Some (Some b) ->
      exists id sid,
        ids !! j = Some id /\ PK_ToString id = inr sid /\ keyed table b sid.

(** Every recorded index is the index of an id with that key. *)
Definition idx_ok (ids : list PK) (ididxes : gmap string Z) : Prop :=
  forall sid k,
    ididxes !! sid = Some k ->
    exists id,
      0 <= k /\ ids !! Z.to_nat k = Some id /\ PK_ToString id = inr sid.

(** Every filled slot holds the bean that the bean cache holds under the
    key of the id at the same index, and that bean counts as a hit. *)
Definition cached_slots (table : Table) (tableName : string) (t : GoType)
           (ids : list PK) (c : CacheStore) (temps : list (option Bean))
  : Prop :=
  forall j b,
    temps !! j = Some (Some b) ->
    exists id sid,
      ids !! j = Some id /\ PK_ToString id = inr sid /\ keyed table b sid
      /\ beans_of c tableName !! sid = Some b
      /\ isHit t (Some b) = true.

(** The warnings that the composition logs for the empty slots. *)
Definition warnings (temps : list (option Bean)) : list Event :=
  omap (fun slot => match slot with
                    | None => Some (EvLog Warn "[cache] cache no hit")
                    | Some _ => None
                    end) temps.

(** The beans of the filled slots, in slot order. *)
Definition present (temps : list (option Bean)) : list Bean := omap id temps.

(** The key string of a bean's own primary key ([IDOfV], then
    [PK.ToString]), when both succeed. *)
Definition keyOf (table : Table) (b : Bean) : option string :=
  match IDOfV table b with
  | inr pk =>
      match PK_ToString pk with
      | inr sid => Some sid
      | inl _ => None
      end
  | inl _ => None
  end.

(** The bean that the bean cache serves for the key [sid]: the bean stored
    under [sid], if it counts as a hit for the element type [t]. *)
Definition hitFor (tableName : string) (t : GoType) (c : CacheStore)
           (sid : string) : option Bean :=
  match beans_of c tableName !! sid with
  | Some b => if isHit t (Some b) then Some b else None
  | None => None
  end.

(** The cache hit of a resolved id. *)
Definition hitOf (tableName : string) (t : GoType) (c : CacheStore) (id : PK)
  : option Bean :=
  match PK_ToString id with
  | inr sid => hitFor tableName t c sid
  | inl _ => None
  end.

(** The struct instances among the values that the backfill returned, in
    the order in which it returned them. *)
Definition beansOf (vs : list Value) : list Bean :=
  omap (fun v => match payload v with
                 | PBean b => Some b
                 | PRaw _ => None
                 end) vs.

(** The bean that the backfill returned for the key [sid]: the last
    returned row with that key. *)
Definition fetchedFor (table : Table) (vs : list Value) (sid : string)
  : option Bean :=
  last (filter (fun b => keyOf table b = Some sid) (beansOf vs)).

(** The bean of a resolved id: its cache hit, else the row that the
    backfill returned for its key. *)
Definition beanFor (table : Table) (tableName : string) (t : GoType)
           (c : CacheStore) (vs : list Value) (id : PK) : option Bean :=
  match hitOf tableName t c id with
  | Some b => Some b
  | None =>
      match PK_ToString id with
      | inr sid => fetchedFor table vs sid
      | inl _ => None
      end
  end.

(** The index at which lines 486-504 put a fetched bean: the one recorded
    for its key (a key that was not recorded reads as index 0 from the Go
    map). *)
Definition landing (table : Table) (ididxes : gmap string Z) (b : Bean) : nat :=
  match keyOf table b with
  | Some sid => Z.to_nat (default 0 (ididxes !! sid))
  | None => 0
  end.

(** Lines 452-485: the rows that the backfill query returns for the ids
    that the probe has queued; no query is sent when nothing is queued. *)
Definition backfillRows (find_rec : Session -> Iface -> list Bean -> M unit)
           (session : Session) (table : Table) (tableName : string)
           (t : GoType) (p : Probe) : M (list Value) :=
  if decide (0 < length (ides p))%nat then
    st <- backfillStatement table (ides p) ;;
    fetchMissing find_rec (backfillSession session st tableName) t
  else ret [].

End Vocabulary.
(** * Outcomes that a caller must never see *)

(** Two results are internal to the layer: the [ErrCacheFailed] sentinel,
    which asks [find] to fall back to the direct query, and the exhausted
    fuel of the recursion between [find] and [cacheFind]. *)
Inductive Outcome := Sentinel | OutOfFuel.

Definition is_outcome {A} (o : Outcome) (r : Res A) : bool :=
  match o, r with
  | Sentinel, Fail ErrCacheFailed => true
  | OutOfFuel, NoFuel => true
  | _, _ => false
  end.

(** [m] never ends in the outcome [o]. *)
Definition never {A} (o : Outcome) (m : M A) : Prop :=
  forall s, is_outcome o (m s).1 = false.

(** [m] never returns a value and leaves the state as it was. *)
Definition stuck {A} (m : M A) : Prop :=
  forall s, (m s).2 = s /\ forall a, (m s).1 <> Ok a.

(** * Continuations of [cacheFind] *)

Section Continuations.
Context `{GoStrings} `{Collaborators}.

(** Two continuations that agree on the sessions of the backfill. *)
Definition agree_on_backfill (f g : Session -> Iface -> list Bean -> M unit)
  : Prop :=
  forall sess st name x s,
    f (backfillSession sess st name) x [] s
    = g (backfillSession sess st name) x [] s.

End Continuations.

(** * Insert from maps of strings ([session_insert.go], 588-645) *)

Section InsertMaps.
Context `{GoStrings} `{Collaborators}.

(** [statement.ExprColumns.IsColExist] (internal/statements) is not under
    src/: whether the statement gives the column an expression. *)
Variable IsColExist : Statement -> string -> bool.

(** [ErrParamsType] is a package-level error value. *)
Definition ErrParamsType : Err := ErrNew "Params type error".

(** [sort.Strings]: the strings in ascending byte-wise order. *)
Definition sortStrings (l : list string) : list string :=
  merge_sort String.le l.

(** Lines 598-605 and 626-633.  [for k := range m] yields every key of the
    map once, in an order that Go leaves unspecified: [order] is the order
    of the run.  The keys without expression are collected in that order
    and then sorted. *)
Definition mapColumns (st : Statement) (order : list string) : list string :=
  sortStrings (filter (fun k => IsColExist st k = false) order).

(** Lines 607-610 and 636-639: [m[colName]] for every column; a key that
    the map does not have reads as the empty string. *)
Definition rowArgs (columns : list string) (m : gmap string string)
  : list SqlValue :=
  (fun colName => SqlStr (default "" (m !! colName))) <$> columns.

(** [insertMapString] (lines 588-614) *)
Definition insertMapString (session : Session) (m : gmap string string)
           (order : list string) : M Z :=
  if decide (size m = 0%nat) then fail ErrParamsType
  else
    let tableName := TableName (statement session) in
    if decide (String.length tableName = 0%nat) then fail ErrTableNotFound
    else
      let columns := mapColumns (statement session) order in
      insertMap session columns (rowArgs columns m).

(** [insertMultipleMapString] (lines 616-645); [order] is the order in
    which [range] yields the keys of [maps[0]]. *)
Definition insertMultipleMapString (session : Session)
           (maps : list (gmap string string)) (order : list string) : M Z :=
  match maps with
  | [] => fail ErrNoElementsOnSlice
  | _ :: _ =>
      let tableName := TableName (statement session) in
      if decide (String.length tableName = 0%nat) then fail ErrTableNotFound
      else
        let columns := mapColumns (statement session) order in
        insertMultipleMap session columns (rowArgs columns <$> maps)
  end.

End InsertMaps.

(** * Table names with a schema ([dialects/table_name.go], 17-25) *)

Module Dialects.

(** [strings.Contains] *)
Definition Contains (s substr : string) : bool :=
  bool_decide (Strings.Index s substr <> -1).

(** [TableNameWithSchema]; [schema] is [dialect.URI().Schema]. *)
Definition TableNameWithSchema (schema tableName : string) : string :=
  if negb (bool_decide (schema = "")) && negb (Contains tableName ".")
  then schema +:+ "." +:+ tableName
  else tableName.

End Dialects.

(** * The update statement of the cache ([internal/statements/cache.go],
    47-87) *)

Section UpdateSQL.
Context `{GoStrings} `{Collaborators}.
Import Stdlib.Strings.Ascii.

(** [statement.quote] (internal/statements) is not under src/. *)
Variable quote : Statement -> string -> string.

(** [statement.dialect.URI().DBType == schemas.POSTGRES] *)
Variable is_POSTGRES : bool.

(** Lines 66-71: the placeholder prefix of the dialect, one byte or
    nothing. *)
Definition paraStr : option Ascii.ascii :=
  if is_POSTGRES then Some "$"%char
  else if is_MSSQL then Some ":"%char
  else None.

(** [strings.Split(s, sep)] for a separator [sep] of one byte. *)
Fixpoint Split (s : string) (sep : Ascii.ascii) : list string :=
  match s with
  | EmptyString => [""]
  | String c s' =>
      if decide (c = sep) then "" :: Split s' sep
      else match Split s' sep with
           | first :: more => String c first :: more
           | [] => [String c ""]
           end
  end.

(** [strings.SplitN(s, sep, 2)] for a separator of one byte: the text
    before and after the first [sep], or [s] alone. *)
Fixpoint cut (s : string) (sep : Ascii.ascii) : option (string * string) :=
  match s with
  | EmptyString => None
  | String c s' =>
      if decide (c = sep) then Some ("", s')
      else match cut s' sep with
           | Some (before, after) => Some (String c before, after)
           | None => None
           end
  end.

Definition SplitN2 (s : string) (sep : Ascii.ascii) : list string :=
  match cut s sep with
  | Some (before, after) => [before; after]
  | None => [s]
  end.

(** Lines 76-79: the loop over [dollers[1:]]; [ccs[1]] panics ([None])
    when the chunk has no blank. *)
Fixpoint renumber (para : Ascii.ascii) (i : Z) (chunks : list string)
         (whereStr : string) : option string :=
  match chunks with
  | [] => Some whereStr
  | c :: rest =>
      match SplitN2 c " " with
      | [_; tail] =>
          renumber para (i + 1) rest
                   (whereStr +:+ String para "" +:+ Itoa (i + 1) +:+ " " +:+ tail)
      | _ => None
      end
  end.

(** [Statement.ConvertUpdateSQL]; [None] is a run-time panic. *)
Definition ConvertUpdateSQL (statement : Statement) (sqlStr : string)
  : option (string * string) :=
  match RefTable statement with
  | None => Some ("", "")
  | Some table =>
      if decide (length (PrimaryKeys table) <> 1%nat) then Some ("", "")
      else
        let colstrs := joinColumns statement (PKColumns table) true in
        match SplitNNoCase sqlStr "where" 2 with
        | [only] =>
            Some (only,
                  "SELECT " +:+ colstrs +:+ " FROM "
                    +:+ quote statement (TableName statement))
        | [head; tail] =>
            whereStr ←
              match paraStr with
              | Some para =>
                  if Dialects.Contains tail (String para "") then
                    match Split tail para with
                    | first :: chunks => renumber para 0 chunks first
                    | [] => None
                    end
                  else Some tail
              | None => Some tail
              end;
            Some (head,
                  "SELECT " +:+ colstrs +:+ " FROM "
                    +:+ quote statement (TableName statement)
                    +:+ " WHERE " +:+ whereStr)
        | _ => Some ("", "")
        end
  end.

End UpdateSQL.


(** * A concrete instance

    A small database with three tables, used to run the layer on concrete
    inputs: [user(id pk, name)] with two rows, [big(id pk)] with 501 rows and
    [pair(a, b, v)] with the composite primary key [(a, b)]. *)

Module Demo.

(** ASCII lower-casing. *)
Definition lower_ascii (c : Ascii.ascii) : Ascii.ascii :=
  let n := Ascii.nat_of_ascii c in
  if decide (65 <= n <= 90)%nat then Ascii.ascii_of_nat (n + 32) else c.

Fixpoint lower (s : string) : string :=
  match s with
  | EmptyString => EmptyString
  | String c s' => String (lower_ascii c) (lower s')
  end.

#[export] Instance strings : GoStrings := {| ToLower := lower |}.

Definition userTable : Table :=
  mkTable "user" [mkColumn "id" "Id" true false; mkColumn "name" "Name" false false]
          ["id"] "".

Definition bigTable : Table :=
  mkTable "big" [mkColumn "id" "Id" true false] ["id"] "".

Definition pairTable : Table :=
  mkTable "pair"
          [mkColumn "a" "A" true false; mkColumn "b" "B" true false;
           mkColumn "v" "V" false false]
          ["a"; "b"] "".

Definition User : GoType := TStruct "User".
Definition Big : GoType := TStruct "Big".
Definition Pair : GoType := TStruct "Pair".

Definition tableOfType (t : GoType) : string + Table :=
  match t with
  | TStruct "User" => inr userTable
  | TStruct "Big" => inr bigTable
  | TStruct "Pair" => inr pairTable
  | _ => inl "unsupported type"
  end.

Definition userRows : list Row := [["1"; "a"]; ["2"; "b"]].

Definition bigRows : list Row :=
  (fun n : nat => [pretty (S n)]) <$> seq 0 501.

Definition pairRows : list Row := [["1"; "1"; "x"]].

Definition cursor (cols : list string) (data : list Row) : Rows :=
  mkRows (inr cols) (inr (const "TEXT" <$> cols)) data None.

Definition keyIn (args : list SqlValue) (row : Row) : bool :=
  match row with
  | c :: _ => bool_decide (SqlStr c ∈ args)
  | [] => false
  end.

(** The database answers from the text and the arguments of the query. *)
Definition query (sql : string) (args : list SqlValue) : string + Rows :=
  if decide (sql = "SELECT * FROM `user`") then
    inr (cursor ["id"; "name"] userRows)
  else if decide (sql = "SELECT `id` FROM `user`") then
    inr (cursor ["id"] ((take 1) <$> userRows))
  else if decide (sql = "SELECT * FROM `user` WHERE `id` IN (?)") then
    inr (cursor ["id"; "name"] (filter (fun r => keyIn args r = true) userRows))
  else if decide (sql = "SELECT * FROM `big`") then
    inr (cursor ["id"] bigRows)
  else if decide (sql = "SELECT `id` FROM `big`") then
    inr (cursor ["id"] bigRows)
  else if decide (sql = "SELECT * FROM `pair`") then
    inr (cursor ["a"; "b"; "v"] pairRows)
  else if decide (sql = "SELECT `a`, `b` FROM `pair`") then
    inr (cursor ["a"; "b"] ((take 2) <$> pairRows))
  else if decide (sql = "SELECT * FROM `pair` WHERE OR") then
    inr (cursor ["a"; "b"; "v"] pairRows)
  else inl "no such table".

Definition tableName (st : Statement) : string :=
  match RefTable st with
  | Some t => TableName_of t
  | None =>
      match builder_state st with
      | ("TABLE", [SqlStr name]) :: _ => name
      | _ => ""
      end
  end.

Definition with_builder (b : list (string * list SqlValue)) (st : Statement)
  : Statement :=
  mkStatement (RefTable st) (LastError st) (NoAutoCondition st) (unscoped st)
              (ColumnMap st) (IsDistinct st) (UseCache st) (LimitN st) b.

Definition with_RefTable (t : option Table) (st : Statement) : Statement :=
  mkStatement t (LastError st) (NoAutoCondition st) (unscoped st)
              (ColumnMap st) (IsDistinct st) (UseCache st) (LimitN st)
              (builder_state st).

Definition whereClause (st : Statement) : string * list SqlValue :=
  match filter (fun x => x.1 <> "TABLE") (builder_state st) with
  | [] => ("", [])
  | (cond, args) :: _ => (" WHERE " +:+ cond, args)
  end.

Definition genFindSQL (st : Statement) (autoCond : option Cond)
  : string + (string * list SqlValue) :=
  if decide (tableName st = "") then inl "table not found"
  else
    let w := whereClause st in
    inr ("SELECT "
           +:+ (if IsDistinct st then "DISTINCT " else "")
           +:+ "* FROM `" +:+ tableName st +:+ "`" +:+ w.1, w.2).

Definition setRefValue (st : Statement) (t : GoType) : string + Statement :=
  match tableOfType t with
  | inr table => inr (with_RefTable (Some table) st)
  | inl e => inl e
  end.

Definition newStatement : Statement :=
  mkStatement None None false false [] false true None [].

(** Everything after the first occurrence of [sep], matched on the
    lower-cased text. *)
Definition splitN2 (s sep : string) : list string :=
  let i := Strings.Index (lower s) (lower sep) in
  if decide (i = -1) then [s]
  else
    let n := Z.to_nat i in
    [String.substring 0 n s;
     String.substring (n + String.length sep) (String.length s - n - String.length sep) s].

Definition joinNames (cols : list (option Column)) : string :=
  match cols with
  | [] => ""
  | c :: rest =>
      fold_left (fun acc c => acc +:+ ", `" +:+ from_option Name "" c +:+ "`")
                rest ("`" +:+ from_option Name "" c +:+ "`")
  end.

Definition keyString (pk : PK) : string + string :=
  inr (fold_right
         (fun v acc => match v with
                       | SqlStr s => s +:+ "," +:+ acc
                       | SqlInt z => pretty z +:+ "," +:+ acc
                       end) "" pk).

Definition lookupField (fields : list (string * SqlValue)) (name : string)
  : option SqlValue :=
  snd <$> list_find (fun x => x.1 = name) fields ≫= fun r => Some r.2.

Definition idOfV (table : Table) (bean : Bean) : string + PK :=
  match mapM (lookupField (bean_fields bean)) (PrimaryKeys table) with
  | Some pk => inr pk
  | None => inl "missing primary key field"
  end.

Definition rowToBean (tb : Table) (cs : ColumnsSchema) (row : Row)
  : string + (list (string * SqlValue) * PK) :=
  if decide (length row = length (Fields cs)) then
    let fields := zip (FieldName <$> Fields cs) (SqlStr <$> row) in
    match mapM (lookupField fields) (PrimaryKeys tb) with
    | Some pk => inr (fields, pk)
    | None => inl "missing primary key column"
    end
  else inl "sql: expected destination arguments in Scan".

#[export] Instance collaborators : Collaborators := {|
  db_query := query;
  db_exec := fun _ _ => inr 1;
  GenFindSQL := genFindSQL;
  GenInsertMapSQL := fun st cols args =>
    inr ("INSERT INTO `" +:+ tableName st +:+ "` VALUES (?)", args);
  GenInsertMultipleMapSQL := fun st cols argss =>
    inr ("INSERT INTO `" +:+ tableName st +:+ "` VALUES (?)", concat argss);
  GenInsertMultipleSQL := fun st beans =>
    inr ("INSERT INTO `" +:+ tableName st +:+ "` VALUES (?)",
         beans ≫= fun b => snd <$> bean_fields b);
  SetRefValue := setRefValue;
  SetRefBean := fun st b => setRefValue st (bean_type b);
  BuildConds := fun _ _ _ _ => inr CondEmpty;
  CondDeleted := fun _ _ => CondEmpty;
  NeedTableName := fun _ => false;
  TableName := tableName;
  NewStatement := newStatement;
  joinColumns := fun _ cols _ => joinNames cols;
  ColumnMap_Add := fun cm k => if bool_decide (k ∈ cm) then cm else cm ++ [k];
  stmt_In := fun st col vals =>
    with_builder (builder_state st ++ [(col +:+ " IN (?)", vals)]) st;
  stmt_Or := fun st _ => with_builder (builder_state st ++ [("OR", [])]) st;
  stmt_Table := fun st name =>
    with_builder (("TABLE", [SqlStr name]) :: builder_state st) st;
  Parse := fun b => tableOfType (bean_type b);
  ParseWithCache := tableOfType;
  canCache := fun session =>
    bool_decide (RefTable (statement session) <> None)
    && UseCache (statement session);
  GetCacher := fun name => bool_decide (name = "user" \/ name = "big" \/ name = "pair");
  Filters := [];
  is_MSSQL := false;
  quoter_Replace := fun s => s;
  FullTableName := fun b =>
    match tableOfType (bean_type b) with
    | inr t => TableName_of t
    | inl _ => ""
    end;
  ConvertID := fun _ s => inr (SqlStr s);
  ScanSlice := fun row n =>
    if decide (length row = n) then inr row else inl "sql: expected destination arguments in Scan";
  PK_ToString := keyString;
  IDOfV := idOfV;
  AssignValue := fun _ v => inr v;
  slice2Bean := rowToBean;
  scanValue := fun _ _ row => inr row;
  Itoa := pretty;
  SplitNNoCase := fun s sep _ => splitN2 s sep
|}.

Definition emptyStore : CacheStore := mkCacheStore ∅ ∅.

Definition initial (c : CacheStore) (d : Container) : State := mkState c [] d.

(** A session whose statement is fresh (the cache is in use). *)
Definition session : Session := mkSession newStatement true.

(** [session.Table(name)] *)
Definition onTable (name : string) (s : Session) : Session :=
  with_statement s (stmt_Table (statement s) name).

Definition usersPtr : Iface := IValue (TPtr (TSlice User)).
Definition bigsPtr : Iface := IValue (TPtr (TSlice Big)).
Definition pairMapPtr : Iface := IValue (TPtr (TMap TInt Pair)).

Definition s0 : State := initial emptyStore (CSlice []).

(** What lines 83-149 of [find] produce for a session and a destination. *)
Definition prepared (sess : Session) (x : Iface) : Prepared :=
  match (prepare sess x [] s0).1 with
  | Ok p => p
  | _ => mkPrepared sess None (TBool, false) TBool "" []
  end.

(** A statement that asks for a distinct projection. *)
Definition distinctSession : Session :=
  mkSession (mkStatement None None false false [] true true None []) true.

Definition user1 : Bean := mkBean User [("id", SqlStr "1"); ("name", SqlStr "a")].
Definition user2 : Bean := mkBean User [("id", SqlStr "2"); ("name", SqlStr "b")].

(** A bean of another struct type cached under the key of user 1. *)
Definition otherTypeStore : CacheStore :=
  mkCacheStore ∅ {["user" := {["1," := mkBean (TStruct "Other") [("id", SqlStr "1")]]}]}.

(** The bean of user 2 cached under the key of user 1. *)
Definition corruptStore : CacheStore :=
  mkCacheStore ∅ {["user" := {["1," := user2]}]}.

(** An id list cached before row 3 was deleted behind the back of the
    cache. *)
Definition staleIdsStore : CacheStore :=
  mkCacheStore
    {["user" := {[("SELECT `id` FROM `user`", []) :=
                    [[SqlStr "1"]; [SqlStr "2"]; [SqlStr "3"]]]}]}
    ∅.

(** The intermediate states of a cache-assisted [find] of all users. *)
Definition userIDs (c : CacheStore) : Res (list PK) * State :=
  resolveIDs userTable "user" "SELECT * FROM `user`" "SELECT `id` FROM `user`" []
             (initial c (CSlice [])).

Definition userProbe (c : CacheStore) : Res Probe * State :=
  match userIDs c with
  | (Ok ids, sa) =>
      probeBeans userTable "user" User 0 ids
                 (mkProbe ∅ [] (replicate (length ids) None)) sa
  | (_, sa) => (NoFuel, sa)
  end.

Definition userBackfill (c : CacheStore) : Res (list (option Bean)) * State :=
  match userProbe c with
  | (Ok pr, sb) =>
      backfill (find 1) (p_session (prepared session usersPtr)) userTable
               "user" User pr sb
  | (_, sb) => (NoFuel, sb)
  end.

Definition okOr {A} (d : A) (r : Res A) : A :=
  match r with
  | Ok a => a
  | _ => d
  end.

(** The id list of the users cached in the order 2, 1. *)
Definition reversedIdsStore : CacheStore :=
  mkCacheStore
    {["user" := {[("SELECT `id` FROM `user`", []) :=
                    [[SqlStr "2"]; [SqlStr "1"]]]}]}
    ∅.

(** The same id list, with the bean of user 2 in the bean cache. *)
Definition mixedStore : CacheStore :=
  mkCacheStore (cache_ids reversedIdsStore) {["user" := {["2," := user2]}]}.

(** The rows that the backfill of the probed users returns. *)
Definition userFetched (c : CacheStore) : Res (list Value) * State :=
  match userProbe c with
  | (Ok pr, sb) =>
      backfillRows (find 1) (p_session (prepared session usersPtr)) userTable
                   "user" User pr sb
  | (_, sb) => (NoFuel, sb)
  end.

End Demo.
(** * More concrete inputs *)

Module MoreDemo.
Import Demo.

(** The table [user] described without a primary key. *)
Definition unkeyedTable : Table :=
  mkTable "user" [mkColumn "id" "Id" false false; mkColumn "name" "Name" false false]
          [] "".

(** The table [user] keyed by [name]; the demo database does not answer the
    id query on that column. *)
Definition byNameTable : Table :=
  mkTable "user" [mkColumn "id" "Id" false false; mkColumn "name" "Name" true false]
          ["name"] "".

(** A session whose statement already refers to [table]. *)
Definition sessionOn (table : Table) : Session :=
  mkSession (with_RefTable (Some table) newStatement) true.

(** The bean of user 1 is cached, that of user 2 is not. *)
Definition halfWarmStore : CacheStore :=
  mkCacheStore ∅ {["user" := {["1," := user1]}]}.

(** The demo environment with another answer to [exec] and another row
    scanner. *)
Definition variant (exec : string -> list SqlValue -> string + Z)
           (scan : GoType -> list string -> Row -> string + list string)
  : Collaborators := {|
  db_query := @db_query collaborators;
  db_exec := exec;
  GenFindSQL := @GenFindSQL collaborators;
  GenInsertMapSQL := @GenInsertMapSQL collaborators;
  GenInsertMultipleMapSQL := @GenInsertMultipleMapSQL collaborators;
  GenInsertMultipleSQL := @GenInsertMultipleSQL collaborators;
  SetRefValue := @SetRefValue collaborators;
  SetRefBean := @SetRefBean collaborators;
  BuildConds := @BuildConds collaborators;
  CondDeleted := @CondDeleted collaborators;
  NeedTableName := @NeedTableName collaborators;
  TableName := @TableName collaborators;
  NewStatement := @NewStatement collaborators;
  joinColumns := @joinColumns collaborators;
  ColumnMap_Add := @ColumnMap_Add collaborators;
  stmt_In := @stmt_In collaborators;
  stmt_Or := @stmt_Or collaborators;
  stmt_Table := @stmt_Table collaborators;
  Parse := @Parse collaborators;
  ParseWithCache := @ParseWithCache collaborators;
  canCache := @canCache collaborators;
  GetCacher := @GetCacher collaborators;
  Filters := @Filters collaborators;
  is_MSSQL := @is_MSSQL collaborators;
  quoter_Replace := @quoter_Replace collaborators;
  FullTableName := @FullTableName collaborators;
  ConvertID := @ConvertID collaborators;
  ScanSlice := @ScanSlice collaborators;
  PK_ToString := @PK_ToString collaborators;
  IDOfV := @IDOfV collaborators;
  AssignValue := @AssignValue collaborators;
  slice2Bean := @slice2Bean collaborators;
  scanValue := scan;
  Itoa := @Itoa collaborators;
  SplitNNoCase := @SplitNNoCase collaborators
|}.

(** A database that rejects every write. *)
Definition rejectingWrites : Collaborators :=
  variant (fun _ _ => inl "constraint failed") (@scanValue collaborators).

(** A row scanner that fails on rows that do not have exactly one cell. *)
Definition oneCell : Collaborators :=
  variant (@db_exec collaborators)
          (fun _ _ row => match row with
                          | [_] => inr row
                          | _ => inl "sql: expected 1 destination arguments in Scan"
                          end).

(** No column has an expression. *)
Definition noExprs (st : Statement) (k : string) : bool := false.

(** [map[string]string{"name": "c", "id": "3"}] and a later row that has a
    key of its own and lacks [name]. *)
Definition newUser : gmap string string := {["name" := "c"; "id" := "3"]}.
Definition oddUser : gmap string string := {["id" := "4"; "age" := "7"]}.

(** [statement.quote] with back quotes. *)
Definition backquote (st : Statement) (name : string) : string :=
  "`" +:+ name +:+ "`".

End MoreDemo.

(** * Proofs *)

(** ** Go's [int] *)

Lemma GoInt_wrap_small z :
  GoInt.min_int <= z <= GoInt.max_int -> GoInt.wrap z = z.
Proof.
  unfold GoInt.wrap, GoInt.min_int, GoInt.max_int. intros Hz.
  rewrite Z.mod_small; lia.
Qed.

Lemma GoInt_incr_small z : 0 <= z < GoInt.max_int -> GoInt.incr z = z + 1.
Proof.
  intros Hz. unfold GoInt.incr. apply GoInt_wrap_small.
  unfold GoInt.min_int, GoInt.max_int in *. lia.
Qed.

(** ** The column schema resolver *)

Section ColumnSchemaProofs.
Context `{GoStrings}.

Lemma occurrences_app k l1 l2 :
  occurrences k (l1 ++ l2) = (occurrences k l1 + occurrences k l2)%nat.
Proof. unfold occurrences. by rewrite filter_app, length_app. Qed.

Lemma occurrences_le k l : (occurrences k l <= length l)%nat.
Proof. unfold occurrences. apply length_filter. Qed.

Lemma occurrences_lower (name : string) (l : list string) :
  occurrences (ToLower name) (ToLower <$> l)
  = length (filter (fun n => ToLower n = ToLower name) l).
Proof.
  unfold occurrences. induction l as [|x l IH]; [done|].
  rewrite fmap_cons, !filter_cons.
  destruct (decide (ToLower x = ToLower name)); simpl; by rewrite IH.
Qed.

Lemma filter_none {A} (P : A -> Prop) `{forall x, Decision (P x)} (l : list A) :
  (forall x, x ∈ l -> ~ P x) -> filter P l = [].
Proof.
  induction l as [|x l IH]; intros Hall; [done|].
  rewrite filter_cons_False by (apply Hall; left).
  apply IH. intros y Hy. apply Hall. by right.
Qed.

Lemma counts_ok_empty : counts_ok ∅ [].
Proof. intros k. by rewrite lookup_empty. Qed.

Lemma counts_ok_step tempMap seen k :
  counts_ok tempMap seen ->
  counts_ok (<[k := Z.of_nat (occurrences k seen)]> tempMap) (seen ++ [k]).
Proof.
  intros Hok k'. rewrite occurrences_app.
  assert (Hone : occurrences k' [k] = if decide (k = k') then 1%nat else 0%nat).
  { unfold occurrences. rewrite filter_cons. by destruct (decide (k = k')). }
  rewrite Hone.
  destruct (decide (k = k')) as [<-|Hne].
  - rewrite lookup_insert_eq. by rewrite Nat.add_1_r.
  - rewrite lookup_insert_ne by done.
    rewrite Nat.add_0_r. apply Hok.
Qed.

(** The index computed by one iteration of the second loop. *)
Lemma tempIndex_step tempMap seen k :
  counts_ok tempMap seen ->
  Z.of_nat (length seen) < 2 ^ 63 ->
  match tempMap !! k with
  | None => 0
  | Some idx => GoInt.incr idx
  end = Z.of_nat (occurrences k seen).
Proof.
  intros Hok Hlen. rewrite (Hok k).
  pose proof (occurrences_le k seen) as Hle.
  destruct (occurrences k seen) as [|c]; [done|].
  rewrite GoInt_incr_small; [lia|].
  unfold GoInt.max_int. lia.
Qed.

Lemma assignTempIndex_length tempMap fields :
  length (assignTempIndex tempMap fields) = length fields.
Proof.
  revert tempMap. induction fields as [|f fields IH]; intros tempMap; [done|].
  simpl. by rewrite IH.
Qed.

Lemma assignTempIndex_lookup fields :
  forall tempMap seen,
    counts_ok tempMap seen ->
    Z.of_nat (length seen + length fields) < 2 ^ 63 ->
    forall j f,
      fields !! j = Some f ->
      assignTempIndex tempMap fields !! j
      = Some (set_TempIndex
                (Z.of_nat (occurrences (LowerFieldName f)
                             (seen ++ (LowerFieldName <$> take j fields))))
                f).
Proof.
  induction fields as [|f0 fields IH]; intros tempMap seen Hok Hlen j f Hj.
  { by rewrite lookup_nil in Hj. }
  simpl in Hlen. simpl assignTempIndex.
  rewrite (tempIndex_step tempMap seen (LowerFieldName f0) Hok) by lia.
  destruct j as [|j]; simpl in Hj.
  - inversion Hj; subst f. simpl. by rewrite app_nil_r.
  - simpl. rewrite (IH _ (seen ++ [LowerFieldName f0])
                         (counts_ok_step _ _ _ Hok) ltac:(rewrite length_app; simpl; lia)
                         j f Hj).
    by rewrite <- app_assoc.
Qed.

Lemma makeFields_length fieldNames :
  forall i types fields,
    makeFields i fieldNames types = Some fields ->
    length fields = length fieldNames.
Proof.
  induction fieldNames as [|name rest IH]; intros i types fields Hm; simpl in Hm.
  - by inversion Hm.
  - destruct (types !! i) as [ty|]; [|done]. simpl in Hm.
    destruct (makeFields (S i) rest types) as [fs|] eqn:Hrest; [|done].
    simpl in Hm. inversion Hm; subst. simpl. f_equal. by eapply IH.
Qed.

Lemma makeFields_lookup fieldNames :
  forall i types fields,
    makeFields i fieldNames types = Some fields ->
    forall j name,
      fieldNames !! j = Some name ->
      exists ty,
        types !! (i + j)%nat = Some ty
        /\ fields !! j = Some (mkQueryedField name (ToLower name) ty 0 None).
Proof.
  induction fieldNames as [|name0 rest IH]; intros i types fields Hm j name Hj.
  { by rewrite lookup_nil in Hj. }
  simpl in Hm.
  destruct (types !! i) as [ty|] eqn:Hty; [|done]. simpl in Hm.
  destruct (makeFields (S i) rest types) as [fs|] eqn:Hrest; [|done].
  simpl in Hm. inversion Hm; subst fields.
  destruct j as [|j]; simpl in Hj.
  - inversion Hj; subst. exists ty. by rewrite Nat.add_0_r.
  - destruct (IH _ _ _ Hrest j name Hj) as (ty' & Hty' & Hf).
    exists ty'. split; [|done].
    by replace (i + S j)%nat with (S i + j)%nat by lia.
Qed.

Lemma makeFields_lower fieldNames :
  forall i types fields,
    makeFields i fieldNames types = Some fields ->
    LowerFieldName <$> fields = ToLower <$> fieldNames.
Proof.
  induction fieldNames as [|name rest IH]; intros i types fields Hm; simpl in Hm.
  - by inversion Hm.
  - destruct (types !! i) as [ty|]; [|done]. simpl in Hm.
    destruct (makeFields (S i) rest types) as [fs|] eqn:Hrest; [|done].
    simpl in Hm. inversion Hm; subst. simpl. f_equal. by eapply IH.
Qed.

Lemma makeFields_total fieldNames :
  forall i types,
    (i + length fieldNames <= length types)%nat ->
    is_Some (makeFields i fieldNames types).
Proof.
  induction fieldNames as [|name rest IH]; intros i types Hlen; simpl.
  - by eexists.
  - simpl in Hlen.
    destruct (lookup_lt_is_Some_2 types i) as [ty ->]; [lia|]. simpl.
    destruct (IH (S i) types) as [fs ->]; [lia|]. simpl. by eexists.
Qed.

Lemma GetColumnIdx_past table name idx :
  Z.of_nat (length (columnsByName table name)) <= idx ->
  GetColumnIdx table name idx = None.
Proof.
  intros Hidx. unfold GetColumnIdx. rewrite decide_False; [done | lia].
Qed.

Lemma GetColumnIdx_within table name (i : nat) :
  (i < length (columnsByName table name))%nat ->
  GetColumnIdx table name (Z.of_nat i) = columnsByName table name !! i
  /\ is_Some (columnsByName table name !! i).
Proof.
  intros Hi. unfold GetColumnIdx. rewrite decide_True by lia.
  rewrite Nat2Z.id. split; [done|]. by apply lookup_lt_is_Some_2.
Qed.

Lemma columnsByName_match table name c :
  c ∈ columnsByName table name ->
  c ∈ columns table /\ ToLower (Name c) = ToLower name.
Proof.
  unfold columnsByName. rewrite list_elem_of_filter. tauto.
Qed.

(** C5. [ParseColumnsSchema] produces one [QueryedField] per result column
    (whenever every column has a driver type); the field of column [i]
    carries the column's name, its lower-cased name, and a [TempIndex] equal
    to the number of earlier columns with the same lower-cased name (so 0
    for a first occurrence); it is bound to [GetColumnIdx] of that name and
    index, which is the struct column of that rank among the columns whose
    name matches case-insensitively, and it is unbound when the index is not
    below the number of such columns or when there is no table. *)
Theorem ParseColumnsSchema_spec
        (fieldNames : list string) (types : list SqlColumnType)
        (table : option Table) :
  (length fieldNames <= length types)%nat ->
  Z.of_nat (length fieldNames) < 2 ^ 63 ->
  exists cs,
    ParseColumnsSchema fieldNames types table = Some cs
    /\ length (Fields cs) = length fieldNames
    /\ forall i name,
        fieldNames !! i = Some name ->
        exists f,
          Fields cs !! i = Some f
          /\ FieldName f = name
          /\ LowerFieldName f = ToLower name
          /\ Some (ColumnType f) = types !! i
          /\ TempIndex f = Z.of_nat (earlier_same_name fieldNames i name)
          /\ (earlier_same_name fieldNames i name = 0%nat <->
              forall j n, (j < i)%nat -> fieldNames !! j = Some n ->
                          ToLower n <> ToLower name)
          /\ match table with
             | None => ColumnSchema f = None
             | Some t =>
                 let k := earlier_same_name fieldNames i name in
                 ColumnSchema f = GetColumnIdx t name (TempIndex f)
                 /\ ((k < length (columnsByName t name))%nat ->
                     ColumnSchema f = columnsByName t name !! k
                     /\ exists c, ColumnSchema f = Some c
                                  /\ c ∈ columns t
                                  /\ ToLower (Name c) = ToLower name)
                 /\ ((length (columnsByName t name) <= k)%nat ->
                     ColumnSchema f = None)
             end.
Proof.
  intros Htypes Hlen.
  destruct (makeFields_total fieldNames 0 types) as [fields Hfields]; [lia|].
  pose proof (makeFields_length _ _ _ _ Hfields) as Hflen.
  pose proof (makeFields_lower _ _ _ _ Hfields) as Hlower.
  unfold ParseColumnsSchema. rewrite Hfields. simpl.
  eexists. split; [reflexivity|].
  split.
  { destruct table; simpl; rewrite ?length_map, assignTempIndex_length; done. }
  intros i name Hi.
  destruct (makeFields_lookup _ _ _ _ Hfields i name Hi) as (ty & Hty & Hf).
  simpl in Hty.
  pose proof (assignTempIndex_lookup fields ∅ [] counts_ok_empty) as Hassign.
  specialize (Hassign ltac:(simpl; lia) i _ Hf). simpl in Hassign.
  assert (Hidx : occurrences (ToLower name) (LowerFieldName <$> take i fields)
                 = earlier_same_name fieldNames i name).
  { rewrite fmap_take, Hlower, <- fmap_take. apply occurrences_lower. }
  rewrite Hidx in Hassign.
  assert (Hfirst : earlier_same_name fieldNames i name = 0%nat <->
                   forall j n, (j < i)%nat -> fieldNames !! j = Some n ->
                               ToLower n <> ToLower name).
  { unfold earlier_same_name. rewrite length_zero_iff_nil. split.
    - intros Hnil j n Hj Hn Heq.
      assert (Hin : n ∈ filter (fun n => ToLower n = ToLower name)
                                (take i fieldNames)).
      { apply list_elem_of_filter. split; [done|].
        apply list_elem_of_lookup. exists j. by rewrite lookup_take_lt. }
      rewrite Hnil in Hin. by apply not_elem_of_nil in Hin.
    - intros Hall. apply filter_none.
      intros n Hn Heq. apply list_elem_of_lookup in Hn as [j Hj].
      pose proof (lookup_lt_Some _ _ _ Hj) as Hjlt.
      rewrite length_take in Hjlt.
      rewrite lookup_take_lt in Hj by lia.
      eapply Hall; [|exact Hj|exact Heq]. lia. }
  destruct table as [t|]; simpl.
  - rewrite list_lookup_fmap, Hassign. simpl.
    eexists. split; [reflexivity|]. simpl.
    split_and!; try done.
    + intros Hk.
      destruct (GetColumnIdx_within t name _ Hk) as [Heq [c Hc]].
      split; [done|]. exists c. rewrite Heq. split; [done|].
      apply columnsByName_match, list_elem_of_lookup. eauto.
    + intros Hk. apply GetColumnIdx_past. lia.
  - rewrite Hassign. eexists. split; [reflexivity|]. simpl.
    split_and!; done.
Qed.

End ColumnSchemaProofs.

(** ** Strings *)

Lemma HasPrefix_spec s p :
  Strings.HasPrefix s p = true <-> exists post, s = p +:+ post.
Proof.
  revert s. induction p as [|a p IH]; intros s; simpl.
  - split; [intros _; by exists s | done].
  - destruct s as [|b s]; simpl.
    + split; [done | intros [post Hpost]; discriminate].
    + destruct (decide (a = b)) as [->|Hne].
      * rewrite IH. split; intros [post Hpost]; exists post.
        -- by rewrite Hpost.
        -- simpl in Hpost. by inversion Hpost.
      * split; [done | intros [post Hpost]].
        simpl in Hpost. inversion Hpost; congruence.
Qed.

Lemma Index_unfold s sep :
  Strings.Index s sep
  = if Strings.HasPrefix s sep then 0
    else match s with
         | EmptyString => -1
         | String _ s' =>
             let i := Strings.Index s' sep in
             if decide (i = -1) then -1 else i + 1
         end.
Proof. by destruct s. Qed.

Lemma Index_nonneg s sep : -1 <= Strings.Index s sep.
Proof.
  induction s as [|a s IH]; rewrite Index_unfold.
  - destruct (Strings.HasPrefix _ _); lia.
  - destruct (Strings.HasPrefix _ _); [lia|]. simpl.
    destruct (decide _); lia.
Qed.

(** [strings.Index] finds [sep] exactly when [sep] occurs in [s]. *)
Lemma Index_found s sep :
  Strings.Index s sep <> -1 <-> exists pre post, s = pre +:+ sep +:+ post.
Proof.
  induction s as [|a s IH]; rewrite Index_unfold.
  - destruct (Strings.HasPrefix "" sep) eqn:Hp.
    + apply HasPrefix_spec in Hp as [post Hpost].
      split; [intros _; by exists "", post | done].
    + split; [done|]. intros (pre & post & Heq).
      destruct pre; [|discriminate]. simpl in Heq.
      assert (Strings.HasPrefix "" sep = true) by (apply HasPrefix_spec; eauto).
      congruence.
  - destruct (Strings.HasPrefix (String a s) sep) eqn:Hp.
    + apply HasPrefix_spec in Hp as [post Hpost].
      split; [intros _; by exists "", post | done].
    + simpl. pose proof (Index_nonneg s sep) as Hge.
      destruct (decide (Strings.Index s sep = -1)) as [Hi|Hi].
      * split; [done|]. intros (pre & post & Heq).
        destruct pre as [|b pre]; simpl in Heq.
        -- assert (Strings.HasPrefix (String a s) sep = true)
             by (apply HasPrefix_spec; eauto).
           congruence.
        -- inversion Heq; subst. exfalso. apply IH in Hi; [done|]. eauto.
      * split; [|lia]. intros _.
        apply IH in Hi as (pre & post & ->). by exists (String a pre), post.
Qed.

(** ** The monad *)

Section MonadFacts.
Context {A B : Type}.

Lemma bind_Ok (m : M A) (f : A -> M B) s a s' :
  m s = (Ok a, s') -> bind m f s = f a s'.
Proof. unfold bind. by intros ->. Qed.

Lemma bind_Fail (m : M A) (f : A -> M B) s e s' :
  m s = (Fail e, s') -> bind m f s = (Fail e, s').
Proof. unfold bind. by intros ->. Qed.

Lemma bind_Panic (m : M A) (f : A -> M B) s msg s' :
  m s = (Panic msg, s') -> bind m f s = (Panic msg, s').
Proof. unfold bind. by intros ->. Qed.

Lemma bind_Ok_inv (m : M A) (f : A -> M B) s b s2 :
  bind m f s = (Ok b, s2) ->
  exists a s1, m s = (Ok a, s1) /\ f a s1 = (Ok b, s2).
Proof.
  unfold bind. destruct (m s) as [[a| | |] s1]; intros Heq;
    try discriminate. eauto.
Qed.

End MonadFacts.

Lemma bind_ret_l {A B} (a : A) (f : A -> M B) : bind (ret a) f = f a.
Proof. reflexivity. Qed.

Lemma bind_fail_l {A B} (e : Err) (f : A -> M B) : bind (fail e) f = fail e.
Proof. reflexivity. Qed.

Lemma bind_panic_l {A B} msg (f : A -> M B) : bind (panic msg) f = panic msg.
Proof. reflexivity. Qed.

Lemma bind_assoc {A B C} (m : M A) (f : A -> M B) (g : B -> M C) s :
  bind (bind m f) g s = bind m (fun a => bind (f a) g) s.
Proof. unfold bind. by destruct (m s) as [[a| | |] s1]. Qed.

Lemma bind_ext {A B} (m : M A) (f g : A -> M B) s :
  (forall a s', f a s' = g a s') -> bind m f s = bind m g s.
Proof. intros Hfg. unfold bind. by destruct (m s) as [[a| | |] s1]. Qed.

Lemma lift_inr {A} (a : A) : lift (inr a) = ret a.
Proof. reflexivity. Qed.

Lemma lift_inl {A} msg : @lift A (inl msg) = fail (ErrExt msg).
Proof. reflexivity. Qed.

Lemma or_panic_Some {A} msg (a : A) : or_panic msg (Some a) = ret a.
Proof. reflexivity. Qed.

Lemma or_panic_None {A} msg : @or_panic A msg None = panic msg.
Proof. reflexivity. Qed.

Lemma bind_tell {B} e (f : unit -> M B) s : bind (tell e) f s = f tt (emit e s).
Proof. reflexivity. Qed.

Lemma bind_logf {B} lvl msg (f : unit -> M B) s :
  bind (logf lvl msg) f s = f tt (emit (EvLog lvl msg) s).
Proof. reflexivity. Qed.

Lemma pure_ret {A} (a : A) : pure (ret a).
Proof. by exists (Ok a). Qed.

Lemma pure_fail {A} (e : Err) : pure (@fail A e).
Proof. by exists (Fail e). Qed.

Lemma pure_panic {A} (msg : string) : pure (@panic A msg).
Proof. by exists (Panic msg). Qed.

Lemma pure_lift {A} (r : string + A) : pure (lift r).
Proof. destruct r; [apply pure_fail | apply pure_ret]. Qed.

Lemma pure_or_panic {A} msg (o : option A) : pure (or_panic msg o).
Proof. destruct o; [apply pure_ret | apply pure_panic]. Qed.

Lemma pure_bind {A B} (m : M A) (f : A -> M B) :
  pure m -> (forall a, pure (f a)) -> pure (bind m f).
Proof.
  intros [r Hr] Hf. destruct r as [a| e | msg |].
  - destruct (Hf a) as [r' Hr']. exists r'. intros s.
    unfold bind. by rewrite Hr, Hr'.
  - exists (Fail e). intros s. unfold bind. by rewrite Hr.
  - exists (Panic msg). intros s. unfold bind. by rewrite Hr.
  - exists NoFuel. intros s. unfold bind. by rewrite Hr.
Qed.

Lemma pure_run {A} (m : M A) s r s' :
  pure m -> m s = (r, s') -> s' = s /\ forall s0, m s0 = (r, s0).
Proof.
  intros [r0 Hr0] Hm. rewrite Hr0 in Hm. inversion Hm; subst. eauto.
Qed.

Create HintDb pure_db.
#[global] Hint Resolve pure_ret pure_fail pure_panic pure_lift pure_or_panic
  : pure_db.

Ltac pure_tac :=
  repeat first
    [ apply pure_ret | apply pure_fail | apply pure_panic | apply pure_lift
    | apply pure_or_panic
    | apply pure_bind; [| intros ?]
    | match goal with
      | |- pure (if ?c then _ else _) => destruct c
      | |- pure (match ?x with _ => _ end) => destruct x
      | |- pure (let _ := _ in _) => cbv zeta
      end ].

Section PrepareFacts.
Context `{GoStrings} `{Collaborators}.

Lemma pure_refFromElement session t : pure (refFromElement session t).
Proof. unfold refFromElement. pure_tac. Qed.

Lemma pure_autoCondition session tp cb : pure (autoCondition session tp cb).
Proof. unfold autoCondition. pure_tac. Qed.

Lemma pure_addPrimaryKeys session isMap : pure (addPrimaryKeys session isMap).
Proof. unfold addPrimaryKeys. pure_tac. Qed.

(** Lines 83-149 send nothing to the database, do not touch the cache and
    do not log. *)
Lemma pure_prepare session x cb : pure (prepare session x cb).
Proof.
  unfold prepare.
  destruct (LastError _); [apply pure_fail|].
  destruct (Indirect_ValueOf x) as [sv|]; [|apply pure_fail].
  destruct (negb _ && negb _); [apply pure_fail|].
  apply pure_bind; [apply pure_or_panic|intros t].
  apply pure_bind; [apply pure_refFromElement|intros r].
  apply pure_bind; [apply pure_autoCondition|intros c].
  apply pure_bind; [apply pure_addPrimaryKeys|intros s'].
  apply pure_bind; [apply pure_lift|intros q]. apply pure_ret.
Qed.

Lemma pure_convertPK cols res : pure (convertPK cols res).
Proof.
  revert res. induction cols as [|c cols IH]; intros res; simpl.
  - apply pure_ret.
  - destruct res as [|r res]; [apply pure_panic|].
    apply pure_bind; [apply pure_or_panic|intros c'].
    apply pure_bind; [apply pure_lift|intros v].
    apply pure_bind; [apply IH|intros pk]. apply pure_ret.
Qed.

Lemma pure_scanPK table row : pure (scanPK table row).
Proof.
  unfold scanPK. apply pure_bind; [apply pure_lift|intros res].
  apply pure_convertPK.
Qed.

End PrepareFacts.

(** ** Computations that stay away from the cache *)

Lemma cache_free_pure {A} (m : M A) : pure m -> cache_free m.
Proof.
  intros [r Hr] s. rewrite Hr. simpl. split; [done|].
  exists []. by rewrite app_nil_r.
Qed.

Lemma cache_free_tell e : is_cache_event e = false -> cache_free (tell e).
Proof.
  intros He s. simpl. split; [done|]. exists [e]. split; [done|].
  by constructor.
Qed.

Lemma cache_free_get_dest : cache_free get_dest.
Proof. intros s. simpl. split; [done|]. exists []. by rewrite app_nil_r. Qed.

Lemma cache_free_put_dest c : cache_free (put_dest c).
Proof. intros s. simpl. split; [done|]. exists []. by rewrite app_nil_r. Qed.

Lemma cache_free_bind {A B} (m : M A) (f : A -> M B) :
  cache_free m -> (forall a, cache_free (f a)) -> cache_free (bind m f).
Proof.
  intros Hm Hf s. destruct (Hm s) as (Hst & evs & Htr & Hevs).
  unfold bind. destruct (m s) as [[a| e | msg |] s1] eqn:Hms; simpl in *;
    try (split; [done|]; by exists evs).
  destruct (Hf a s1) as (Hst' & evs' & Htr' & Hevs').
  split; [congruence|]. exists (evs ++ evs').
  rewrite Htr', Htr, app_assoc. split; [done|]. by apply Forall_app.
Qed.

Lemma cache_free_bind_run {A B} (m : M A) (f : A -> M B) :
  cache_free m ->
  (forall s a s', m s = (Ok a, s') -> cache_free (f a)) ->
  cache_free (bind m f).
Proof.
  intros Hm Hf s. destruct (Hm s) as (Hst & evs & Htr & Hevs).
  unfold bind. destruct (m s) as [[a| e | msg |] s1] eqn:Hms; simpl in *;
    try (split; [done|]; by exists evs).
  destruct (Hf _ _ _ Hms s1) as (Hst' & evs' & Htr' & Hevs').
  split; [congruence|]. exists (evs ++ evs').
  rewrite Htr', Htr, app_assoc. split; [done|]. by apply Forall_app.
Qed.

Ltac cache_free_tac :=
  repeat first
    [ apply cache_free_get_dest | apply cache_free_put_dest
    | apply cache_free_tell; reflexivity
    | apply cache_free_pure; solve [pure_tac]
    | apply cache_free_bind; [| intros ?]
    | match goal with
      | |- cache_free (if ?c then _ else _) => destruct c
      | |- cache_free (match ?x with _ => _ end) => destruct x
      end ].

Section NoCacheFindFacts.
Context `{GoStrings} `{Collaborators}.

Lemma cache_free_appendToSlice canSet v : cache_free (appendToSlice canSet v).
Proof. unfold appendToSlice. cache_free_tac. Qed.

Lemma cache_free_setMapIndex k v : cache_free (setMapIndex k v).
Proof. unfold setMapIndex. cache_free_tac. Qed.

Lemma cache_free_sliceSetFunc isPointer canSet p pk :
  cache_free (sliceSetFunc isPointer canSet p pk).
Proof. apply cache_free_appendToSlice. Qed.

Lemma cache_free_mapSetFunc table keyType isPointer p pk :
  cache_free (mapSetFunc table keyType isPointer p pk).
Proof.
  unfold mapSetFunc. apply cache_free_bind.
  - cache_free_tac.
  - intros k. apply cache_free_setMapIndex.
Qed.

Lemma cache_free_queryRows sql args : cache_free (queryRows sql args).
Proof. unfold queryRows. cache_free_tac. Qed.

Lemma cache_free_rowsErr rows : cache_free (rowsErr rows).
Proof. unfold rowsErr. cache_free_tac. Qed.

Lemma cache_free_rows2Beans tb cs t rows : cache_free (rows2Beans tb cs t rows).
Proof.
  induction rows as [|row rows IH]; simpl; [cache_free_tac|].
  apply cache_free_bind; [cache_free_tac|intros r].
  apply cache_free_bind; [apply IH|intros more]. cache_free_tac.
Qed.

Lemma cache_free_executeProcessors setFunc pending :
  (forall p pk, cache_free (setFunc p pk)) ->
  cache_free (executeProcessors setFunc pending).
Proof.
  intros Hset. induction pending as [|[b pk] pending IH]; simpl.
  - cache_free_tac.
  - apply cache_free_bind; [apply Hset|intros _; apply IH].
Qed.

Lemma cache_free_scanRows t fields setFunc rows :
  (forall p pk, cache_free (setFunc p pk)) ->
  cache_free (scanRows t fields setFunc rows).
Proof.
  intros Hset. induction rows as [|row rows IH]; simpl; [cache_free_tac|].
  apply cache_free_bind; [cache_free_tac|intros cells].
  apply cache_free_bind; [apply Hset|intros _; apply IH].
Qed.

(** The body of [noCacheFind] once the container's set function is
    known. *)
Lemma cache_free_noCacheFind table sv sql args :
  cache_free (noCacheFind table sv sql args).
Proof.
  unfold noCacheFind.
  apply cache_free_bind; [cache_free_tac|intros t0].
  apply cache_free_bind; [cache_free_tac|intros t].
  destruct (decide (KindOf t = KPtr)); [cache_free_tac|].
  apply cache_free_bind; [apply cache_free_queryRows|intros rows].
  apply cache_free_bind; [cache_free_tac|intros fields].
  apply cache_free_bind; [cache_free_tac|intros types].
  apply cache_free_bind_run.
  { cache_free_tac. }
  intros s f s' Hrun.
  assert (Hf : forall p pk, cache_free (f p pk)).
  { destruct (decide (KindOf sv.1 = KSlice)).
    - inversion Hrun; subst. apply cache_free_sliceSetFunc.
    - apply bind_Ok_inv in Hrun as (kt & s1 & _ & Hrun).
      apply bind_Ok_inv in Hrun as (tb & s2 & _ & Hrun).
      repeat destruct (decide _); try discriminate.
      inversion Hrun; subst. apply cache_free_mapSetFunc. }
  destruct (decide (KindOf t = KStruct)).
  - apply cache_free_bind; [cache_free_tac|intros tb].
    apply cache_free_bind; [cache_free_tac|intros cs].
    apply cache_free_bind; [apply cache_free_rows2Beans|intros pending].
    apply cache_free_bind; [apply cache_free_rowsErr|intros _].
    by apply cache_free_executeProcessors.
  - apply cache_free_bind; [by apply cache_free_scanRows|intros _].
    apply cache_free_rowsErr.
Qed.

End NoCacheFindFacts.

(** ** [find]: the choice between the cache and the direct path *)

Section FindFacts.
Context `{GoStrings} `{Collaborators}.

Lemma IndexNoCase_contains s kw :
  IndexNoCase s kw <> -1 <-> contains_nocase s kw.
Proof. unfold IndexNoCase, contains_nocase. apply Index_found. Qed.

Lemma prepare_run session x cb s r :
  (prepare session x cb s).1 = r -> prepare session x cb s = (r, s).
Proof.
  intros Hr. destruct (pure_prepare session x cb) as [r0 Hr0].
  rewrite Hr0 in *. simpl in Hr. by subst.
Qed.

Lemma find_prepared n session x cb s p :
  (prepare session x cb s).1 = Ok p ->
  find (S n) session x cb s
  = materialize (find n) (p_session p) (p_table p) (p_sliceValue p)
                (p_elemType p) x (p_sql p) (p_args p) s.
Proof.
  intros Hp. apply prepare_run in Hp. simpl. unfold find_body.
  by rewrite (bind_Ok _ _ _ _ _ Hp).
Qed.

Lemma find_prepare_fails n session x cb s e s' :
  prepare session x cb s = (Fail e, s') ->
  find (S n) session x cb s = (Fail e, s').
Proof.
  intros Hp. simpl. unfold find_body. by rewrite (bind_Fail _ _ _ _ _ Hp).
Qed.

Lemma materialize_direct find_rec session table sv t x sql args s :
  triesCache session = false ->
  materialize find_rec session table sv t x sql args s
  = noCacheFind table sv sql args s.
Proof. unfold materialize. by intros ->. Qed.

Lemma materialize_fallback find_rec session table sv t x sql args s s' :
  triesCache session = true ->
  cacheFind find_rec session t sql x args s = (Fail ErrCacheFailed, s') ->
  materialize find_rec session table sv t x sql args s
  = noCacheFind table sv sql args (emit (EvLog Warn "Cache Find Failed") s').
Proof. unfold materialize. intros -> ->. reflexivity. Qed.

Lemma materialize_cached find_rec session table sv t x sql args s r s' :
  triesCache session = true ->
  cacheFind find_rec session t sql x args s = (r, s') ->
  r <> Fail ErrCacheFailed ->
  materialize find_rec session table sv t x sql args s = (r, s').
Proof.
  unfold materialize. intros -> -> Hr.
  destruct r as [a|e|msg|]; try done. destruct e; done.
Qed.

Lemma cacheFind_keyword find_rec session t sql x args s :
  contains_nocase sql "group by" \/ contains_nocase sql "having" ->
  cacheFind find_rec session t sql x args s = (Fail ErrCacheFailed, s).
Proof.
  intros Hkw. unfold cacheFind.
  destruct Hkw as [Hkw|Hkw]; apply IndexNoCase_contains in Hkw.
  - rewrite (bool_decide_eq_true_2 _ Hkw). by rewrite orb_true_r.
  - rewrite (bool_decide_eq_true_2 _ Hkw). by rewrite orb_true_r.
Qed.

(** C6. When the statement (as it stands after lines 83-149) requests a
    distinct projection, or is unscoped, or the generated SQL contains
    "group by" or "having" up to case, [find] is the direct materialisation
    [noCacheFind] (preceded, in the keyword case, by the warning that the
    cache attempt failed); the cache store is left as it was and no cache
    operation appears in the trace of the call. *)
Theorem find_bypasses_cache n session x cb s p :
  (prepare session x cb s).1 = Ok p ->
  IsDistinct (statement (p_session p)) = true
  \/ GetUnscoped (statement (p_session p)) = true
  \/ contains_nocase (p_sql p) "group by"
  \/ contains_nocase (p_sql p) "having" ->
  let direct := noCacheFind (p_table p) (p_sliceValue p) (p_sql p) (p_args p) in
  (find (S n) session x cb s = direct s
   \/ find (S n) session x cb s
      = direct (emit (EvLog Warn "Cache Find Failed") s))
  /\ store (find (S n) session x cb s).2 = store s
  /\ exists evs,
      trace (find (S n) session x cb s).2 = trace s ++ evs
      /\ Forall (fun e => is_cache_event e = false) evs.
Proof.
  intros Hp Hcond direct.
  rewrite (find_prepared _ _ _ _ _ _ Hp).
  assert (Hrun :
    materialize (find n) (p_session p) (p_table p) (p_sliceValue p)
                (p_elemType p) x (p_sql p) (p_args p) s = direct s
    \/ materialize (find n) (p_session p) (p_table p) (p_sliceValue p)
                   (p_elemType p) x (p_sql p) (p_args p) s
       = direct (emit (EvLog Warn "Cache Find Failed") s)).
  { destruct (triesCache (p_session p)) eqn:Htries.
    - right. apply materialize_fallback; [done|].
      apply cacheFind_keyword.
      unfold triesCache in Htries.
      repeat (apply andb_prop in Htries as [Htries ?]).
      destruct Hcond as [Hd|[Hu|[Hg|Hh]]]; [| |by left|by right].
      + rewrite Hd in *. done.
      + rewrite Hu in *. done.
    - left. by apply materialize_direct. }
  split; [done|].
  pose proof (cache_free_noCacheFind (p_table p) (p_sliceValue p) (p_sql p)
                                     (p_args p)) as Hfree.
  destruct Hrun as [-> | ->].
  - apply Hfree.
  - destruct (Hfree (emit (EvLog Warn "Cache Find Failed") s))
      as (Hst & evs & Htr & Hevs).
    split; [done|]. exists (EvLog Warn "Cache Find Failed" :: evs).
    split; [|by constructor].
    fold direct in Htr. rewrite Htr. simpl. by rewrite <- app_assoc.
Qed.

End FindFacts.

(** ** Shape errors *)

Section ShapeErrors.
Context `{GoStrings} `{Collaborators}.

Lemma noCacheFind_pointer_to_pointer table ctype canSet sql args s e :
  Elem ctype = Some (TPtr (TPtr e)) ->
  noCacheFind table (ctype, canSet) sql args s
  = (Fail (ErrNew "pointer to pointer is not supported"), s).
Proof. intros He. unfold noCacheFind. simpl. rewrite He. reflexivity. Qed.

Lemma elemType_run (t0 : GoType) (s : State) :
  (if bool_decide (KindOf t0 = KPtr)
   then or_panic "reflect: Elem of invalid type" (Elem t0)
   else ret t0) s
  = (Ok (if bool_decide (KindOf t0 = KPtr) then default t0 (Elem t0) else t0), s).
Proof. case_bool_decide; [|done]. by destruct t0. Qed.

(** What [noCacheFind] does up to the choice of the set function when the
    destination is a map and the element type is acceptable. *)
Lemma noCacheFind_composite_map table0 table ctype canSet keyType sql args s :
  KindOf ctype = KMap ->
  Key ctype = Some keyType ->
  KindOf keyType <> KSlice ->
  table0 = Some table ->
  (1 < length (PrimaryKeys table))%nat ->
  ~ (exists e, Elem ctype = Some (TPtr (TPtr e))) ->
  exists e,
    noCacheFind table0 (ctype, canSet) sql args s
    = (Fail e, emit (EvQuery sql args) s)
    /\ (forall rows cols tys,
           db_query sql args = inr rows ->
           rows_columns rows = inr cols ->
           rows_types rows = inr tys ->
           e = ErrNew "don't support multiple primary key's map has non-slice key type").
Proof.
  intros Hkind Hkey Hkt -> Hpk Hpp.
  unfold noCacheFind. simpl.
  destruct ctype; try discriminate. simpl in *. inversion Hkey; subst keyType.
  rewrite bind_ret_l.
  rewrite (bind_Ok _ _ _ _ _ (elemType_run ctype2 s)).
  rewrite decide_False.
  2:{ case_bool_decide as Hk; [|done].
      destruct ctype2; try discriminate. simpl.
      intros Hk'. destruct ctype2; try discriminate. apply Hpp. eauto. }
  unfold queryRows, bind, tell, lift. simpl.
  destruct (db_query sql args) as [msg|rows]; simpl.
  { eexists. split; [reflexivity|]. intros ? ? ? Hq. discriminate Hq. }
  destruct (rows_columns rows) as [msg|cols] eqn:Hcols; simpl.
  { eexists. split; [reflexivity|]. intros ? ? ? Hq Hc. inversion Hq; subst.
    congruence. }
  destruct (rows_types rows) as [msg|tys] eqn:Htys; simpl.
  { eexists. split; [reflexivity|]. intros ? ? ? Hq Hc Ht. inversion Hq; subst.
    congruence. }
  rewrite decide_False by lia.
  rewrite decide_True by done.
  eexists. split; [reflexivity|]. done.
Qed.

(** C4, as the code has it.  [find] answers "needs a pointer to a slice or
    a map" at once, with nothing sent to the database and nothing logged,
    when the dereferenced destination is neither a slice nor a map.  When
    the call is materialised directly, a pointer-to-pointer element type is
    rejected by [noCacheFind] before its query is issued, and a map
    destination for a table with a composite primary key whose key type is
    not a slice is rejected by [noCacheFind] too, but only after its query
    has been sent: the call fails, the trace holds exactly that one query,
    and the error is the shape error whenever the query and its column
    metadata succeed. *)
Theorem find_shape_errors n session x cb s :
  (LastError (statement session) = None ->
   kindOfValue (Indirect_ValueOf x) <> KSlice ->
   kindOfValue (Indirect_ValueOf x) <> KMap ->
   find (S n) session x cb s
   = (Fail (ErrNew "needs a pointer to a slice or a map"), s))
  /\ (forall p,
         (prepare session x cb s).1 = Ok p ->
         triesCache (p_session p) = false ->
         ((exists e, Elem (p_sliceValue p).1 = Some (TPtr (TPtr e))) ->
          find (S n) session x cb s
          = (Fail (ErrNew "pointer to pointer is not supported"), s))
         /\ (forall table keyType,
                KindOf (p_sliceValue p).1 = KMap ->
                Key (p_sliceValue p).1 = Some keyType ->
                KindOf keyType <> KSlice ->
                p_table p = Some table ->
                (1 < length (PrimaryKeys table))%nat ->
                ~ (exists e, Elem (p_sliceValue p).1 = Some (TPtr (TPtr e))) ->
                exists e,
                  find (S n) session x cb s
                  = (Fail e, emit (EvQuery (p_sql p) (p_args p)) s)
                  /\ (forall rows cols tys,
                         db_query (p_sql p) (p_args p) = inr rows ->
                         rows_columns rows = inr cols ->
                         rows_types rows = inr tys ->
                         e = ErrNew "don't support multiple primary key's map has non-slice key type"))).
Proof.
  split.
  - intros Herr Hs Hm. apply find_prepare_fails.
    unfold prepare. rewrite Herr.
    destruct (Indirect_ValueOf x) as [[t c]|]; [|done]. simpl in *.
    rewrite (bool_decide_eq_false_2 _ Hs), (bool_decide_eq_false_2 _ Hm).
    reflexivity.
  - intros p Hp Htries.
    rewrite (find_prepared _ _ _ _ _ _ Hp), materialize_direct by done.
    destruct (p_sliceValue p) as [ctype canSet]. simpl. split.
    + intros [e He]. by eapply noCacheFind_pointer_to_pointer.
    + intros table keyType Hk Hkey Hkt Htable Hpk Hpp.
      by eapply noCacheFind_composite_map.
Qed.

End ShapeErrors.

(** ** State bookkeeping *)

Lemma set_dest_set_dest c c' s : set_dest c (set_dest c' s) = set_dest c s.
Proof. reflexivity. Qed.

Lemma set_dest_same s : set_dest (dest s) s = s.
Proof. by destruct s. Qed.

Lemma emit_set_dest e c s : emit e (set_dest c s) = set_dest c (emit e s).
Proof. reflexivity. Qed.

(** ** Direct materialisation into a slice *)

Section DirectSlice.
Context `{GoStrings} `{Collaborators}.

Lemma appendToSlice_run v s items :
  dest s = CSlice items ->
  appendToSlice true v s = (Ok tt, set_dest (CSlice (items ++ [v])) s).
Proof. intros Hd. unfold appendToSlice, bind, get_dest. by rewrite Hd. Qed.

Lemma rows2Beans_run tb cs elemType rows bs s :
  Forall2 (row_bean tb cs elemType) rows bs ->
  exists pending,
    rows2Beans tb cs elemType rows s = (Ok pending, s)
    /\ pending.*1 = bs.
Proof.
  induction 1 as [|row b rows bs (pk & Hrow & Hty) _ (pending & IH & Hfst)]; simpl.
  - by exists [].
  - exists ((b, pk) :: pending). rewrite Hrow, lift_inr, bind_ret_l.
    rewrite (bind_Ok _ _ _ _ _ IH). simpl. split; [|by f_equal].
    unfold ret. repeat f_equal. destruct b; simpl in *; by subst.
Qed.

Lemma executeProcessors_slice isPointer pending :
  forall s items,
    dest s = CSlice items ->
    executeProcessors (sliceSetFunc isPointer true) pending s
    = (Ok tt,
       set_dest (CSlice (items ++ (asElement isPointer ∘ PBean <$> pending.*1)))
                s).
Proof.
  induction pending as [|[b pk] pending IH]; intros s items Hd;
    cbn [executeProcessors].
  - simpl. rewrite app_nil_r, <- Hd. by rewrite set_dest_same.
  - unfold sliceSetFunc at 1.
    rewrite (bind_Ok _ _ _ _ _ (appendToSlice_run _ _ _ Hd)).
    rewrite (IH _ (items ++ [asElement isPointer (PBean b)])) by done.
    rewrite set_dest_set_dest, <- app_assoc. reflexivity.
Qed.

Lemma scanRows_slice isPointer elemType fields rows :
  forall s items cells,
    dest s = CSlice items ->
    Forall2 (fun row c => scanValue elemType fields row = inr c) rows cells ->
    scanRows elemType fields (sliceSetFunc isPointer true) rows s
    = (Ok tt,
       set_dest (CSlice (items ++ (asElement isPointer ∘ PRaw <$> cells))) s).
Proof.
  induction rows as [|row rows IH]; intros s items cells Hd Hall;
    inversion Hall as [|? c ? cells' Hrow Hrest]; subst; cbn [scanRows].
  - simpl. rewrite app_nil_r, <- Hd. by rewrite set_dest_same.
  - rewrite Hrow, lift_inr, bind_ret_l. unfold sliceSetFunc at 1.
    rewrite (bind_Ok _ _ _ _ _ (appendToSlice_run _ _ _ Hd)).
    rewrite (IH _ (items ++ [asElement isPointer (PRaw c)]) cells') by done.
    rewrite set_dest_set_dest, <- app_assoc. reflexivity.
Qed.

Lemma noCacheFind_prelude table ctype canSet sql args s rows cols tys :
  KindOf ctype = KSlice ->
  KindOf (materialised ctype) <> KPtr ->
  db_query sql args = inr rows ->
  rows_columns rows = inr cols ->
  rows_types rows = inr tys ->
  noCacheFind table (ctype, canSet) sql args s
  = (if decide (KindOf (materialised ctype) = KStruct) then
       tb <- lift (ParseWithCache (materialised ctype)) ;;
       columnsSchema <-
         or_panic "index out of range" (ParseColumnsSchema cols tys (Some tb)) ;;
       pending <- rows2Beans tb columnsSchema (materialised ctype)
                             (rows_data rows) ;;
       rowsErr rows ;;
       executeProcessors (sliceSetFunc (holdsPointers ctype) canSet) pending
     else
       scanRows (materialised ctype) cols
                (sliceSetFunc (holdsPointers ctype) canSet) (rows_data rows) ;;
       rowsErr rows)%go (emit (EvQuery sql args) s).
Proof.
  intros Hk Hnp Hq Hcols Htys. unfold noCacheFind, materialised, holdsPointers in *.
  destruct ctype; try discriminate. simpl in *.
  rewrite bind_ret_l.
  rewrite (bind_Ok _ _ _ _ _ (elemType_run ctype s)).
  rewrite decide_False by done.
  unfold queryRows. rewrite bind_assoc, bind_tell, Hq, lift_inr, bind_ret_l.
  rewrite Hcols, Htys, !lift_inr, !bind_ret_l. reflexivity.
Qed.

(** Direct materialisation of struct rows into a settable slice: every row
    of the cursor is appended, in the order of the cursor. *)
Lemma noCacheFind_slice_struct table ctype sql args s rows cols tys tb cs bs items :
  KindOf ctype = KSlice ->
  KindOf (materialised ctype) = KStruct ->
  db_query sql args = inr rows ->
  rows_columns rows = inr cols ->
  rows_types rows = inr tys ->
  ParseWithCache (materialised ctype) = inr tb ->
  ParseColumnsSchema cols tys (Some tb) = Some cs ->
  Forall2 (row_bean tb cs (materialised ctype)) (rows_data rows) bs ->
  rows_err rows = None ->
  dest s = CSlice items ->
  noCacheFind table (ctype, true) sql args s
  = (Ok tt,
     set_dest (CSlice (items ++ (asElement (holdsPointers ctype) ∘ PBean <$> bs)))
              (emit (EvQuery sql args) s)).
Proof.
  intros Hk Hst Hq Hcols Htys Htb Hcs Hrows Herr Hd.
  rewrite (noCacheFind_prelude _ _ _ _ _ _ _ _ _ Hk ltac:(by rewrite Hst) Hq Hcols Htys).
  rewrite decide_True by done.
  rewrite Htb, lift_inr, bind_ret_l, Hcs, or_panic_Some, bind_ret_l.
  destruct (rows2Beans_run tb cs _ _ _ (emit (EvQuery sql args) s) Hrows)
    as (pending & Hrun & Hfst).
  rewrite (bind_Ok _ _ _ _ _ Hrun).
  unfold rowsErr. rewrite Herr, bind_ret_l.
  rewrite (executeProcessors_slice _ _ _ items) by done.
  by rewrite Hfst.
Qed.

Lemma noCacheFind_slice_raw table ctype sql args s rows cols tys cells items :
  KindOf ctype = KSlice ->
  KindOf (materialised ctype) <> KStruct ->
  KindOf (materialised ctype) <> KPtr ->
  db_query sql args = inr rows ->
  rows_columns rows = inr cols ->
  rows_types rows = inr tys ->
  Forall2 (fun row c => scanValue (materialised ctype) cols row = inr c)
          (rows_data rows) cells ->
  rows_err rows = None ->
  dest s = CSlice items ->
  noCacheFind table (ctype, true) sql args s
  = (Ok tt,
     set_dest (CSlice (items ++ (asElement (holdsPointers ctype) ∘ PRaw <$> cells)))
              (emit (EvQuery sql args) s)).
Proof.
  intros Hk Hst Hnp Hq Hcols Htys Hrows Herr Hd.
  rewrite (noCacheFind_prelude _ _ _ _ _ _ _ _ _ Hk Hnp Hq Hcols Htys).
  rewrite decide_False by done.
  rewrite (bind_Ok _ _ _ _ _
             (scanRows_slice _ _ _ _ (emit (EvQuery sql args) s) items cells
                             Hd Hrows)).
  unfold rowsErr. by rewrite Herr.
Qed.

End DirectSlice.

(** ** ID resolution and the cap of 500 ids *)

Section Resolve.
Context `{GoStrings} `{Collaborators}.

Lemma collectIDs_within table rows :
  forall i ids pks s,
    0 <= i ->
    i + Z.of_nat (length rows) <= 500 ->
    Forall2 (yields_key table) rows pks ->
    collectIDs table i ids rows s = (Ok (ids ++ pks), s).
Proof.
  induction rows as [|row rows IH]; intros i ids pks s Hi Hlen Hall;
    inversion Hall as [|? pk ? pks' Hrow Hrest]; subst; cbn [collectIDs].
  - by rewrite app_nil_r.
  - simpl in Hlen. rewrite GoInt_incr_small by (unfold GoInt.max_int; lia).
    rewrite decide_False by lia.
    rewrite (bind_Ok _ _ _ _ _ (Hrow s)).
    rewrite (IH (i + 1) (ids ++ [pk]) pks') by (done || lia).
    by rewrite <- app_assoc.
Qed.

Lemma collectIDs_cap table rows :
  forall i ids s,
    0 <= i <= 500 ->
    500 < i + Z.of_nat (length rows) ->
    Forall (fun row => exists pk, yields_key table row pk)
           (take (Z.to_nat (500 - i)) rows) ->
    collectIDs table i ids rows s
    = (Fail ErrCacheFailed,
       emit (EvLog Debug "[cacheFind] ids length > 500, no cache") s).
Proof.
  induction rows as [|row rows IH]; intros i ids s Hi Hlen Hall;
    cbn [collectIDs].
  - simpl in Hlen. lia.
  - rewrite GoInt_incr_small by (unfold GoInt.max_int; lia).
    destruct (decide (i + 1 > 500)) as [Hcap|Hcap]; [reflexivity|].
    replace (Z.to_nat (500 - i)) with (S (Z.to_nat (500 - (i + 1)))) in Hall
      by lia.
    simpl in Hall. inversion Hall as [|? ? [pk Hrow] Hrest]; subst.
    rewrite (bind_Ok _ _ _ _ _ (Hrow s)).
    apply IH; [lia| |done]. simpl in Hlen. lia.
Qed.

Lemma resolveIDs_hit table tableName sqlStr newsql args s ids :
  ids_of (store s) tableName !! (newsql, args) = Some ids ->
  resolveIDs table tableName sqlStr newsql args s
  = (Ok ids,
     emit (EvLog Debug "[cache] cache hit sql")
          (emit (EvGetIds tableName newsql args) s)).
Proof.
  intros Hhit. unfold resolveIDs, GetCacheSql, GetIds, bind at 1.
  rewrite Hhit. reflexivity.
Qed.

Lemma resolveIDs_cap table tableName sqlStr newsql args s rows :
  ids_of (store s) tableName !! (newsql, args) = None ->
  db_query newsql args = inr rows ->
  (500 < length (rows_data rows))%nat ->
  Forall (fun row => exists pk, yields_key table row pk)
         (take 500 (rows_data rows)) ->
  resolveIDs table tableName sqlStr newsql args s
  = (Fail ErrCacheFailed,
     emit (EvLog Debug "[cacheFind] ids length > 500, no cache")
          (emit (EvQuery newsql args) (emit (EvGetIds tableName newsql args) s))).
Proof.
  intros Hmiss Hq Hlen Hall. unfold resolveIDs, GetCacheSql, GetIds, bind at 1.
  rewrite Hmiss. unfold queryRows.
  rewrite bind_assoc, bind_tell, Hq, lift_inr, bind_ret_l.
  rewrite (bind_Fail _ _ _ _ _
             (collectIDs_cap table (rows_data rows) 0 [] _ ltac:(lia)
                             ltac:(lia) Hall)).
  reflexivity.
Qed.

Lemma resolveIDs_fresh table tableName sqlStr newsql args s rows pks :
  ids_of (store s) tableName !! (newsql, args) = None ->
  db_query newsql args = inr rows ->
  (length (rows_data rows) <= 500)%nat ->
  Forall2 (yields_key table) (rows_data rows) pks ->
  rows_err rows = None ->
  exists s1,
    resolveIDs table tableName sqlStr newsql args s = (Ok pks, s1)
    /\ ids_of (store s1) tableName !! (newsql, args) = Some pks
    /\ dest s1 = dest s
    /\ trace s1 = trace s ++ [EvGetIds tableName newsql args;
                              EvQuery newsql args;
                              EvLog Debug "[cache] cache sql";
                              EvPutIds tableName newsql args].
Proof.
  intros Hmiss Hq Hlen Hall Herr. eexists.
  unfold resolveIDs, GetCacheSql, GetIds, bind at 1.
  rewrite Hmiss. unfold queryRows.
  rewrite bind_assoc, bind_tell, Hq, lift_inr, bind_ret_l.
  rewrite (bind_Ok _ _ _ _ _
             (collectIDs_within table (rows_data rows) 0 [] pks _ ltac:(lia)
                                ltac:(lia) Hall)).
  unfold rowsErr. rewrite Herr, bind_ret_l, bind_logf.
  unfold PutCacheSql, PutIds, bind, ret. simpl.
  split; [reflexivity|]. split; [|split].
  - unfold ids_of. simpl. rewrite lookup_insert_eq. simpl.
    by rewrite lookup_insert_eq.
  - done.
  - cbn. by rewrite <- !app_assoc.
Qed.

(** [cacheFind] past its guards (lines 336-355). *)
Lemma cacheFind_eligible find_rec session t sqlStr x args s table :
  canCache session = true ->
  GetCacher (TableName (statement session)) = true ->
  IndexNoCase sqlStr "having" = -1 ->
  IndexNoCase sqlStr "group by" = -1 ->
  let fsql := fold_left (fun s filter => filter s) Filters sqlStr in
  let newsql := ConvertIDSQL (statement session) fsql in
  newsql <> "" ->
  RefTable (statement session) = Some table ->
  cacheFind find_rec session t sqlStr x args s
  = (ids <- resolveIDs table (TableName (statement session)) fsql newsql args ;;
     assemble find_rec session table (TableName (statement session)) t x ids) s.
Proof.
  intros Hcan Hcacher Hh Hg fsql newsql Hnew Htable. unfold cacheFind.
  rewrite Hcan, Hcacher. simpl.
  rewrite Hh, Hg. simpl.
  fold fsql. fold newsql. rewrite decide_False by done.
  rewrite Htable, or_panic_Some, bind_ret_l. reflexivity.
Qed.

Lemma triesCache_true session :
  triesCache session = true ->
  canCache session = true
  /\ GetCacher (TableName (statement session)) = true
  /\ ColumnMap (statement session) = []
  /\ IsDistinct (statement session) = false
  /\ GetUnscoped (statement session) = false.
Proof.
  unfold triesCache. intros Ht.
  repeat (apply andb_prop in Ht as [Ht ?]).
  apply bool_decide_eq_true in Ht.
  repeat split; try done; by apply negb_true_iff.
Qed.

End Resolve.

Section Cap.
Context `{GoStrings} `{Collaborators}.


End Cap.

(** ** Probing the bean cache *)

Section Probe.
Context `{GoStrings} `{Collaborators}.

Lemma GetBean_run tableName sid s :
  GetBean tableName sid s
  = (Ok (beans_of (store s) tableName !! sid), emit (EvGetBean tableName sid) s).
Proof. reflexivity. Qed.

Lemma probeBean_miss table tableName t idx id p s sid :
  PK_ToString id = inr sid ->
  isHit t (beans_of (store s) tableName !! sid) = false ->
  probeBean table tableName t idx id p s
  = (Ok (mkProbe (<[sid := idx]> (ididxes p)) (ides p ++ [id]) (temps p)),
     emit (EvGetBean tableName sid) s).
Proof.
  intros Hsid Hhit. unfold probeBean.
  rewrite Hsid, lift_inr, bind_ret_l.
  rewrite (bind_Ok _ _ _ _ _ (GetBean_run tableName sid s)).
  by rewrite Hhit.
Qed.

Lemma probeBean_hit table tableName t idx id p s sid bean pk :
  PK_ToString id = inr sid ->
  beans_of (store s) tableName !! sid = Some bean ->
  isHit t (Some bean) = true ->
  IDOfV table bean = inr pk ->
  PK_ToString pk = inr sid ->
  0 <= idx < Z.of_nat (length (temps p)) ->
  probeBean table tableName t idx id p s
  = (Ok (mkProbe (ididxes p) (ides p) (<[Z.to_nat idx := Some bean]> (temps p))),
     emit (EvLog Debug "[cache] cache hit bean")
          (emit (EvGetBean tableName sid) s)).
Proof.
  intros Hsid Hbean Hhit Hpk Hxid Hidx. unfold probeBean.
  rewrite Hsid, lift_inr, bind_ret_l.
  rewrite (bind_Ok _ _ _ _ _ (GetBean_run tableName sid s)).
  rewrite Hbean, Hhit. cbn [negb].
  rewrite bind_logf, Hpk, lift_inr, bind_ret_l, Hxid, lift_inr, bind_ret_l.
  rewrite decide_False by (intros Hne; by apply Hne).
  unfold setTemp. rewrite decide_True by done. reflexivity.
Qed.

Lemma probeBean_corrupt table tableName t idx id p s sid bean pk xid :
  PK_ToString id = inr sid ->
  beans_of (store s) tableName !! sid = Some bean ->
  isHit t (Some bean) = true ->
  IDOfV table bean = inr pk ->
  PK_ToString pk = inr xid ->
  sid <> xid ->
  probeBean table tableName t idx id p s
  = (Fail ErrCacheFailed,
     emit (EvLog Error "[cache] error cache")
          (emit (EvLog Debug "[cache] cache hit bean")
                (emit (EvGetBean tableName sid) s))).
Proof.
  intros Hsid Hbean Hhit Hpk Hxid Hne. unfold probeBean.
  rewrite Hsid, lift_inr, bind_ret_l.
  rewrite (bind_Ok _ _ _ _ _ (GetBean_run tableName sid s)).
  rewrite Hbean, Hhit. cbn [negb].
  rewrite bind_logf, Hpk, lift_inr, bind_ret_l, Hxid, lift_inr, bind_ret_l.
  rewrite decide_True by done. reflexivity.
Qed.

Lemma probeBeans_app table tableName t l1 :
  forall idx l2 p s,
    probeBeans table tableName t idx (l1 ++ l2) p s
    = (p' <- probeBeans table tableName t idx l1 p ;;
       probeBeans table tableName t (Nat.iter (length l1) GoInt.incr idx) l2 p') s.
Proof.
  induction l1 as [|id l1 IH]; intros idx l2 p s.
  - reflexivity.
  - cbn [probeBeans app length]. rewrite bind_assoc.
    apply bind_ext. intros p' s'.
    rewrite Nat.iter_succ_r. apply IH.
Qed.

Lemma isHit_mismatch t bean :
  bean_type bean <> t ->
  (KindOf t = KPtr -> Elem t <> Some (bean_type bean)) ->
  isHit t (Some bean) = false.
Proof.
  intros Hne Hptr. unfold isHit.
  rewrite (bool_decide_eq_false_2 _ Hne). simpl.
  case_bool_decide as Hk; [|done].
  by rewrite (bool_decide_eq_false_2 _ (Hptr Hk)).
Qed.

(** C3, as the code has it.  A cached bean whose struct type is neither the
    element type nor the type the element type points to is treated as a
    cache miss: the probe raises no error, queues the id for the backfill
    and records its index, exactly as it does when no bean is cached under
    the key; the slots are left as they were. *)
Theorem probeBean_type_mismatch table tableName t idx id p s sid bean :
  PK_ToString id = inr sid ->
  beans_of (store s) tableName !! sid = Some bean ->
  bean_type bean <> t ->
  (KindOf t = KPtr -> Elem t <> Some (bean_type bean)) ->
  probeBean table tableName t idx id p s
  = (Ok (mkProbe (<[sid := idx]> (ididxes p)) (ides p ++ [id]) (temps p)),
     emit (EvGetBean tableName sid) s)
  /\ forall s0,
      beans_of (store s0) tableName !! sid = None ->
      (probeBean table tableName t idx id p s0).1
      = (probeBean table tableName t idx id p s).1.
Proof.
  intros Hsid Hbean Hne Hptr.
  assert (Hrun : probeBean table tableName t idx id p s
                 = (Ok (mkProbe (<[sid := idx]> (ididxes p)) (ides p ++ [id])
                                (temps p)),
                    emit (EvGetBean tableName sid) s)).
  { apply probeBean_miss; [done|]. rewrite Hbean. by apply isHit_mismatch. }
  split; [done|]. intros s0 Hnone.
  rewrite Hrun, (probeBean_miss _ _ _ _ _ _ _ sid); [done|done|].
  by rewrite Hnone.
Qed.

End Probe.

Section KeyCheck.
Context `{GoStrings} `{Collaborators}.

(** C10. When an id of the resolved list hits a bean in the cache whose own
    primary key, extracted by [IDOfV] and stringified, differs from the key
    it was stored under, [cacheFind] logs the error and returns
    [ErrCacheFailed]; [find] then logs the failed attempt and is the direct
    materialisation [noCacheFind] of the original query. *)
Theorem find_cache_key_mismatch
        n session x cb s p table ids s1 before id after p1 s2 sid bean pk xid :
  (prepare session x cb s).1 = Ok p ->
  let sess := p_session p in
  let tableName := TableName (statement sess) in
  let fsql := fold_left (fun s filter => filter s) Filters (p_sql p) in
  let newsql := ConvertIDSQL (statement sess) fsql in
  triesCache sess = true ->
  IndexNoCase (p_sql p) "having" = -1 ->
  IndexNoCase (p_sql p) "group by" = -1 ->
  newsql <> "" ->
  RefTable (statement sess) = Some table ->
  resolveIDs table tableName fsql newsql (p_args p) s = (Ok ids, s1) ->
  ids = before ++ id :: after ->
  probeBeans table tableName (p_elemType p) 0 before
             (mkProbe ∅ [] (replicate (length ids) None)) s1 = (Ok p1, s2) ->
  PK_ToString id = inr sid ->
  beans_of (store s2) tableName !! sid = Some bean ->
  isHit (p_elemType p) (Some bean) = true ->
  IDOfV table bean = inr pk ->
  PK_ToString pk = inr xid ->
  sid <> xid ->
  let s3 := emit (EvLog Error "[cache] error cache")
                 (emit (EvLog Debug "[cache] cache hit bean")
                       (emit (EvGetBean tableName sid) s2)) in
  cacheFind (find n) sess (p_elemType p) (p_sql p) x (p_args p) s
  = (Fail ErrCacheFailed, s3)
  /\ find (S n) session x cb s
     = noCacheFind (p_table p) (p_sliceValue p) (p_sql p) (p_args p)
                   (emit (EvLog Warn "Cache Find Failed") s3).
Proof.
  intros Hp sess tableName fsql newsql Htries Hh Hg Hnew Htable Hids Hsplit
         Hbefore Hsid Hbean Hhit Hpk Hxid Hne s3.
  destruct (triesCache_true _ Htries) as (Hcan & Hcacher & _).
  assert (Hfail : cacheFind (find n) sess (p_elemType p) (p_sql p) x
                            (p_args p) s = (Fail ErrCacheFailed, s3)).
  { rewrite (cacheFind_eligible (find n) sess (p_elemType p) (p_sql p) x
               (p_args p) s table Hcan Hcacher Hh Hg Hnew Htable).
    fold tableName fsql newsql. rewrite (bind_Ok _ _ _ _ _ Hids).
    unfold assemble. apply bind_Fail.
    rewrite Hsplit at 1. rewrite probeBeans_app.
    rewrite (bind_Ok _ _ _ _ _ Hbefore). cbn [probeBeans].
    apply bind_Fail. by eapply probeBean_corrupt. }
  split; [done|].
  rewrite (find_prepared _ _ _ _ _ _ Hp).
  by apply materialize_fallback.
Qed.

End KeyCheck.

(** ** Composition of the result *)

Section Compose.
Context `{GoStrings} `{Collaborators}.

Lemma warnings_cons_None rest :
  warnings (None :: rest) = EvLog Warn "[cache] cache no hit" :: warnings rest.
Proof. reflexivity. Qed.

Lemma composeResult_skip t sv ids j rest s :
  composeResult t sv ids j (None :: rest) s
  = composeResult t sv ids (S j) rest (emit (EvLog Warn "[cache] cache no hit") s).
Proof. reflexivity. Qed.

Lemma placeBean_slice t ctype canSet ids j bean :
  KindOf ctype = KSlice ->
  placeBean t (Some (ctype, canSet)) ids j bean
  = appendToSlice canSet (beanElement t bean).
Proof.
  intros Hk. unfold placeBean. simpl. by rewrite decide_True.
Qed.

Lemma composeResult_slice t ctype ids temps :
  forall j s items,
    KindOf ctype = KSlice ->
    dest s = CSlice items ->
    composeResult t (Some (ctype, true)) ids j temps s
    = (Ok tt,
       mkState (store s) (trace s ++ warnings temps)
               (CSlice (items ++ (beanElement t <$> present temps)))).
Proof.
  induction temps as [|slot temps IH]; intros j s items Hk Hd.
  - simpl. rewrite !app_nil_r, <- Hd. by destruct s.
  - destruct slot as [bean|].
    + cbn [composeResult]. rewrite placeBean_slice by done.
      rewrite (bind_Ok _ _ _ _ _ (appendToSlice_run _ _ _ Hd)).
      rewrite (IH _ _ (items ++ [beanElement t bean])) by done.
      simpl. unfold present. simpl. by rewrite <- app_assoc.
    + rewrite composeResult_skip.
      rewrite (IH _ _ items) by done.
      simpl. by rewrite <- app_assoc.
Qed.

Lemma warnings_length temps :
  length (warnings temps) = length (filter (fun slot => slot = None) temps).
Proof.
  induction temps as [|[b|] temps IH]; [done| |].
  - rewrite filter_cons_False by done. apply IH.
  - rewrite filter_cons_True by done. simpl. f_equal. apply IH.
Qed.

(** C7. Once the ids are probed and the missing beans fetched, the
    composition into a settable slice always succeeds: the filled slots are
    appended in order, and every empty slot (an id that was neither a cache
    hit nor returned by the backfill query) only adds one warning to the
    log.  Whatever the destination, an empty slot is a warning followed by
    the rest of the composition; it never is an error. *)
Theorem missing_beans_are_skipped
        find_rec session table tableName t x ctype ids s p s2 temps s3 items :
  Indirect_ValueOf x = Some (ctype, true) ->
  KindOf ctype = KSlice ->
  probeBeans table tableName t 0 ids
             (mkProbe ∅ [] (replicate (length ids) None)) s = (Ok p, s2) ->
  backfill find_rec session table tableName t p s2 = (Ok temps, s3) ->
  dest s3 = CSlice items ->
  assemble find_rec session table tableName t x ids s
  = (Ok tt,
     mkState (store s3) (trace s3 ++ warnings temps)
             (CSlice (items ++ (beanElement t <$> present temps))))
  /\ length (warnings temps)
     = length (filter (fun slot => slot = None) temps)
  /\ (forall j, temps !! j = Some None ->
                EvLog Warn "[cache] cache no hit" ∈ warnings temps)
  /\ (forall sv j rest s',
         composeResult t sv ids j (None :: rest) s'
         = composeResult t sv ids (S j) rest
                         (emit (EvLog Warn "[cache] cache no hit") s')).
Proof.
  intros Hx Hk Hprobe Hback Hd.
  split; [|split; [apply warnings_length|split]].
  - unfold assemble. rewrite (bind_Ok _ _ _ _ _ Hprobe).
    rewrite (bind_Ok _ _ _ _ _ Hback). rewrite Hx.
    by apply composeResult_slice.
  - intros j Hj. unfold warnings. apply list_elem_of_omap.
    exists None. split; [|done]. apply list_elem_of_lookup. eauto.
  - intros. apply composeResult_skip.
Qed.

End Compose.

(** ** The slots follow the id list *)

Section Slots.
Context `{GoStrings} `{Collaborators}.

Lemma lift_Ok_inv {A} (r : string + A) s a s' :
  lift r s = (Ok a, s') -> r = inr a /\ s' = s.
Proof. destruct r; simpl; inversion 1; by subst. Qed.

Lemma setTemp_Ok_inv k bean temps0 s temps' s' :
  setTemp k bean temps0 s = (Ok temps', s') ->
  0 <= k < Z.of_nat (length temps0)
  /\ temps' = <[Z.to_nat k := Some bean]> temps0 /\ s' = s.
Proof.
  unfold setTemp. destruct (decide _); inversion 1; by subst.
Qed.

Lemma slots_ok_init table ids :
  slots_ok table ids (replicate (length ids) None).
Proof.
  split; [by rewrite length_replicate|].
  intros j b Hj. apply lookup_replicate in Hj as [Hj _]. discriminate.
Qed.

Lemma idx_ok_init ids : idx_ok ids ∅.
Proof. intros sid k Hk. by rewrite lookup_empty in Hk. Qed.

Lemma slots_ok_insert table ids temps0 k id sid b :
  slots_ok table ids temps0 ->
  ids !! k = Some id ->
  PK_ToString id = inr sid ->
  keyed table b sid ->
  slots_ok table ids (<[k := Some b]> temps0).
Proof.
  intros [Hlen Hslots] Hid Hsid Hkey. split; [by rewrite length_insert|].
  intros j b' Hj. destruct (decide (k = j)) as [<-|Hne].
  - rewrite list_lookup_insert_eq in Hj.
    + inversion Hj; subst. eauto.
    + rewrite Hlen. by eapply lookup_lt_Some.
  - rewrite list_lookup_insert_ne in Hj by done. eauto.
Qed.

(** One probe keeps the slots and the recorded indices in line with the id
    list, and touches neither the store nor the destination. *)
Lemma probeBean_inv table tableName t ids (k : nat) id p s p' s' :
  ids !! k = Some id ->
  slots_ok table ids (temps p) ->
  idx_ok ids (ididxes p) ->
  probeBean table tableName t (Z.of_nat k) id p s = (Ok p', s') ->
  slots_ok table ids (temps p') /\ idx_ok ids (ididxes p')
  /\ dest s' = dest s /\ store s' = store s.
Proof.
  intros Hid Hslots Hidx Hrun. unfold probeBean in Hrun.
  apply bind_Ok_inv in Hrun as (sid & s1 & Hsid & Hrun).
  apply lift_Ok_inv in Hsid as [Hsid ->].
  rewrite (bind_Ok _ _ _ _ _ (GetBean_run tableName sid s)) in Hrun.
  destruct (isHit t (beans_of (store s) tableName !! sid)) eqn:Hhit;
    cbn [negb] in Hrun.
  - destruct (beans_of (store s) tableName !! sid) as [bean|] eqn:Hbean;
      [|discriminate].
    rewrite bind_logf in Hrun.
    apply bind_Ok_inv in Hrun as (pk & s2 & Hpk & Hrun).
    apply lift_Ok_inv in Hpk as [Hpk ->].
    apply bind_Ok_inv in Hrun as (xid & s3 & Hxid & Hrun).
    apply lift_Ok_inv in Hxid as [Hxid ->].
    destruct (decide (sid <> xid)) as [Hne|Heq]; [discriminate|].
    apply dec_stable in Heq. subst xid.
    apply bind_Ok_inv in Hrun as (temps' & s4 & Hset & Hrun).
    apply setTemp_Ok_inv in Hset as (Hrange & -> & ->).
    inversion Hrun; subst. simpl. rewrite Nat2Z.id.
    split; [|done]. eapply slots_ok_insert; eauto. by exists pk.
  - inversion Hrun; subst. simpl. split; [done|]. split; [|done].
    intros sid' k' Hk'. destruct (decide (sid = sid')) as [<-|Hne].
    + rewrite lookup_insert_eq in Hk'. inversion Hk'; subst.
      exists id. rewrite Nat2Z.id. split; [lia|done].
    + rewrite lookup_insert_ne in Hk' by done. by apply Hidx.
Qed.

Lemma iter_incr_small (k : nat) (idx : nat) :
  Z.of_nat (idx + k) < 2 ^ 63 ->
  Nat.iter k GoInt.incr (Z.of_nat idx) = Z.of_nat (idx + k).
Proof.
  induction k as [|k IH]; intros Hk; simpl.
  - by rewrite Nat.add_0_r.
  - rewrite IH by lia. rewrite GoInt_incr_small by (unfold GoInt.max_int; lia).
    lia.
Qed.

Lemma probeBeans_inv table tableName t ids rest :
  forall before p s p' s',
    ids = before ++ rest ->
    Z.of_nat (length ids) < 2 ^ 63 ->
    slots_ok table ids (temps p) ->
    idx_ok ids (ididxes p) ->
    probeBeans table tableName t (Z.of_nat (length before)) rest p s
    = (Ok p', s') ->
    slots_ok table ids (temps p') /\ idx_ok ids (ididxes p')
    /\ dest s' = dest s /\ store s' = store s.
Proof.
  induction rest as [|id rest IH]; intros before p s p' s' Hids Hlen Hslots Hidx Hrun.
  - inversion Hrun; by subst.
  - cbn [probeBeans] in Hrun.
    apply bind_Ok_inv in Hrun as (p1 & s1 & Hone & Hrun).
    assert (Hid : ids !! length before = Some id).
    { rewrite Hids. by rewrite list_lookup_middle. }
    destruct (probeBean_inv _ _ _ _ _ _ _ _ _ _ Hid Hslots Hidx Hone)
      as (Hslots1 & Hidx1 & Hd1 & Hst1).
    rewrite GoInt_incr_small in Hrun.
    2:{ unfold GoInt.max_int. rewrite Hids, length_app in Hlen.
        simpl in Hlen. lia. }
    replace (Z.of_nat (length before) + 1)
      with (Z.of_nat (length (before ++ [id]))) in Hrun
      by (rewrite length_app; simpl; lia).
    assert (Hids' : ids = (before ++ [id]) ++ rest) by (by rewrite <- app_assoc).
    destruct (IH (before ++ [id]) p1 s1 p' s' Hids' Hlen Hslots1 Hidx1 Hrun)
      as (Hslots2 & Hidx2 & Hd2 & Hst2).
    split; [done|]. split; [done|]. split; congruence.
Qed.

Lemma PutBean_run tableName sid bean s :
  PutBean tableName sid bean s
  = (Ok tt,
     emit (EvPutBean tableName sid)
          (set_store
             (mkCacheStore
                (cache_ids (store s))
                (<[tableName := <[sid := bean]> (beans_of (store s) tableName)]>
                   (cache_beans (store s)))) s)).
Proof. reflexivity. Qed.

Lemma storeBeans_inv table tableName ids ididxes0 vs :
  forall temps0 s temps' s',
    slots_ok table ids temps0 ->
    idx_ok ids ididxes0 ->
    (forall v b sid,
        v ∈ vs -> payload v = PBean b -> keyed table b sid ->
        is_Some (ididxes0 !! sid)) ->
    storeBeans table tableName ididxes0 vs temps0 s = (Ok temps', s') ->
    slots_ok table ids temps' /\ dest s' = dest s.
Proof.
  induction vs as [|rv vs IH]; intros temps0 s temps' s' Hslots Hidx Hkeys Hrun.
  - inversion Hrun; by subst.
  - cbn [storeBeans] in Hrun.
    apply bind_Ok_inv in Hrun as (bean & s1 & Hbean & Hrun).
    destruct (payload rv) as [b|cells] eqn:Hpay; [|discriminate].
    inversion Hbean; subst bean s1.
    apply bind_Ok_inv in Hrun as (id & s2 & Hid & Hrun).
    apply lift_Ok_inv in Hid as [Hid ->].
    apply bind_Ok_inv in Hrun as (sid & s3 & Hsid & Hrun).
    apply lift_Ok_inv in Hsid as [Hsid ->].
    apply bind_Ok_inv in Hrun as (temps1 & s4 & Hset & Hrun).
    apply setTemp_Ok_inv in Hset as (Hrange & -> & ->).
    rewrite bind_logf in Hrun.
    rewrite (bind_Ok _ _ _ _ _ (PutBean_run _ _ _ _)) in Hrun.
    assert (Hkey : keyed table b sid) by (by exists id).
    destruct (Hkeys rv b sid) as [k Hk]; [by left|done|done|].
    rewrite Hk in *. simpl in *.
    destruct (Hidx _ _ Hk) as (id' & Hk0 & Hid' & Hsid').
    destruct (IH _ _ _ _ (slots_ok_insert _ _ _ _ _ _ _ Hslots Hid' Hsid' Hkey)
                 Hidx ltac:(intros; eapply Hkeys; eauto; by right) Hrun)
      as [Hslots' Hd'].
    split; [done|]. by rewrite Hd'.
Qed.

Lemma fetchMissing_dest find_rec session t s vs s' :
  fetchMissing find_rec session t s = (Ok vs, s') -> dest s' = dest s.
Proof.
  unfold fetchMissing.
  destruct (find_rec _ _ _ _) as [[[]| | |] s1]; [|discriminate..].
  destruct (dest s1); inversion 1; by subst.
Qed.

Lemma pure_firstComponents ides0 : pure (firstComponents ides0).
Proof.
  induction ides0 as [|ie ides0 IH]; simpl; [apply pure_ret|].
  apply pure_bind; [apply pure_or_panic|intros v].
  apply pure_bind; [apply IH|intros ff]. apply pure_ret.
Qed.

Lemma pure_pkCond names :
  forall i ie cond, pure (pkCond names i ie cond).
Proof.
  induction names as [|name names IH]; intros i ie cond; simpl;
    [apply pure_ret|].
  apply pure_bind; [apply pure_or_panic|intros v]. apply IH.
Qed.

Lemma pure_orConds table ides0 : forall st, pure (orConds table ides0 st).
Proof.
  induction ides0 as [|ie ides0 IH]; intros st; simpl; [apply pure_ret|].
  apply pure_bind; [apply pure_pkCond|intros c]. apply IH.
Qed.

Lemma pure_backfillStatement table ides0 : pure (backfillStatement table ides0).
Proof.
  unfold backfillStatement. destruct (decide _).
  - apply pure_bind; [apply pure_firstComponents|intros ff]. apply pure_ret.
  - apply pure_orConds.
Qed.

End Slots.

Section Order.
Context `{GoStrings} `{Collaborators}.

Lemma backfill_inv find_rec session table tableName t ids p s temps' s' :
  slots_ok table ids (temps p) ->
  idx_ok ids (ididxes p) ->
  (forall st vs s3,
      backfillStatement table (ides p) s = (Ok st, s) ->
      fetchMissing find_rec (backfillSession session st tableName) t s
      = (Ok vs, s3) ->
      forall v b sid,
        v ∈ vs -> payload v = PBean b -> keyed table b sid ->
        is_Some (ididxes p !! sid)) ->
  backfill find_rec session table tableName t p s = (Ok temps', s') ->
  slots_ok table ids temps' /\ dest s' = dest s.
Proof.
  intros Hslots Hidx Hkeys Hrun. unfold backfill in Hrun.
  destruct (decide (0 < length (ides p))%nat); [|inversion Hrun; by subst].
  apply bind_Ok_inv in Hrun as (st & s1 & Hst & Hrun).
  destruct (pure_run _ _ _ _ (pure_backfillStatement table (ides p)) Hst)
    as [-> _].
  apply bind_Ok_inv in Hrun as (vs & s2 & Hvs & Hrun).
  destruct (storeBeans_inv _ _ _ _ _ _ _ _ _ Hslots Hidx
              (Hkeys _ _ _ Hst Hvs) Hrun) as [Hslots' Hd'].
  split; [done|]. rewrite Hd'. by eapply fetchMissing_dest.
Qed.

Lemma backfill_rows find_rec session table tableName t p s :
  backfill find_rec session table tableName t p s
  = (vs <- backfillRows find_rec session table tableName t p ;;
     storeBeans table tableName (ididxes p) vs (temps p)) s.
Proof.
  unfold backfill, backfillRows. destruct (decide _); [|reflexivity].
  by rewrite bind_assoc.
Qed.

Lemma backfillRows_dest find_rec session table tableName t p s vs s' :
  backfillRows find_rec session table tableName t p s = (Ok vs, s') ->
  dest s' = dest s.
Proof.
  unfold backfillRows. destruct (decide _); [|inversion 1; by subst].
  intros Hrun. apply bind_Ok_inv in Hrun as (st & s1 & Hst & Hrun).
  destruct (pure_run _ _ _ _ (pure_backfillStatement table (ides p)) Hst)
    as [-> _].
  by eapply fetchMissing_dest.
Qed.

(** Ids with the same key string are at the same index. *)
Lemma same_key_same_index (ids : list PK) sids i j a b sid :
  Forall2 (fun id sid => PK_ToString id = inr sid) ids sids ->
  NoDup sids ->
  ids !! i = Some a -> ids !! j = Some b ->
  PK_ToString a = inr sid -> PK_ToString b = inr sid ->
  i = j.
Proof.
  intros Hall Hnd Hi Hj Ha Hb.
  destruct (Forall2_lookup_l _ _ _ _ _ Hall Hi) as (sa & Hsa & Hka).
  destruct (Forall2_lookup_l _ _ _ _ _ Hall Hj) as (sb & Hsb & Hkb).
  rewrite Ha in Hka. rewrite Hb in Hkb.
  injection Hka as <-. injection Hkb as <-.
  eapply NoDup_lookup; eauto.
Qed.

Lemma filter_ext_elem {A} (P Q : A -> Prop)
      `{forall x, Decision (P x)} `{forall x, Decision (Q x)} (l : list A) :
  (forall x, x ∈ l -> P x <-> Q x) -> filter P l = filter Q l.
Proof.
  induction l as [|x l IH]; intros Hpq; [done|].
  assert (Hl : filter P l = filter Q l).
  { apply IH. intros y Hy. apply Hpq. by right. }
  destruct (decide (P x)) as [Hp|Hp].
  - rewrite !filter_cons_True; [by rewrite Hl|by apply Hpq; [left|]|done].
  - rewrite !filter_cons_False; [done| |done].
    intros Hq. apply Hp. apply Hpq; [by left|done].
Qed.

Lemma list_omap_ext_elem {A B} (f g : A -> option B) (l : list A) :
  (forall x, x ∈ l -> f x = g x) -> omap f l = omap g l.
Proof.
  induction l as [|x l IH]; intros Hfg; [done|]. simpl.
  rewrite (Hfg x) by (by left).
  destruct (g x); simpl; [f_equal|]; apply IH; intros y Hy; apply Hfg;
    by right.
Qed.

Lemma present_fmap {A} (f : A -> option Bean) (l : list A) :
  present (f <$> l) = omap f l.
Proof.
  unfold present. induction l as [|x l IH]; [done|]. simpl.
  destruct (f x); simpl.
  - f_equal. exact IH.
  - exact IH.
Qed.

(** One probe, exactly: a hit fills the slot of the index, a miss records
    the index under the key and queues the id. *)
Lemma probeBean_exact table tableName t (k : nat) id p s p' s' :
  probeBean table tableName t (Z.of_nat k) id p s = (Ok p', s') ->
  store s' = store s /\ dest s' = dest s
  /\ exists sid,
      PK_ToString id = inr sid
      /\ match hitOf tableName t (store s) id with
         | Some b =>
             (k < length (temps p))%nat
             /\ temps p' = <[k := Some b]> (temps p)
             /\ ididxes p' = ididxes p /\ ides p' = ides p
         | None =>
             temps p' = temps p
             /\ ididxes p' = <[sid := Z.of_nat k]> (ididxes p)
             /\ ides p' = ides p ++ [id]
         end.
Proof.
  intros Hrun. unfold probeBean in Hrun.
  apply bind_Ok_inv in Hrun as (sid & s1 & Hsid & Hrun).
  apply lift_Ok_inv in Hsid as [Hsid ->].
  rewrite (bind_Ok _ _ _ _ _ (GetBean_run tableName sid s)) in Hrun.
  unfold hitOf, hitFor. rewrite Hsid.
  destruct (beans_of (store s) tableName !! sid) as [bean|] eqn:Hbean.
  - destruct (isHit t (Some bean)) eqn:Hhit; cbn [negb] in Hrun.
    + rewrite bind_logf in Hrun.
      apply bind_Ok_inv in Hrun as (pk & s2 & Hpk & Hrun).
      apply lift_Ok_inv in Hpk as [Hpk ->].
      apply bind_Ok_inv in Hrun as (xid & s3 & Hxid & Hrun).
      apply lift_Ok_inv in Hxid as [Hxid ->].
      destruct (decide (sid <> xid)) as [Hne|Heq]; [discriminate|].
      apply bind_Ok_inv in Hrun as (temps' & s4 & Hset & Hrun).
      apply setTemp_Ok_inv in Hset as (Hrange & -> & ->).
      inversion Hrun; subst. simpl. rewrite Nat2Z.id.
      split; [done|]. split; [done|]. exists sid. split; [done|].
      split; [lia|done].
    + inversion Hrun; subst. simpl. split; [done|]. split; [done|].
      by exists sid.
  - simpl in Hrun. inversion Hrun; subst. simpl.
    split; [done|]. split; [done|]. by exists sid.
Qed.

(** The probe of the whole id list, exactly: slot [j] holds the cache hit
    of the [j]-th id, every miss has its index recorded under its key, and
    only misses are queued. *)
Lemma probeBeans_exact table tableName t ids sids c rest :
  Forall2 (fun id sid => PK_ToString id = inr sid) ids sids ->
  NoDup sids ->
  Z.of_nat (length ids) < 2 ^ 63 ->
  forall before p s p' s',
    ids = before ++ rest ->
    store s = c ->
    temps p = (hitOf tableName t c <$> before) ++ replicate (length rest) None ->
    (forall j id sid,
        before !! j = Some id -> PK_ToString id = inr sid ->
        hitOf tableName t c id = None ->
        ididxes p !! sid = Some (Z.of_nat j)) ->
    (forall id, id ∈ ides p ->
                exists j, before !! j = Some id
                          /\ hitOf tableName t c id = None) ->
    probeBeans table tableName t (Z.of_nat (length before)) rest p s
    = (Ok p', s') ->
    store s' = c /\ dest s' = dest s
    /\ temps p' = hitOf tableName t c <$> ids
    /\ (forall j id sid,
           ids !! j = Some id -> PK_ToString id = inr sid ->
           hitOf tableName t c id = None ->
           ididxes p' !! sid = Some (Z.of_nat j))
    /\ (forall id, id ∈ ides p' ->
                   exists j, ids !! j = Some id
                             /\ hitOf tableName t c id = None).
Proof.
  intros Hall Hnd Hlen.
  induction rest as [|id rest IH];
    intros before p s p' s' Hids Hst Htemps Hidx Hides Hrun.
  - inversion Hrun; subst. simpl in Htemps. rewrite app_nil_r in *. done.
  - cbn [probeBeans] in Hrun.
    apply bind_Ok_inv in Hrun as (p1 & s1 & Hone & Hrun).
    assert (Hid : ids !! length before = Some id).
    { rewrite Hids. by rewrite list_lookup_middle. }
    apply probeBean_exact in Hone as (Hst1 & Hd1 & sid & Hsid & Hone).
    rewrite Hst in Hone.
    rewrite GoInt_incr_small in Hrun.
    2:{ unfold GoInt.max_int. rewrite Hids, length_app in Hlen.
        simpl in Hlen. lia. }
    replace (Z.of_nat (length before) + 1)
      with (Z.of_nat (length (before ++ [id]))) in Hrun
      by (rewrite length_app; simpl; lia).
    assert (Hids' : ids = (before ++ [id]) ++ rest) by (by rewrite <- app_assoc).
    assert (Hlook : forall j id', (before ++ [id]) !! j = Some id' ->
                                  ids !! j = Some id').
    { intros j id' Hj. rewrite Hids'. by apply lookup_app_l_Some. }
    destruct (hitOf tableName t c id) as [b|] eqn:Hhit.
    + destruct Hone as (Hrange & Htemps1 & Hidx1 & Hides1).
      destruct (IH (before ++ [id]) p1 s1 p' s' Hids' ltac:(congruence))
        as (Hst2 & Hd2 & Hrest); [| | |done|].
      * rewrite Htemps1, Htemps. cbn [replicate length].
        rewrite insert_app_r_alt by (rewrite length_fmap; lia).
        rewrite length_fmap, Nat.sub_diag. simpl.
        rewrite fmap_app. simpl. rewrite Hhit. by rewrite <- app_assoc.
      * intros j id' sid' Hj Hsid' Hmiss. rewrite Hidx1.
        apply lookup_app_Some in Hj as [Hj|[Hge Hj]]; [by eapply Hidx|].
        apply list_lookup_singleton_Some in Hj as [_ <-]. congruence.
      * intros id' Hin. rewrite Hides1 in Hin.
        destruct (Hides id' Hin) as (j & Hj & Hmiss).
        exists j. split; [|done]. by apply lookup_app_l_Some.
      * split; [done|]. split; [congruence|]. done.
    + destruct Hone as (Htemps1 & Hidx1 & Hides1).
      destruct (IH (before ++ [id]) p1 s1 p' s' Hids' ltac:(congruence))
        as (Hst2 & Hd2 & Hrest); [| | |done|].
      * rewrite Htemps1, Htemps. cbn [replicate length].
        rewrite fmap_app. simpl. rewrite Hhit. by rewrite <- app_assoc.
      * intros j id' sid' Hj Hsid' Hmiss. rewrite Hidx1.
        apply lookup_app_Some in Hj as [Hj|[Hge Hj]].
        -- assert (Hne : sid <> sid').
           { intros <-.
             assert (Hj' : ids !! j = Some id').
             { apply Hlook. by apply lookup_app_l_Some. }
             pose proof (same_key_same_index ids sids _ _ _ _ _ Hall Hnd
                           Hj' Hid Hsid' Hsid) as ->.
             apply lookup_lt_Some in Hj. lia. }
           rewrite lookup_insert_ne by done. by eapply Hidx.
        -- apply list_lookup_singleton_Some in Hj as [Hj <-].
           assert (j = length before) as -> by lia.
           rewrite Hsid in Hsid'. injection Hsid' as <-.
           by rewrite lookup_insert_eq.
      * intros id' Hin. rewrite Hides1 in Hin.
        apply elem_of_app in Hin as [Hin|Hin].
        -- destruct (Hides id' Hin) as (j & Hj & Hmiss).
           exists j. split; [|done]. by apply lookup_app_l_Some.
        -- apply list_elem_of_singleton in Hin as ->.
           exists (length before). split; [|done].
           by rewrite list_lookup_middle.
      * split; [done|]. split; [congruence|]. done.
Qed.

Lemma beansOf_cons rv b vs :
  payload rv = PBean b -> beansOf (rv :: vs) = b :: beansOf vs.
Proof. intros Hpay. unfold beansOf. simpl. by rewrite Hpay. Qed.

(** The placement of the fetched beans, exactly: slot [j] ends with the
    last fetched bean that lands on [j], or as it was. *)
Lemma storeBeans_exact table tableName ididxes0 vs :
  forall temps0 s temps' s',
    storeBeans table tableName ididxes0 vs temps0 s = (Ok temps', s') ->
    dest s' = dest s
    /\ length temps' = length temps0
    /\ Forall (fun b => is_Some (keyOf table b)) (beansOf vs)
    /\ forall j,
        temps' !! j
        = match last (filter (fun b => landing table ididxes0 b = j)
                             (beansOf vs)) with
          | Some b => Some (Some b)
          | None => temps0 !! j
          end.
Proof.
  induction vs as [|rv vs IH]; intros temps0 s temps' s' Hrun.
  - inversion Hrun; subst. split_and!; done.
  - cbn [storeBeans] in Hrun.
    apply bind_Ok_inv in Hrun as (bean & s1 & Hbean & Hrun).
    destruct (payload rv) as [b|cells] eqn:Hpay; [|discriminate].
    inversion Hbean; subst bean s1.
    apply bind_Ok_inv in Hrun as (id & s2 & Hid & Hrun).
    apply lift_Ok_inv in Hid as [Hid ->].
    apply bind_Ok_inv in Hrun as (sid & s3 & Hsid & Hrun).
    apply lift_Ok_inv in Hsid as [Hsid ->].
    apply bind_Ok_inv in Hrun as (temps1 & s4 & Hset & Hrun).
    apply setTemp_Ok_inv in Hset as (Hrange & -> & ->).
    rewrite bind_logf in Hrun.
    rewrite (bind_Ok _ _ _ _ _ (PutBean_run _ _ _ _)) in Hrun.
    apply IH in Hrun as (Hd & Hlen & Hkeys & Hslots).
    simpl in Hd.
    assert (Hkey : keyOf table b = Some sid).
    { unfold keyOf. by rewrite Hid, Hsid. }
    assert (Hland : landing table ididxes0 b
                    = Z.to_nat (default 0 (ididxes0 !! sid))).
    { unfold landing. by rewrite Hkey. }
    rewrite (beansOf_cons rv b vs Hpay).
    split; [done|]. split; [by rewrite Hlen, length_insert|].
    split; [constructor; [by rewrite Hkey|done]|].
    intros j. rewrite Hslots.
    destruct (decide (landing table ididxes0 b = j)) as [Hj|Hj].
    + rewrite filter_cons_True by exact Hj.
      destruct (filter _ (beansOf vs)) as [|b' l _] using rev_ind.
      * simpl. rewrite <- Hj, Hland. rewrite list_lookup_insert_eq by lia. done.
      * rewrite last_snoc. rewrite app_comm_cons, last_snoc. done.
    + rewrite filter_cons_False by exact Hj.
      destruct (last _); [done|].
      rewrite list_lookup_insert_ne; [done|]. by rewrite <- Hland.
Qed.

(** Where the fetched beans land, in an environment where the keys of the
    resolved ids are pairwise distinct and the backfill returns only rows
    whose key was asked for. *)
Lemma landing_index table tableName t ids sids c pr vs b :
  Forall2 (fun id sid => PK_ToString id = inr sid) ids sids ->
  NoDup sids ->
  (forall j id sid,
      ids !! j = Some id -> PK_ToString id = inr sid ->
      hitOf tableName t c id = None ->
      ididxes pr !! sid = Some (Z.of_nat j)) ->
  (forall id, id ∈ ides pr ->
              exists j, ids !! j = Some id /\ hitOf tableName t c id = None) ->
  (forall b sid,
      b ∈ beansOf vs -> keyOf table b = Some sid ->
      exists id, id ∈ ides pr /\ PK_ToString id = inr sid) ->
  Forall (fun b => is_Some (keyOf table b)) (beansOf vs) ->
  b ∈ beansOf vs ->
  exists i id sid,
    keyOf table b = Some sid
    /\ ids !! i = Some id /\ PK_ToString id = inr sid
    /\ hitOf tableName t c id = None
    /\ landing table (ididxes pr) b = i.
Proof.
  intros Hall Hnd Hidx Hides Hasked Hkeys Hb.
  rewrite Forall_forall in Hkeys. destruct (Hkeys b Hb) as [sid Hsid].
  destruct (Hasked b sid Hb Hsid) as (id & Hin & Hid).
  destruct (Hides id Hin) as (i & Hi & Hmiss).
  exists i, id, sid. split_and!; try done.
  unfold landing. rewrite Hsid, (Hidx i id sid Hi Hid Hmiss). simpl.
  by rewrite Nat2Z.id.
Qed.

Lemma last_filter_unique {A} (P : A -> Prop) `{forall x, Decision (P x)}
      (l1 l2 : list A) :
  l1 ≡ₚ l2 ->
  (length (filter P l2) <= 1)%nat ->
  last (filter P l1) = last (filter P l2).
Proof.
  intros Hperm Hlen.
  assert (Hf : filter P l1 ≡ₚ filter P l2) by (by rewrite Hperm).
  destruct (filter P l2) as [|a [|a' l]]; simpl in Hlen; [| |lia].
  - apply Permutation_nil_r in Hf. by rewrite Hf.
  - apply Permutation_singleton_r in Hf. by rewrite Hf.
Qed.

Lemma filter_key_unique {A} (key : A -> option string) (sid : string)
      (l : list A) :
  NoDup (key <$> l) ->
  (length (filter (fun x => key x = Some sid) l) <= 1)%nat.
Proof.
  induction l as [|x l IH]; [simpl; lia|].
  rewrite fmap_cons, NoDup_cons. intros [Hx Hnd].
  destruct (decide (key x = Some sid)) as [Hk|Hk].
  - rewrite filter_cons_True by done.
    rewrite (filter_none (fun x => key x = Some sid) l); [simpl; lia|].
    intros y Hy Hky. apply Hx. rewrite Hk, <- Hky.
    by apply list_elem_of_fmap_2.
  - rewrite filter_cons_False by done. by apply IH.
Qed.

(** C2. Take a cache-assisted call into a settable slice that succeeds,
    in an environment where the key strings of the resolved ids are
    pairwise distinct and every row that the backfill query returns has the
    key of an id that was queued for it.  Then the slice receives, in the
    order of the id list, the bean of each id: its cache hit when the probe
    hit, else the row that the backfill returned for its key; an id that
    has neither adds nothing.  The position of a bean is that of its id,
    not that of its row in the answer of the backfill: when the backfill
    returns each key once, any other order of its rows gives the same
    output.  Direct materialisation appends the rows in the order of the
    cursor, for struct elements (through [rows2Beans] and
    [executeProcessors], which are modelled from the spec) and for
    non-struct elements (the loop of lines 312-331) alike. *)
Theorem output_order
        find_rec session table tableName t x ctype ids sids s s' items
        pr sb vs sc :
  Indirect_ValueOf x = Some (ctype, true) ->
  KindOf ctype = KSlice ->
  Z.of_nat (length ids) < 2 ^ 63 ->
  dest s = CSlice items ->
  Forall2 (fun id sid => PK_ToString id = inr sid) ids sids ->
  NoDup sids ->
  probeBeans table tableName t 0 ids
             (mkProbe ∅ [] (replicate (length ids) None)) s = (Ok pr, sb) ->
  backfillRows find_rec session table tableName t pr sb = (Ok vs, sc) ->
  (forall b sid,
      b ∈ beansOf vs -> keyOf table b = Some sid ->
      exists id, id ∈ ides pr /\ PK_ToString id = inr sid) ->
  assemble find_rec session table tableName t x ids s = (Ok tt, s') ->
  dest s'
  = CSlice (items
              ++ (beanElement t
                    <$> omap (beanFor table tableName t (store s) vs) ids))
  /\ (forall vs',
         beansOf vs' ≡ₚ beansOf vs ->
         NoDup (keyOf table <$> beansOf vs) ->
         omap (beanFor table tableName t (store s) vs') ids
         = omap (beanFor table tableName t (store s) vs) ids)
  /\ (forall table0 ctype0 sql args s0 rows cols tys tb cs bs items0,
         KindOf ctype0 = KSlice ->
         KindOf (materialised ctype0) = KStruct ->
         db_query sql args = inr rows ->
         rows_columns rows = inr cols ->
         rows_types rows = inr tys ->
         ParseWithCache (materialised ctype0) = inr tb ->
         ParseColumnsSchema cols tys (Some tb) = Some cs ->
         Forall2 (row_bean tb cs (materialised ctype0)) (rows_data rows) bs ->
         rows_err rows = None ->
         dest s0 = CSlice items0 ->
         dest (noCacheFind table0 (ctype0, true) sql args s0).2
         = CSlice (items0 ++ (asElement (holdsPointers ctype0) ∘ PBean <$> bs)))
  /\ (forall table0 ctype0 sql args s0 rows cols tys cells items0,
         KindOf ctype0 = KSlice ->
         KindOf (materialised ctype0) <> KStruct ->
         KindOf (materialised ctype0) <> KPtr ->
         db_query sql args = inr rows ->
         rows_columns rows = inr cols ->
         rows_types rows = inr tys ->
         Forall2 (fun row c => scanValue (materialised ctype0) cols row = inr c)
                 (rows_data rows) cells ->
         rows_err rows = None ->
         dest s0 = CSlice items0 ->
         dest (noCacheFind table0 (ctype0, true) sql args s0).2
         = CSlice (items0 ++ (asElement (holdsPointers ctype0) ∘ PRaw <$> cells))).
Proof.
  intros Hx Hk Hlen Hd Hall Hnd Hprobe Hfetch Hasked Hrun.
  split; [|split; [|split]].
  - unfold assemble in Hrun.
    rewrite (bind_Ok _ _ _ _ _ Hprobe) in Hrun.
    apply bind_Ok_inv in Hrun as (temps' & s3 & Hback & Hrun).
    rewrite backfill_rows, (bind_Ok _ _ _ _ _ Hfetch) in Hback.
    apply storeBeans_exact in Hback as (Hd3 & Hlen3 & Hkeys & Hslots).
    destruct (probeBeans_exact table tableName t ids sids (store s) ids
                Hall Hnd Hlen []
                (mkProbe ∅ [] (replicate (length ids) None)) s pr sb
                eq_refl eq_refl)
      as (Hst2 & Hd2 & Htemps & Hidx & Hides).
    { reflexivity. }
    { intros j id sid Hj. by rewrite lookup_nil in Hj. }
    { intros id Hin. by apply not_elem_of_nil in Hin. }
    { exact Hprobe. }
    assert (Hland : forall b, b ∈ beansOf vs ->
              exists i id sid,
                keyOf table b = Some sid
                /\ ids !! i = Some id /\ PK_ToString id = inr sid
                /\ hitOf tableName t (store s) id = None
                /\ landing table (ididxes pr) b = i).
    { intros b. by eapply landing_index. }
    assert (Htemps' :
      temps' = beanFor table tableName t (store s) vs <$> ids).
    { apply list_eq. intros j. rewrite list_lookup_fmap.
      destruct (ids !! j) as [id|] eqn:Hj; simpl.
      - destruct (Forall2_lookup_l _ _ _ _ _ Hall Hj) as (sid & _ & Hsid).
        rewrite Hslots, Htemps, list_lookup_fmap, Hj. simpl.
        unfold beanFor. rewrite Hsid.
        destruct (hitOf tableName t (store s) id) as [b0|] eqn:Hhit.
        + rewrite filter_none; [done|].
          intros b Hb Hlands.
          destruct (Hland b Hb) as (i & id' & sid' & _ & Hi & _ & Hmiss & Hl).
          assert (i = j) as -> by congruence.
          rewrite Hj in Hi. injection Hi as <-. congruence.
        + unfold fetchedFor.
          rewrite (filter_ext_elem
                     (fun b => landing table (ididxes pr) b = j)
                     (fun b => keyOf table b = Some sid)).
          * by destruct (last _).
          * intros b Hb.
            destruct (Hland b Hb) as (i & id' & sid' & Hkey & Hi & Hsid' & _ & Hl).
            split.
            -- intros Hlands. assert (i = j) as -> by congruence.
               rewrite Hj in Hi. injection Hi as <-. congruence.
            -- intros Hkey'. rewrite Hkey in Hkey'. injection Hkey' as ->.
               rewrite Hl.
               eapply (same_key_same_index ids sids); eauto.
      - apply lookup_ge_None. rewrite Hlen3, Htemps, length_fmap.
        by apply lookup_ge_None. }
    rewrite Hx in Hrun.
    rewrite (composeResult_slice t ctype ids temps' 0 s3 items Hk) in Hrun.
    2:{ rewrite Hd3. apply backfillRows_dest in Hfetch. congruence. }
    inversion Hrun; subst s'. simpl. by rewrite Htemps', present_fmap.
  - intros vs' Hperm Hkeys.
    apply list_omap_ext_elem. intros id _. unfold beanFor.
    destruct (hitOf tableName t (store s) id); [done|].
    destruct (PK_ToString id) as [|sid]; [done|]. unfold fetchedFor.
    apply last_filter_unique; [done|]. by apply filter_key_unique.
  - intros. by erewrite noCacheFind_slice_struct.
  - intros. by erewrite noCacheFind_slice_raw.
Qed.

End Order.

(** ** Cache invalidation on insert *)

Section Invalidation.
Context `{GoStrings} `{Collaborators}.

Lemma ClearIds_run table s :
  ClearIds table s
  = (Ok tt,
     emit (EvClearIds table)
          (set_store (mkCacheStore (delete table (cache_ids (store s)))
                                   (cache_beans (store s))) s)).
Proof. reflexivity. Qed.

(** [cacheInsert] with the cache in use and a cacher for the table: the
    whole id-list namespace of the table is dropped, the id lists of the
    other tables and all the beans stay. *)
Lemma cacheInsert_clears session table s :
  UseCache (statement session) = true ->
  GetCacher table = true ->
  exists s',
    cacheInsert session table s = (Ok tt, s')
    /\ trace s' = trace s ++ [EvLog Debug "[cache] clear SQL"; EvClearIds table]
    /\ ids_of (store s') table = ∅
    /\ (forall other, other <> table ->
                      ids_of (store s') other = ids_of (store s) other)
    /\ cache_beans (store s') = cache_beans (store s)
    /\ dest s' = dest s.
Proof.
  intros Huse Hcacher. unfold cacheInsert. rewrite Huse, Hcacher. simpl.
  rewrite bind_logf, ClearIds_run. eexists. split; [reflexivity|].
  simpl. split_and!; try done.
  - by rewrite <- app_assoc.
  - unfold ids_of. simpl. by rewrite lookup_delete_eq.
  - intros other Hne. unfold ids_of. simpl. by rewrite lookup_delete_ne.
Qed.

Lemma cacheInsert_off session table s :
  UseCache (statement session) = false \/ GetCacher table = false ->
  cacheInsert session table s = (Ok tt, s).
Proof.
  intros [Hoff|Hoff]; unfold cacheInsert; rewrite Hoff; simpl; [done|].
  by destruct (UseCache _).
Qed.

(** The struct path: the write comes first, the invalidation follows. *)
Lemma insertMultipleStruct_order session bean0 beans st sql args affected s :
  SetRefBean (statement session) bean0 = inr st ->
  TableName st <> "" ->
  GenInsertMultipleSQL st (bean0 :: beans) = inr (sql, args) ->
  db_exec sql args = inr affected ->
  UseCache st = true ->
  GetCacher (TableName st) = true ->
  exists s',
    insertMultipleStruct session (bean0 :: beans) s = (Ok affected, s')
    /\ trace s' = trace s ++ [EvExec sql args;
                              EvLog Debug "[cache] clear SQL";
                              EvClearIds (TableName st)]
    /\ ids_of (store s') (TableName st) = ∅.
Proof.
  intros Href Hname Hsql Hexec Huse Hcacher. unfold insertMultipleStruct.
  rewrite Href, lift_inr, bind_ret_l.
  rewrite decide_False by (by destruct (TableName st)).
  rewrite Hsql, lift_inr, bind_ret_l. simpl.
  unfold exec. rewrite bind_assoc, bind_tell, Hexec, lift_inr, bind_ret_l.
  destruct (cacheInsert_clears (with_statement session st) (TableName st)
              (emit (EvExec sql args) s) Huse Hcacher)
    as (s' & Hrun & Htr & Hids & _).
  exists s'. rewrite (bind_Ok _ _ _ _ _ Hrun). split; [done|].
  split; [|done]. rewrite Htr. simpl. by rewrite <- app_assoc.
Qed.

(** C9, what the map path does.  [insertMap] with the cache in use and a
    cacher for the table clears the table's id lists before the statement
    is sent to the database: in the trace of the call the invalidation
    precedes the write, and nothing follows the write.  The id lists of the
    table are gone at the end of the call, those of other tables and the
    beans are kept. *)
Theorem insertMap_invalidates_before_write
        session columns args sql args' affected s :
  TableName (statement session) <> "" ->
  GenInsertMapSQL (statement session) columns args = inr (sql, args') ->
  db_exec (quoter_Replace sql) args' = inr affected ->
  UseCache (statement session) = true ->
  GetCacher (TableName (statement session)) = true ->
  exists s',
    insertMap session columns args s = (Ok affected, s')
    /\ trace s' = trace s ++ [EvLog Debug "[cache] clear SQL";
                              EvClearIds (TableName (statement session));
                              EvExec (quoter_Replace sql) args']
    /\ ids_of (store s') (TableName (statement session)) = ∅
    /\ (forall other, other <> TableName (statement session) ->
                      ids_of (store s') other = ids_of (store s) other)
    /\ cache_beans (store s') = cache_beans (store s).
Proof.
  intros Hname Hsql Hexec Huse Hcacher. unfold insertMap.
  rewrite decide_False by (by destruct (TableName (statement session))).
  rewrite Hsql, lift_inr, bind_ret_l. simpl.
  destruct (cacheInsert_clears session (TableName (statement session)) s
              Huse Hcacher)
    as (s1 & Hrun & Htr & Hids & Hother & Hbeans & _).
  rewrite (bind_Ok _ _ _ _ _ Hrun).
  unfold exec. rewrite bind_assoc, bind_tell, Hexec, lift_inr, !bind_ret_l.
  eexists. split; [reflexivity|]. simpl.
  split_and!; try done.
  rewrite Htr. simpl. by rewrite <- app_assoc.
Qed.

Lemma insertMultipleMap_order session columns argss sql args' affected s :
  TableName (statement session) <> "" ->
  GenInsertMultipleMapSQL (statement session) columns argss = inr (sql, args') ->
  db_exec (quoter_Replace sql) args' = inr affected ->
  UseCache (statement session) = true ->
  GetCacher (TableName (statement session)) = true ->
  exists s',
    insertMultipleMap session columns argss s = (Ok affected, s')
    /\ trace s' = trace s ++ [EvLog Debug "[cache] clear SQL";
                              EvClearIds (TableName (statement session));
                              EvExec (quoter_Replace sql) args'].
Proof.
  intros Hname Hsql Hexec Huse Hcacher. unfold insertMultipleMap.
  rewrite decide_False by (by destruct (TableName (statement session))).
  rewrite Hsql, lift_inr, bind_ret_l. simpl.
  destruct (cacheInsert_clears session (TableName (statement session)) s
              Huse Hcacher)
    as (s1 & Hrun & Htr & _).
  rewrite (bind_Ok _ _ _ _ _ Hrun).
  unfold exec. rewrite bind_assoc, bind_tell, Hexec, lift_inr, !bind_ret_l.
  eexists. split; [reflexivity|]. simpl.
  rewrite Htr. simpl. by rewrite <- app_assoc.
Qed.

(** [ClearCacheBean]: the id lists of the bean's table and the one bean
    entry go, everything else stays. *)
Lemma ClearCacheBean_scope bean id s :
  GetCacher (FullTableName bean) = true ->
  let s' := (ClearCacheBean bean id s).2 in
  ids_of (store s') (FullTableName bean) = ∅
  /\ beans_of (store s') (FullTableName bean) !! id = None
  /\ (forall other, other <> FullTableName bean ->
                    ids_of (store s') other = ids_of (store s) other
                    /\ beans_of (store s') other = beans_of (store s) other)
  /\ (forall sid, sid <> id ->
                  beans_of (store s') (FullTableName bean) !! sid
                  = beans_of (store s) (FullTableName bean) !! sid).
Proof.
  intros Hcacher. unfold ClearCacheBean. rewrite Hcacher. simpl.
  unfold ids_of, beans_of. simpl. split_and!.
  - by rewrite lookup_delete_eq.
  - rewrite lookup_insert_eq. simpl. by rewrite lookup_delete_eq.
  - intros other Hne. rewrite lookup_delete_ne by done.
    by rewrite lookup_insert_ne.
  - intros sid Hne. rewrite lookup_insert_eq. simpl.
    by rewrite lookup_delete_ne.
Qed.

End Invalidation.

(** ** Repeating a cache-assisted find *)

Section Repeat.
Context `{GoStrings} `{Collaborators}.

Lemma collectIDs_frame table rows :
  forall i ids s r s',
    collectIDs table i ids rows s = (r, s') ->
    store s' = store s /\ dest s' = dest s.
Proof.
  induction rows as [|row rows IH]; intros i ids s r s' Hrun;
    cbn [collectIDs] in Hrun.
  - inversion Hrun; by subst.
  - destruct (decide _); [inversion Hrun; by subst|].
    destruct (pure_scanPK table row) as [r0 Hr0].
    unfold bind in Hrun. rewrite Hr0 in Hrun.
    destruct r0; try (inversion Hrun; by subst). by eapply IH.
Qed.

(** A successful id resolution leaves the id list under the fingerprint,
    and changes neither the beans nor the destination. *)
Lemma resolveIDs_Ok_inv table tableName sqlStr newsql args s ids sa :
  resolveIDs table tableName sqlStr newsql args s = (Ok ids, sa) ->
  ids_of (store sa) tableName !! (newsql, args) = Some ids
  /\ cache_beans (store sa) = cache_beans (store s)
  /\ dest sa = dest s.
Proof.
  unfold resolveIDs, GetCacheSql, GetIds, bind at 1. simpl.
  destruct (ids_of (store s) tableName !! (newsql, args)) as [ids'|] eqn:Hc.
  - intros Hrun. inversion Hrun; subst. done.
  - unfold queryRows. rewrite bind_assoc, bind_tell.
    intros Hrun.
    apply bind_Ok_inv in Hrun as (rows & s1 & Hq & Hrun).
    apply lift_Ok_inv in Hq as [Hq ->].
    apply bind_Ok_inv in Hrun as (ids' & s2 & Hcol & Hrun).
    apply collectIDs_frame in Hcol as [Hst2 Hd2].
    apply bind_Ok_inv in Hrun as ([] & s3 & Herr & Hrun).
    assert (s3 = s2) as ->.
    { unfold rowsErr in Herr. destruct (rows_err rows); inversion Herr; by subst. }
    rewrite bind_logf in Hrun. unfold PutCacheSql, PutIds, bind, ret in Hrun.
    simpl in Hrun. inversion Hrun; subst. simpl.
    unfold ids_of. simpl. rewrite lookup_insert_eq. simpl.
    rewrite lookup_insert_eq. rewrite Hst2, Hd2. done.
Qed.

Lemma prepare_sliceValue session x cb s p :
  (prepare session x cb s).1 = Ok p ->
  Indirect_ValueOf x = Some (p_sliceValue p)
  /\ Elem (p_sliceValue p).1 = Some (p_elemType p).
Proof.
  intros Hp. apply prepare_run in Hp. unfold prepare in Hp.
  destruct (LastError _); [discriminate|].
  destruct (Indirect_ValueOf x) as [sv|]; [|discriminate].
  destruct (negb _ && negb _); [discriminate|].
  apply bind_Ok_inv in Hp as (t & s1 & Ht & Hp).
  apply bind_Ok_inv in Hp as (r & s2 & _ & Hp).
  apply bind_Ok_inv in Hp as (c & s3 & _ & Hp).
  apply bind_Ok_inv in Hp as (sess & s4 & _ & Hp).
  apply bind_Ok_inv in Hp as (q & s5 & _ & Hp).
  inversion Hp; subst. simpl. split; [done|].
  destruct (Elem sv.1); inversion Ht; by subst.
Qed.

Lemma rows2Beans_types tb cs elemType rows :
  forall s pending s',
    rows2Beans tb cs elemType rows s = (Ok pending, s') ->
    s' = s /\ Forall (fun b => bean_type b = elemType) pending.*1.
Proof.
  induction rows as [|row rows IH]; intros s pending s' Hrun;
    cbn [rows2Beans] in Hrun.
  - inversion Hrun; subst. split; [done|]. constructor.
  - apply bind_Ok_inv in Hrun as (r & s1 & Hr & Hrun).
    apply lift_Ok_inv in Hr as [_ ->].
    apply bind_Ok_inv in Hrun as (more & s2 & Hmore & Hrun).
    apply IH in Hmore as [-> Hall].
    inversion Hrun; subst. split; [done|]. simpl. by constructor.
Qed.

Lemma scanRows_slice_inv isPointer elemType fields rows :
  forall s items s',
    dest s = CSlice items ->
    scanRows elemType fields (sliceSetFunc isPointer true) rows s
    = (Ok tt, s') ->
    exists new,
      dest s' = CSlice (items ++ new)
      /\ Forall (fun v => forall b, payload v <> PBean b) new.
Proof.
  induction rows as [|row rows IH]; intros s items s' Hd Hrun;
    cbn [scanRows] in Hrun.
  - inversion Hrun; subst. exists []. by rewrite app_nil_r.
  - apply bind_Ok_inv in Hrun as (cells & s1 & Hc & Hrun).
    apply lift_Ok_inv in Hc as [_ ->].
    unfold sliceSetFunc at 1 in Hrun.
    rewrite (bind_Ok _ _ _ _ _ (appendToSlice_run _ _ _ Hd)) in Hrun.
    destruct (IH (set_dest (CSlice (items ++ [asElement isPointer (PRaw cells)])) s)
                 (items ++ [asElement isPointer (PRaw cells)]) s' eq_refl Hrun)
      as (new & Hd' & Hall).
    exists (asElement isPointer (PRaw cells) :: new).
    rewrite Hd', <- app_assoc. split; [done|].
    constructor; [|done]. intros b. by destruct isPointer.
Qed.

(** What a successful [noCacheFind] into an empty settable slice leaves in
    it: elements that are beans of the materialised type, or no beans. *)
Lemma noCacheFind_slice_types table ctype sql args s s' :
  KindOf ctype = KSlice ->
  dest s = CSlice [] ->
  noCacheFind table (ctype, true) sql args s = (Ok tt, s') ->
  exists vs,
    dest s' = CSlice vs
    /\ Forall (fun v => forall b, payload v = PBean b ->
                                  bean_type b = materialised ctype) vs.
Proof.
  intros Hk Hd Hrun. unfold noCacheFind in Hrun.
  destruct ctype; try discriminate. simpl in Hrun.
  rewrite bind_ret_l in Hrun.
  rewrite (bind_Ok _ _ _ _ _ (elemType_run ctype s)) in Hrun.
  change (if bool_decide (KindOf ctype = KPtr)
          then default ctype (Elem ctype) else ctype)
    with (materialised (TSlice ctype)) in Hrun.
  set (et := materialised (TSlice ctype)) in *.
  destruct (decide (KindOf et = KPtr)); [discriminate|].
  apply bind_Ok_inv in Hrun as (rows & s1 & Hq & Hrun).
  assert (Hd1 : dest s1 = CSlice []).
  { unfold queryRows in Hq. rewrite bind_tell in Hq.
    apply lift_Ok_inv in Hq as [_ ->]. done. }
  apply bind_Ok_inv in Hrun as (fields & s2 & Hf & Hrun).
  apply lift_Ok_inv in Hf as [_ ->].
  apply bind_Ok_inv in Hrun as (types & s3 & Hty & Hrun).
  apply lift_Ok_inv in Hty as [_ ->].
  rewrite bind_ret_l in Hrun.
  destruct (decide (KindOf et = KStruct)).
  - apply bind_Ok_inv in Hrun as (tb & s4 & Htb & Hrun).
    apply lift_Ok_inv in Htb as [_ ->].
    apply bind_Ok_inv in Hrun as (cs & s5 & Hcs & Hrun).
    destruct (ParseColumnsSchema fields types (Some tb)); [|discriminate].
    inversion Hcs; subst.
    apply bind_Ok_inv in Hrun as (pending & s6 & Hpend & Hrun).
    apply rows2Beans_types in Hpend as [-> Hall].
    apply bind_Ok_inv in Hrun as ([] & s7 & Herr & Hrun).
    assert (s7 = s5) as ->.
    { unfold rowsErr in Herr. destruct (rows_err rows); inversion Herr; by subst. }
    rewrite (executeProcessors_slice _ _ _ [] Hd1) in Hrun.
    inversion Hrun; subst. simpl. eexists. split; [reflexivity|].
    apply Forall_fmap. eapply Forall_impl; [exact Hall|].
    intros b Hb b' Hb'. simpl in Hb'.
    destruct (bool_decide _); simpl in Hb'; inversion Hb'; by subst.
  - apply bind_Ok_inv in Hrun as ([] & s4 & Hscan & Hrun).
    destruct (scanRows_slice_inv _ _ _ _ _ [] _ Hd1 Hscan) as (new & Hd' & Hall).
    assert (s' = s4) as ->.
    { unfold rowsErr in Hrun. destruct (rows_err rows); inversion Hrun; by subst. }
    exists new. split; [done|].
    eapply Forall_impl; [exact Hall|]. intros v Hv b Hb. by apply Hv in Hb.
Qed.

Lemma isHit_materialised t b :
  bean_type b = materialised (TSlice t) -> isHit t (Some b) = true.
Proof.
  unfold materialised, isHit. simpl. intros Hb.
  destruct (decide (KindOf t = KPtr)) as [Hk|Hk].
  - rewrite (bool_decide_eq_true_2 _ Hk) in *.
    destruct t; try discriminate. simpl in *. rewrite Hb.
    destruct (bool_decide (t = TPtr t)); simpl; [done|].
    by rewrite bool_decide_eq_true_2.
  - rewrite (bool_decide_eq_false_2 _ Hk) in *. rewrite Hb.
    by rewrite bool_decide_eq_true_2.
Qed.

(** An inner [find] that does not try the cache is a direct
    materialisation: the store is kept, and the fresh slice receives beans
    of the element's struct type only. *)
Lemma direct_find_inv m sess' t s0 s0' :
  (forall p', (prepare sess' (IValue (TPtr (TSlice t))) [] s0).1 = Ok p' ->
              triesCache (p_session p') = false) ->
  dest s0 = CSlice [] ->
  find (S m) sess' (IValue (TPtr (TSlice t))) [] s0 = (Ok tt, s0') ->
  store s0' = store s0
  /\ (exists evs, trace s0' = trace s0 ++ evs
                  /\ Forall (fun e => is_cache_event e = false) evs)
  /\ exists vs,
      dest s0' = CSlice vs
      /\ Forall (fun v => forall b, payload v = PBean b -> isHit t (Some b) = true)
                vs.
Proof.
  intros Hlaw Hd Hrun.
  destruct (prepare sess' (IValue (TPtr (TSlice t))) [] s0) as [r s1] eqn:Hprep.
  destruct r as [p'| | |].
  2-4: (simpl in Hrun; unfold find_body, bind in Hrun; rewrite Hprep in Hrun;
        discriminate).
  assert (Hp : (prepare sess' (IValue (TPtr (TSlice t))) [] s0).1 = Ok p')
    by (by rewrite Hprep).
  rewrite (find_prepared _ _ _ _ _ _ Hp) in Hrun.
  rewrite materialize_direct in Hrun by (by apply Hlaw).
  destruct (prepare_sliceValue _ _ _ _ _ Hp) as [Hsv _]. simpl in Hsv.
  inversion Hsv as [Hsv']. rewrite <- Hsv' in Hrun.
  pose proof (cache_free_noCacheFind (p_table p') (TSlice t, true) (p_sql p')
                (p_args p') s0) as [Hst Htr].
  rewrite Hrun in Hst, Htr. simpl in Hst, Htr.
  split; [done|]. split; [done|].
  destruct (noCacheFind_slice_types (p_table p') (TSlice t) (p_sql p')
              (p_args p') s0 s0' eq_refl Hd Hrun)
    as (vs & Hvs & Hall).
  exists vs. split; [done|].
  eapply Forall_impl; [exact Hall|]. intros v Hv b Hb.
  apply isHit_materialised. by apply Hv.
Qed.

Lemma fetchMissing_inv m sess' t s vs s' :
  (forall s0 p', (prepare sess' (IValue (TPtr (TSlice t))) [] s0).1 = Ok p' ->
                 triesCache (p_session p') = false) ->
  fetchMissing (find (S m)) sess' t s = (Ok vs, s') ->
  store s' = store s /\ dest s' = dest s
  /\ (exists evs, trace s' = trace s ++ evs
                  /\ Forall (fun e => is_cache_event e = false) evs)
  /\ Forall (fun v => forall b, payload v = PBean b -> isHit t (Some b) = true) vs.
Proof.
  intros Hlaw Hrun. unfold fetchMissing in Hrun.
  destruct (find (S m) sess' (IValue (TPtr (TSlice t))) [] (set_dest (CSlice []) s))
    as [[[]| | |] s1] eqn:Hfind; try discriminate.
  destruct (direct_find_inv m sess' t (set_dest (CSlice []) s) s1
              (Hlaw _) eq_refl Hfind)
    as (Hst & Htr & vs' & Hvs & Hall).
  rewrite Hvs in Hrun. inversion Hrun; subst. simpl.
  split; [done|]. split; [done|]. split; done.
Qed.

Lemma probeBean_cached table tableName t ids (k : nat) id p s p' s' :
  ids !! k = Some id ->
  cached_slots table tableName t ids (store s) (temps p) ->
  probeBean table tableName t (Z.of_nat k) id p s = (Ok p', s') ->
  cached_slots table tableName t ids (store s') (temps p').
Proof.
  intros Hid Hslots Hrun. unfold probeBean in Hrun.
  apply bind_Ok_inv in Hrun as (sid & s1 & Hsid & Hrun).
  apply lift_Ok_inv in Hsid as [Hsid ->].
  rewrite (bind_Ok _ _ _ _ _ (GetBean_run tableName sid s)) in Hrun.
  destruct (isHit t (beans_of (store s) tableName !! sid)) eqn:Hhit;
    cbn [negb] in Hrun.
  - destruct (beans_of (store s) tableName !! sid) as [bean|] eqn:Hbean;
      [|discriminate].
    rewrite bind_logf in Hrun.
    apply bind_Ok_inv in Hrun as (pk & s2 & Hpk & Hrun).
    apply lift_Ok_inv in Hpk as [Hpk ->].
    apply bind_Ok_inv in Hrun as (xid & s3 & Hxid & Hrun).
    apply lift_Ok_inv in Hxid as [Hxid ->].
    destruct (decide (sid <> xid)) as [Hne|Heq]; [discriminate|].
    apply dec_stable in Heq. subst xid.
    apply bind_Ok_inv in Hrun as (temps' & s4 & Hset & Hrun).
    apply setTemp_Ok_inv in Hset as (Hrange & -> & ->).
    inversion Hrun; subst. simpl. rewrite Nat2Z.id.
    intros j b Hj. destruct (decide (k = j)) as [<-|Hne].
    + rewrite list_lookup_insert_eq in Hj by lia.
      inversion Hj; subst. exists id, sid. split_and!; try done. by exists pk.
    + rewrite list_lookup_insert_ne in Hj by done. by apply Hslots.
  - inversion Hrun; subst. simpl. exact Hslots.
Qed.

Lemma probeBeans_cached table tableName t ids rest :
  forall before p s p' s',
    ids = before ++ rest ->
    Z.of_nat (length ids) < 2 ^ 63 ->
    cached_slots table tableName t ids (store s) (temps p) ->
    probeBeans table tableName t (Z.of_nat (length before)) rest p s
    = (Ok p', s') ->
    cached_slots table tableName t ids (store s') (temps p').
Proof.
  induction rest as [|id rest IH]; intros before p s p' s' Hids Hlen Hslots Hrun.
  - inversion Hrun; by subst.
  - cbn [probeBeans] in Hrun.
    apply bind_Ok_inv in Hrun as (p1 & s1 & Hone & Hrun).
    assert (Hid : ids !! length before = Some id).
    { rewrite Hids. by rewrite list_lookup_middle. }
    pose proof (probeBean_cached _ _ _ _ _ _ _ _ _ _ Hid Hslots Hone) as Hslots1.
    rewrite GoInt_incr_small in Hrun.
    2:{ unfold GoInt.max_int. rewrite Hids, length_app in Hlen.
        simpl in Hlen. lia. }
    replace (Z.of_nat (length before) + 1)
      with (Z.of_nat (length (before ++ [id]))) in Hrun
      by (rewrite length_app; simpl; lia).
    assert (Hids' : ids = (before ++ [id]) ++ rest) by (by rewrite <- app_assoc).
    exact (IH (before ++ [id]) p1 s1 p' s' Hids' Hlen Hslots1 Hrun).
Qed.

Lemma cached_slots_init table tableName t ids c :
  cached_slots table tableName t ids c (replicate (length ids) None).
Proof.
  intros j b Hj. apply lookup_replicate in Hj as [Hj _]. discriminate.
Qed.

Lemma storeBeans_cached table tableName t ids sids ididxes0 vs :
  forall temps0 s temps' s',
    Forall2 (fun id sid => PK_ToString id = inr sid) ids sids ->
    NoDup sids ->
    slots_ok table ids temps0 ->
    idx_ok ids ididxes0 ->
    cached_slots table tableName t ids (store s) temps0 ->
    (forall v b sid,
        v ∈ vs -> payload v = PBean b -> keyed table b sid ->
        is_Some (ididxes0 !! sid)) ->
    Forall (fun v => forall b, payload v = PBean b -> isHit t (Some b) = true) vs ->
    storeBeans table tableName ididxes0 vs temps0 s = (Ok temps', s') ->
    cached_slots table tableName t ids (store s') temps'
    /\ cache_ids (store s') = cache_ids (store s)
    /\ exists evs, trace s' = trace s ++ evs
                   /\ Forall (fun e => is_query e = false) evs.
Proof.
  induction vs as [|rv vs IH];
    intros temps0 s temps' s' Hsids Hnodup Hslots Hidx Hcached Hkeys Htyped Hrun.
  - inversion Hrun; subst. split; [done|]. split; [done|].
    exists []. by rewrite app_nil_r.
  - cbn [storeBeans] in Hrun.
    apply bind_Ok_inv in Hrun as (bean & s1 & Hbean & Hrun).
    destruct (payload rv) as [b|cells] eqn:Hpay; [|discriminate].
    inversion Hbean; subst bean s1.
    apply bind_Ok_inv in Hrun as (id & s2 & Hid & Hrun).
    apply lift_Ok_inv in Hid as [Hid ->].
    apply bind_Ok_inv in Hrun as (sid & s3 & Hsid & Hrun).
    apply lift_Ok_inv in Hsid as [Hsid ->].
    apply bind_Ok_inv in Hrun as (temps1 & s4 & Hset & Hrun).
    apply setTemp_Ok_inv in Hset as (Hrange & -> & ->).
    rewrite bind_logf in Hrun.
    rewrite (bind_Ok _ _ _ _ _ (PutBean_run _ _ _ _)) in Hrun.
    assert (Hkey : keyed table b sid) by (by exists id).
    destruct (Hkeys rv b sid) as [k Hk]; [by left|done|done|].
    rewrite Hk in *. simpl in Hrange, Hrun.
    destruct (Hidx _ _ Hk) as (id' & Hk0 & Hid' & Hsid').
    inversion Htyped as [|? ? Hty Htyped']; subst.
    set (s5 := emit (EvPutBean tableName sid) _) in Hrun.
    assert (Hcached' : cached_slots table tableName t ids (store s5)
                                    (<[Z.to_nat k := Some b]> temps0)).
    { intros j b' Hj. destruct (decide (Z.to_nat k = j)) as [<-|Hne].
      - rewrite list_lookup_insert_eq in Hj by lia. inversion Hj; subst b'.
        exists id', sid. split_and!; try done; [|by apply Hty].
        subst s5. unfold beans_of. simpl. rewrite lookup_insert_eq. simpl.
        by rewrite lookup_insert_eq.
      - rewrite list_lookup_insert_ne in Hj by done.
        destruct (Hcached _ _ Hj) as (idj & sidj & Hidj & Hsidj & Hkj & Hbj & Hhj).
        exists idj, sidj. split_and!; try done.
        subst s5. unfold beans_of. simpl. rewrite lookup_insert_eq. simpl.
        rewrite lookup_insert_ne; [done|].
        intros ->. apply Hne.
        destruct (Forall2_lookup_l _ _ _ _ _ Hsids Hid') as (sk & Hsk & Hsk').
        destruct (Forall2_lookup_l _ _ _ _ _ Hsids Hidj) as (sj & Hsj & Hsj').
        assert (sk = sidj) by congruence. assert (sj = sidj) by congruence.
        subst. by eapply NoDup_lookup. }
    destruct (IH _ _ _ _ Hsids Hnodup
                 (slots_ok_insert _ _ _ _ _ _ _ Hslots Hid' Hsid' Hkey)
                 Hidx Hcached'
                 ltac:(intros; eapply Hkeys; eauto; by right) Htyped' Hrun)
      as (Hc & Hids & evs & Htr & Hevs).
    split; [done|]. split; [by rewrite Hids|].
    exists (EvLog Debug "[cache] cache bean" :: EvPutBean tableName sid :: evs).
    split; [|by repeat constructor].
    rewrite Htr. subst s5. simpl. by rewrite <- !app_assoc.
Qed.

Lemma backfill_cached m session table tableName t ids sids p s temps' s' :
  Forall2 (fun id sid => PK_ToString id = inr sid) ids sids ->
  NoDup sids ->
  slots_ok table ids (temps p) ->
  idx_ok ids (ididxes p) ->
  cached_slots table tableName t ids (store s) (temps p) ->
  (forall st s0 p',
      backfillStatement table (ides p) s = (Ok st, s) ->
      (prepare (backfillSession session st tableName)
               (IValue (TPtr (TSlice t))) [] s0).1 = Ok p' ->
      triesCache (p_session p') = false) ->
  (forall st vs s3,
      backfillStatement table (ides p) s = (Ok st, s) ->
      fetchMissing (find (S m)) (backfillSession session st tableName) t s
      = (Ok vs, s3) ->
      forall v b sid,
        v ∈ vs -> payload v = PBean b -> keyed table b sid ->
        is_Some (ididxes p !! sid)) ->
  backfill (find (S m)) session table tableName t p s = (Ok temps', s') ->
  slots_ok table ids temps'
  /\ cached_slots table tableName t ids (store s') temps'
  /\ cache_ids (store s') = cache_ids (store s)
  /\ dest s' = dest s.
Proof.
  intros Hsids Hnodup Hslots Hidx Hcached Hlaw Hkeys Hrun.
  pose proof Hrun as Hrun0.
  apply backfill_inv with (ids := ids) in Hrun0 as [Hslots' Hd']; try done.
  split; [done|]. unfold backfill in Hrun.
  destruct (decide (0 < length (ides p))%nat); [|inversion Hrun; by subst].
  apply bind_Ok_inv in Hrun as (st & s1 & Hst & Hrun).
  destruct (pure_run _ _ _ _ (pure_backfillStatement table (ides p)) Hst)
    as [-> _].
  apply bind_Ok_inv in Hrun as (vs & s2 & Hvs & Hrun).
  destruct (fetchMissing_inv _ _ _ _ _ _
              (fun s0 p' => Hlaw st s0 p' Hst) Hvs)
    as (Hst2 & Hd2 & _ & Htyped).
  rewrite <- Hst2 in Hcached.
  destruct (storeBeans_cached _ _ _ _ _ _ _ _ _ _ _ Hsids Hnodup Hslots Hidx
              Hcached (Hkeys _ _ _ Hst Hvs) Htyped Hrun)
    as (Hcached' & Hids' & _).
  split; [done|]. split; [congruence|done].
Qed.

Lemma probeBeans_all_hits table tableName t ids rest :
  forall before (bs_before bs_rest : list Bean) s,
    ids = before ++ rest ->
    length bs_before = length before ->
    Z.of_nat (length ids) < 2 ^ 63 ->
    Forall2 (fun id b =>
               exists sid,
                 PK_ToString id = inr sid /\ keyed table b sid
                 /\ beans_of (store s) tableName !! sid = Some b
                 /\ isHit t (Some b) = true) rest bs_rest ->
    exists s',
      probeBeans table tableName t (Z.of_nat (length before)) rest
                 (mkProbe ∅ [] ((Some <$> bs_before)
                                  ++ replicate (length rest) None)) s
      = (Ok (mkProbe ∅ [] (Some <$> (bs_before ++ bs_rest))), s')
      /\ store s' = store s /\ dest s' = dest s
      /\ exists evs, trace s' = trace s ++ evs
                     /\ Forall (fun e => is_query e = false) evs.
Proof.
  induction rest as [|id rest IH];
    intros before bs_before bs_rest s Hids Hlb Hlen Hall;
    inversion Hall as [|? b ? bs_rest' (sid & Hsid & (pk & Hpk & Hxid) & Hbean & Hhit) Hrest];
    subst.
  - exists s. simpl. rewrite !app_nil_r. split; [done|]. split; [done|].
    split; [done|]. exists []. by rewrite app_nil_r.
  - cbn [probeBeans].
    assert (Hrange : 0 <= Z.of_nat (length before)
                     < Z.of_nat (length (temps
                         (mkProbe ∅ [] ((Some <$> bs_before)
                            ++ replicate (length (id :: rest)) None))))).
    { simpl. rewrite length_app, length_fmap. simpl. lia. }
    rewrite (bind_Ok _ _ _ _ _
               (probeBean_hit table tableName t _ id _ s sid b pk Hsid Hbean
                              Hhit Hpk Hxid Hrange)).
    simpl temps. simpl ididxes. simpl ides.
    rewrite GoInt_incr_small.
    2:{ unfold GoInt.max_int. rewrite length_app in Hlen. simpl in Hlen. lia. }
    replace (Z.of_nat (length before) + 1)
      with (Z.of_nat (length (before ++ [id])))
      by (rewrite length_app; simpl; lia).
    rewrite Nat2Z.id.
    replace (<[length before := Some b]>
               ((Some <$> bs_before) ++ replicate (length (id :: rest)) None))
      with ((Some <$> (bs_before ++ [b])) ++ replicate (length rest) None).
    2:{ rewrite <- Hlb, <- (length_fmap Some bs_before).
        rewrite insert_app_r_alt by lia. rewrite Nat.sub_diag. simpl.
        by rewrite fmap_app, <- app_assoc. }
    set (s1 := emit _ (emit _ s)).
    destruct (IH (before ++ [id]) (bs_before ++ [b]) bs_rest' s1)
      as (s' & Hrun & Hst & Hd & evs & Htr & Hevs).
    + by rewrite <- app_assoc.
    + rewrite !length_app. simpl. lia.
    + done.
    + exact Hrest.
    + exists s'. rewrite Hrun, <- app_assoc. split; [done|].
      split; [done|]. split; [done|].
      exists (EvGetBean tableName sid :: EvLog Debug "[cache] cache hit bean"
                :: evs).
      split; [|by repeat constructor].
      rewrite Htr. subst s1. simpl. by rewrite <- !app_assoc.
Qed.

Lemma filled_slots (temps0 : list (option Bean)) :
  Forall (fun slot => slot <> None) temps0 ->
  temps0 = Some <$> present temps0.
Proof.
  induction 1 as [|[b|] temps0 Hx _ IH]; [done| |done].
  unfold present in *. simpl. f_equal. exact IH.
Qed.

Lemma present_Some (bs : list Bean) : present (Some <$> bs) = bs.
Proof.
  unfold present. induction bs as [|b bs IH]; [done|]. simpl. f_equal. exact IH.
Qed.

Lemma warnings_Some (bs : list Bean) : warnings (Some <$> bs) = [].
Proof.
  unfold warnings. induction bs as [|b bs IH]; [done|]. simpl. exact IH.
Qed.

(** C8. Take a cache-assisted [find] into a settable slice that resolves the
    ids, probes them and fills every slot (no id is skipped), in an
    environment where the keys of the resolved ids are pairwise distinct, the
    backfill query returns only rows that were asked for, and the statement
    of the backfill does not use the cache.  Then the call succeeds and
    leaves the id list in the cache under [(table, rewritten SQL,
    arguments)]; the same call run again on the resulting cache (with the
    same database, and the destination as it was before the first call)
    succeeds with the same content of the destination, and its trace holds
    no query at all: the id list is read from the cache entry and every
    bean is a cache hit. *)
Theorem repeated_find_is_served_from_cache
        n session x cb s p table ctype items ids sa pr sb temps1 sc sids :
  (prepare session x cb s).1 = Ok p ->
  let sess := p_session p in
  let tableName := TableName (statement sess) in
  let fsql := fold_left (fun s filter => filter s) Filters (p_sql p) in
  let newsql := ConvertIDSQL (statement sess) fsql in
  let t := p_elemType p in
  triesCache sess = true ->
  IndexNoCase (p_sql p) "having" = -1 ->
  IndexNoCase (p_sql p) "group by" = -1 ->
  newsql <> "" ->
  RefTable (statement sess) = Some table ->
  Indirect_ValueOf x = Some (ctype, true) ->
  KindOf ctype = KSlice ->
  dest s = CSlice items ->
  Z.of_nat (length ids) < 2 ^ 63 ->
  resolveIDs table tableName fsql newsql (p_args p) s = (Ok ids, sa) ->
  probeBeans table tableName t 0 ids
             (mkProbe ∅ [] (replicate (length ids) None)) sa = (Ok pr, sb) ->
  backfill (find (S n)) sess table tableName t pr sb = (Ok temps1, sc) ->
  Forall (fun slot => slot <> None) temps1 ->
  Forall2 (fun id sid => PK_ToString id = inr sid) ids sids ->
  NoDup sids ->
  (forall st s0 p',
      backfillStatement table (ides pr) sb = (Ok st, sb) ->
      (prepare (backfillSession sess st tableName)
               (IValue (TPtr (TSlice t))) [] s0).1 = Ok p' ->
      triesCache (p_session p') = false) ->
  (forall st vs s3,
      backfillStatement table (ides pr) sb = (Ok st, sb) ->
      fetchMissing (find (S n)) (backfillSession sess st tableName) t sb
      = (Ok vs, s3) ->
      forall v b sid,
        v ∈ vs -> payload v = PBean b -> keyed table b sid ->
        is_Some (ididxes pr !! sid)) ->
  exists s1,
    find (S (S n)) session x cb s = (Ok tt, s1)
    /\ ids_of (store s1) tableName !! (newsql, p_args p) = Some ids
    /\ exists s2,
        find (S (S n)) session x cb (set_dest (CSlice items) s1) = (Ok tt, s2)
        /\ dest s2 = dest s1
        /\ exists evs,
            trace s2 = trace s1 ++ evs
            /\ Forall (fun e => is_query e = false) evs.
Proof.
  intros Hp sess tableName fsql newsql t Htries Hh Hg Hnew Htable Hx Hk Hd Hlen
         Hres Hprobe Hback Hfilled Hsids Hnodup Hlaw Hkeys.
  destruct (triesCache_true _ Htries) as (Hcan & Hcacher & _).
  pose proof (fun s0 => cacheFind_eligible (find (S n)) sess t (p_sql p) x
                (p_args p) s0 table Hcan Hcacher Hh Hg Hnew Htable) as Hcf.
  fold tableName fsql newsql in Hcf.
  destruct (resolveIDs_Ok_inv _ _ _ _ _ _ _ _ Hres) as (Hids_a & _ & Hd_a).
  destruct (probeBeans_inv table tableName t ids ids []
              (mkProbe ∅ [] (replicate (length ids) None)) sa pr sb eq_refl Hlen
              (slots_ok_init table ids) (idx_ok_init ids) Hprobe)
    as (Hslots & Hidx & Hd_b & Hst_b).
  pose proof (probeBeans_cached table tableName t ids ids []
                (mkProbe ∅ [] (replicate (length ids) None)) sa pr sb eq_refl
                Hlen (cached_slots_init table tableName t ids (store sa))
                Hprobe) as Hcached.
  destruct (backfill_cached n sess table tableName t ids sids pr sb temps1 sc
              Hsids Hnodup Hslots Hidx Hcached Hlaw Hkeys Hback)
    as (Hslots_c & Hcached_c & Hids_c & Hd_c).
  assert (Hd_sc : dest sc = CSlice items) by congruence.
  (* the first call *)
  set (s1 := mkState (store sc) (trace sc ++ warnings temps1)
                     (CSlice (items ++ (beanElement t <$> present temps1)))).
  assert (Hfirst : cacheFind (find (S n)) sess t (p_sql p) x (p_args p) s
                   = (Ok tt, s1)).
  { rewrite Hcf, (bind_Ok _ _ _ _ _ Hres). unfold assemble.
    rewrite (bind_Ok _ _ _ _ _ Hprobe), (bind_Ok _ _ _ _ _ Hback), Hx.
    by apply composeResult_slice. }
  exists s1. split.
  { rewrite (find_prepared _ _ _ _ _ _ Hp).
    by apply materialize_cached. }
  assert (Hstored : ids_of (store s1) tableName !! (newsql, p_args p) = Some ids).
  { subst s1. unfold ids_of in *. simpl. rewrite Hids_c, Hst_b. exact Hids_a. }
  split; [done|].
  (* the second call *)
  set (s1' := set_dest (CSlice items) s1).
  assert (Hp' : (prepare session x cb s1').1 = Ok p).
  { apply prepare_run in Hp.
    destruct (pure_run _ _ _ _ (pure_prepare session x cb) Hp) as [_ Hall].
    by rewrite Hall. }
  rewrite (find_prepared _ _ _ _ _ _ Hp').
  pose proof (resolveIDs_hit table tableName fsql newsql (p_args p) s1' ids
                Hstored) as Hres2.
  set (s2a := emit _ (emit _ s1')) in Hres2.
  pose proof (filled_slots temps1 Hfilled) as Htemps.
  set (bs := present temps1) in *.
  assert (Hhits :
    Forall2 (fun id b =>
               exists sid,
                 PK_ToString id = inr sid /\ keyed table b sid
                 /\ beans_of (store s2a) tableName !! sid = Some b
                 /\ isHit t (Some b) = true) ids bs).
  { apply Forall2_same_length_lookup_2.
    - destruct Hslots_c as [Hl _]. rewrite Htemps, length_fmap in Hl. done.
    - intros j id b Hid Hb.
      destruct (Hcached_c j b) as (id' & sid & Hid' & Hsid & Hkey & Hbean & Hhit).
      { rewrite Htemps, list_lookup_fmap, Hb. done. }
      exists sid. rewrite Hid in Hid'. inversion Hid'; subst id'.
      split_and!; done. }
  destruct (probeBeans_all_hits table tableName t ids ids [] [] bs s2a eq_refl
              eq_refl Hlen Hhits)
    as (s2b & Hprobe2 & Hst2b & Hd2b & evs & Htr2b & Hevs).
  simpl in Hprobe2.
  assert (Hsecond : cacheFind (find (S n)) sess t (p_sql p) x (p_args p) s1'
                    = (Ok tt,
                       mkState (store s2b) (trace s2b ++ warnings (Some <$> bs))
                               (CSlice (items ++ (beanElement t
                                                    <$> present (Some <$> bs)))))).
  { rewrite Hcf, (bind_Ok _ _ _ _ _ Hres2). unfold assemble.
    rewrite (bind_Ok _ _ _ _ _ Hprobe2). unfold backfill. simpl.
    rewrite bind_ret_l, Hx.
    apply composeResult_slice; [done|]. by rewrite Hd2b. }
  eexists. split.
  { by apply materialize_cached. }
  simpl. split.
  { by rewrite present_Some. }
  exists ([EvGetIds tableName newsql (p_args p);
           EvLog Debug "[cache] cache hit sql"] ++ evs).
  split.
  - rewrite warnings_Some, app_nil_r, Htr2b. subst s2a s1'. simpl.
    by rewrite <- !app_assoc.
  - apply Forall_app. split; [by repeat constructor|done].
Qed.

End Repeat.
(** * Further properties of the layer *)

(** ** Internal outcomes stay internal *)

Lemma never_ret {A} o (a : A) : never o (ret a).
Proof. intros s. by destruct o. Qed.

Lemma never_panic {A} o msg : never o (@panic A msg).
Proof. intros s. by destruct o. Qed.

Lemma never_fail {A} o e : e <> ErrCacheFailed -> never o (@fail A e).
Proof. intros He s. destruct o, e; done. Qed.

Lemma never_fail_fuel {A} e : never OutOfFuel (@fail A e).
Proof. by intros s. Qed.

Lemma never_lift {A} o (r : string + A) : never o (lift r).
Proof. destruct r; [by apply never_fail | apply never_ret]. Qed.

Lemma never_or_panic {A} o msg (x : option A) : never o (or_panic msg x).
Proof. destruct x; [apply never_ret | apply never_panic]. Qed.

Lemma never_tell o e : never o (tell e).
Proof. intros s. by destruct o. Qed.

Lemma never_get_dest o : never o get_dest.
Proof. intros s. by destruct o. Qed.

Lemma never_put_dest o c : never o (put_dest c).
Proof. intros s. by destruct o. Qed.

Lemma never_bind_run {A B} o (m : M A) (f : A -> M B) :
  never o m ->
  (forall s a s', m s = (Ok a, s') -> never o (f a)) ->
  never o (bind m f).
Proof.
  intros Hm Hf s. specialize (Hm s). unfold bind.
  destruct (m s) as [[a|e|msg|] s1] eqn:Hms; simpl in *; try done.
  by eapply Hf.
Qed.

Lemma never_bind {A B} o (m : M A) (f : A -> M B) :
  never o m -> (forall a, never o (f a)) -> never o (bind m f).
Proof. intros Hm Hf. apply never_bind_run; [done|]. intros _ a _ _. apply Hf. Qed.

Ltac never_tac :=
  repeat first
    [ apply never_ret | apply never_panic | apply never_lift
    | apply never_or_panic | apply never_tell | apply never_get_dest
    | apply never_put_dest
    | apply never_fail; discriminate
    | apply never_fail_fuel
    | apply never_bind; [| intros ?]
    | match goal with
      | |- never _ (logf _ _) => apply never_tell
      | |- never _ (if ?c then _ else _) => destruct c
      | |- never _ (match ?x with _ => _ end) => destruct x
      | |- never _ (let _ := _ in _) => cbv zeta
      end ].

Section Outcomes.
Context `{GoStrings} `{Collaborators}.

Lemma never_appendToSlice o canSet v : never o (appendToSlice canSet v).
Proof. unfold appendToSlice. never_tac. Qed.

Lemma never_setMapIndex o k v : never o (setMapIndex k v).
Proof. unfold setMapIndex. never_tac. Qed.

Lemma never_mapSetFunc o table keyType isPointer p pk :
  never o (mapSetFunc table keyType isPointer p pk).
Proof.
  unfold mapSetFunc. apply never_bind; [never_tac|intros k].
  apply never_setMapIndex.
Qed.

Lemma never_queryRows o sql args : never o (queryRows sql args).
Proof. unfold queryRows. never_tac. Qed.

Lemma never_rowsErr o rows : never o (rowsErr rows).
Proof. unfold rowsErr. never_tac. Qed.

Lemma never_rows2Beans o tb cs t rows : never o (rows2Beans tb cs t rows).
Proof.
  induction rows as [|row rows IH]; simpl; [never_tac|].
  apply never_bind; [never_tac|intros r].
  apply never_bind; [apply IH|intros more]. never_tac.
Qed.

Lemma never_executeProcessors o setFunc pending :
  (forall p pk, never o (setFunc p pk)) ->
  never o (executeProcessors setFunc pending).
Proof.
  intros Hset. induction pending as [|[b pk] pending IH]; simpl.
  - never_tac.
  - apply never_bind; [apply Hset|intros _; apply IH].
Qed.

Lemma never_scanRows o t fields setFunc rows :
  (forall p pk, never o (setFunc p pk)) ->
  never o (scanRows t fields setFunc rows).
Proof.
  intros Hset. induction rows as [|row rows IH]; simpl; [never_tac|].
  apply never_bind; [never_tac|intros cells].
  apply never_bind; [apply Hset|intros _; apply IH].
Qed.

(** The direct path ends in a result, an error of its own or a panic. *)
Lemma never_noCacheFind o table sv sql args :
  never o (noCacheFind table sv sql args).
Proof.
  unfold noCacheFind.
  apply never_bind; [never_tac|intros t0].
  apply never_bind; [never_tac|intros t].
  destruct (decide (KindOf t = KPtr)); [never_tac|].
  apply never_bind; [apply never_queryRows|intros rows].
  apply never_bind; [never_tac|intros fields].
  apply never_bind; [never_tac|intros types].
  apply never_bind_run.
  { never_tac. }
  intros s f s' Hrun.
  assert (Hf : forall p pk, never o (f p pk)).
  { destruct (decide (KindOf sv.1 = KSlice)).
    - inversion Hrun; subst. intros p pk. apply never_appendToSlice.
    - apply bind_Ok_inv in Hrun as (kt & s1 & _ & Hrun).
      apply bind_Ok_inv in Hrun as (tb & s2 & _ & Hrun).
      repeat destruct (decide _); try discriminate.
      inversion Hrun; subst. apply never_mapSetFunc. }
  destruct (decide (KindOf t = KStruct)).
  - apply never_bind; [never_tac|intros tb].
    apply never_bind; [never_tac|intros cs].
    apply never_bind; [apply never_rows2Beans|intros pending].
    apply never_bind; [apply never_rowsErr|intros _].
    by apply never_executeProcessors.
  - apply never_bind; [by apply never_scanRows|intros _].
    apply never_rowsErr.
Qed.

Lemma never_prepare o session x cb : never o (prepare session x cb).
Proof.
  unfold prepare.
  destruct (LastError _); [never_tac|].
  destruct (Indirect_ValueOf x) as [sv|]; [|never_tac].
  destruct (negb _ && negb _); [never_tac|].
  apply never_bind; [never_tac|intros t].
  apply never_bind; [unfold refFromElement; never_tac|intros r].
  apply never_bind; [unfold autoCondition; never_tac|intros c].
  apply never_bind; [unfold addPrimaryKeys; never_tac|intros s'].
  never_tac.
Qed.

(** Whatever the cache attempt does, what [find] hands back after lines
    151-163 is not the sentinel. *)
Lemma materialize_no_sentinel find_rec session table sv t x sql args :
  never Sentinel (materialize find_rec session table sv t x sql args).
Proof.
  intros s. unfold materialize. destruct (triesCache session).
  - destruct (cacheFind _ _ _ _ _ _ s) as [[a|e|msg|] s'] eqn:Hc; try done.
    destruct e; try done.
    apply (never_bind Sentinel (logf Warn "Cache Find Failed")
                      (fun _ => noCacheFind table sv sql args)).
    + apply never_tell.
    + intros _. apply never_noCacheFind.
  - apply never_noCacheFind.
Qed.

(** X1. [find] never returns the [ErrCacheFailed] sentinel, with any fuel,
    session, destination, condition bean and state: a failed cache attempt
    is always replaced by the result of the direct query, and the errors
    of the checks of lines 83-149 and of the direct path are other
    errors. *)
Theorem find_never_returns_sentinel fuel session x cb s :
  (find fuel session x cb s).1 <> Fail ErrCacheFailed.
Proof.
  assert (Hn : never Sentinel (find fuel session x cb)).
  { destruct fuel as [|fuel]; [by intros s0|].
    cbn [find]. unfold find_body. apply never_bind.
    - apply never_prepare.
    - intros p. apply materialize_no_sentinel. }
  specialize (Hn s). intros Heq. rewrite Heq in Hn. discriminate Hn.
Qed.

End Outcomes.

(** ** Tables that cannot be keyed *)

Section Unkeyed.
Context `{GoStrings} `{Collaborators}.

Lemma PKColumns_length table : length (PKColumns table) = length (PrimaryKeys table).
Proof. unfold PKColumns. by rewrite length_map. Qed.

Lemma ConvertIDSQL_unkeyed st sqlStr :
  match RefTable st with
  | Some table => PrimaryKeys table = []
  | None => True
  end ->
  ConvertIDSQL st sqlStr = "".
Proof.
  unfold ConvertIDSQL. destruct (RefTable st) as [table|]; [|done].
  intros Hpk. rewrite PKColumns_length, Hpk. reflexivity.
Qed.

Lemma cacheFind_unkeyed find_rec session t sqlStr x args s :
  GetCacher (TableName (statement session)) = true ->
  match RefTable (statement session) with
  | Some table => PrimaryKeys table = []
  | None => True
  end ->
  cacheFind find_rec session t sqlStr x args s = (Fail ErrCacheFailed, s).
Proof.
  intros Hcacher Hpk. unfold cacheFind.
  destruct (_ || _); [reflexivity|]. rewrite Hcacher. simpl.
  rewrite ConvertIDSQL_unkeyed by done. reflexivity.
Qed.

(** X2. When the statement, as it stands after lines 83-149, has no
    reference table, or a reference table without primary key, [find]
    never reads or writes the cache: the rewritten id query is empty, so
    the cache attempt is given up before the first cache operation, and
    [find] is the direct query [noCacheFind] on the original SQL (after
    the warning, when the cache was attempted). *)
Theorem find_without_primary_key_skips_cache n session x cb s p :
  (prepare session x cb s).1 = Ok p ->
  match RefTable (statement (p_session p)) with
  | Some table => PrimaryKeys table = []
  | None => True
  end ->
  let direct := noCacheFind (p_table p) (p_sliceValue p) (p_sql p) (p_args p) in
  (find (S n) session x cb s = direct s
   \/ find (S n) session x cb s
      = direct (emit (EvLog Warn "Cache Find Failed") s))
  /\ store (find (S n) session x cb s).2 = store s
  /\ exists evs,
      trace (find (S n) session x cb s).2 = trace s ++ evs
      /\ Forall (fun e => is_cache_event e = false) evs.
Proof.
  intros Hp Hpk direct.
  rewrite (find_prepared _ _ _ _ _ _ Hp).
  assert (Hrun :
    materialize (find n) (p_session p) (p_table p) (p_sliceValue p)
                (p_elemType p) x (p_sql p) (p_args p) s = direct s
    \/ materialize (find n) (p_session p) (p_table p) (p_sliceValue p)
                   (p_elemType p) x (p_sql p) (p_args p) s
       = direct (emit (EvLog Warn "Cache Find Failed") s)).
  { destruct (triesCache (p_session p)) eqn:Htries.
    - right. apply materialize_fallback; [done|].
      apply triesCache_true in Htries as (_ & Hcacher & _).
      by apply cacheFind_unkeyed.
    - left. by apply materialize_direct. }
  split; [done|].
  pose proof (cache_free_noCacheFind (p_table p) (p_sliceValue p) (p_sql p)
                                     (p_args p)) as Hfree.
  destruct Hrun as [-> | ->].
  - apply Hfree.
  - destruct (Hfree (emit (EvLog Warn "Cache Find Failed") s))
      as (Hst & evs & Htr & Hevs).
    split; [done|]. exists (EvLog Warn "Cache Find Failed" :: evs).
    split; [|by constructor].
    fold direct in Htr. rewrite Htr. simpl. by rewrite <- app_assoc.
Qed.

End Unkeyed.

(** ** Errors of the id resolution *)

Section ResolutionErrors.
Context `{GoStrings} `{Collaborators}.

Lemma bind_Fail_inv {A B} (m : M A) (f : A -> M B) s e s2 :
  bind m f s = (Fail e, s2) ->
  m s = (Fail e, s2)
  \/ exists a s1, m s = (Ok a, s1) /\ f a s1 = (Fail e, s2).
Proof.
  unfold bind. destruct (m s) as [[a| e'| |] s1]; intros Heq;
    try discriminate.
  - right. by exists a, s1.
  - left. by inversion Heq.
Qed.

(** A failed id resolution has stored nothing and has not touched the
    destination. *)
Lemma resolveIDs_Fail_inv table tableName sqlStr newsql args s e s' :
  resolveIDs table tableName sqlStr newsql args s = (Fail e, s') ->
  store s' = store s /\ dest s' = dest s
  /\ ids_of (store s) tableName !! (newsql, args) = None.
Proof.
  unfold resolveIDs, GetCacheSql, GetIds, bind at 1. simpl.
  destruct (ids_of (store s) tableName !! (newsql, args)) as [ids'|] eqn:Hc.
  - intros Hrun. inversion Hrun.
  - unfold queryRows. rewrite bind_assoc, bind_tell.
    intros Hrun.
    apply bind_Fail_inv in Hrun as [Hq|(rows & s1 & Hq & Hrun)].
    { destruct (db_query newsql args); inversion Hq; by subst. }
    apply lift_Ok_inv in Hq as [Hq ->].
    apply bind_Fail_inv in Hrun as [Hcol|(ids' & s2 & Hcol & Hrun)].
    { apply collectIDs_frame in Hcol as [Hst2 Hd2]. by rewrite Hst2, Hd2. }
    apply collectIDs_frame in Hcol as [Hst2 Hd2].
    apply bind_Fail_inv in Hrun as [Herr|([] & s3 & Herr & Hrun)].
    { unfold rowsErr in Herr. destruct (rows_err rows); inversion Herr; subst.
      by rewrite Hst2, Hd2. }
    rewrite bind_logf in Hrun. unfold PutCacheSql, PutIds, bind, ret in Hrun.
    simpl in Hrun. inversion Hrun.
Qed.

(** X3. An error of the id resolution other than the sentinel (the
    rewritten query fails, a row of it does not scan or convert, or the
    cursor reports an error) is the result of [find]: there is no fallback
    to the direct query, so the original SQL is never sent.  Nothing is
    stored in the cache and the destination is as it was. *)
Theorem find_id_resolution_error n session x cb s p table e s' :
  (prepare session x cb s).1 = Ok p ->
  let sess := p_session p in
  let tableName := TableName (statement sess) in
  let fsql := fold_left (fun s filter => filter s) Filters (p_sql p) in
  let newsql := ConvertIDSQL (statement sess) fsql in
  triesCache sess = true ->
  IndexNoCase (p_sql p) "having" = -1 ->
  IndexNoCase (p_sql p) "group by" = -1 ->
  newsql <> "" ->
  RefTable (statement sess) = Some table ->
  resolveIDs table tableName fsql newsql (p_args p) s = (Fail e, s') ->
  e <> ErrCacheFailed ->
  find (S n) session x cb s = (Fail e, s')
  /\ store s' = store s
  /\ dest s' = dest s.
Proof.
  intros Hp sess tableName fsql newsql Htries Hh Hg Hnew Htable Hres He.
  rewrite (find_prepared _ _ _ _ _ _ Hp).
  pose proof (triesCache_true _ Htries) as (Hcan & Hcacher & _).
  split.
  - apply materialize_cached; [done| |by intros [= ->]].
    rewrite (cacheFind_eligible _ _ _ _ _ _ _ table Hcan Hcacher Hh Hg Hnew Htable).
    by apply bind_Fail.
  - apply resolveIDs_Fail_inv in Hres as (? & ? & _). done.
Qed.

End ResolutionErrors.

(** ** The depth of the recursion between [find] and [cacheFind] *)

Section Depth.
Context `{GoStrings} `{Collaborators}.

Lemma fetchMissing_agree f g sess st name t s :
  agree_on_backfill f g ->
  fetchMissing f (backfillSession sess st name) t s
  = fetchMissing g (backfillSession sess st name) t s.
Proof. intros Hfg. unfold fetchMissing. by rewrite Hfg. Qed.

Lemma backfill_agree f g session table tableName t p s :
  agree_on_backfill f g ->
  backfill f session table tableName t p s
  = backfill g session table tableName t p s.
Proof.
  intros Hfg. unfold backfill. destruct (decide _); [|done].
  apply bind_ext. intros st s1.
  unfold bind. by rewrite (fetchMissing_agree f g _ _ _ _ _ Hfg).
Qed.

Lemma cacheFind_agree f g session t sqlStr x args s :
  agree_on_backfill f g ->
  cacheFind f session t sqlStr x args s = cacheFind g session t sqlStr x args s.
Proof.
  intros Hfg. unfold cacheFind.
  destruct (_ || _); [done|]. destruct (negb _); [done|].
  destruct (decide _); [done|].
  apply bind_ext. intros table s1.
  apply bind_ext. intros ids s2.
  unfold assemble. apply bind_ext. intros p s3.
  unfold bind. by rewrite (backfill_agree f g _ _ _ _ _ _ Hfg).
Qed.

Lemma find_body_agree f g session x cb s :
  agree_on_backfill f g ->
  find_body f session x cb s = find_body g session x cb s.
Proof.
  intros Hfg. unfold find_body. apply bind_ext. intros p s1.
  unfold materialize. destruct (triesCache _); [|done].
  by rewrite (cacheFind_agree f g _ _ _ _ _ _ Hfg).
Qed.

Lemma never_GetIds o table sql args : never o (GetIds table sql args).
Proof. intros s. by destruct o. Qed.

Lemma never_PutIds o table sql args ids : never o (PutIds table sql args ids).
Proof. intros s. by destruct o. Qed.

Lemma never_GetBean o table sid : never o (GetBean table sid).
Proof. intros s. by destruct o. Qed.

Lemma never_PutBean o table sid bean : never o (PutBean table sid bean).
Proof. intros s. by destruct o. Qed.

Lemma never_convertPK o cols : forall res, never o (convertPK cols res).
Proof.
  induction cols as [|c cols IH]; intros res; cbn [convertPK]; [never_tac|].
  destruct res as [|r res]; [never_tac|].
  apply never_bind; [never_tac|intros c'].
  apply never_bind; [never_tac|intros v].
  apply never_bind; [apply IH|intros pk]. never_tac.
Qed.

Lemma never_scanPK o table row : never o (scanPK table row).
Proof.
  unfold scanPK. apply never_bind; [never_tac|intros res].
  apply never_convertPK.
Qed.

Lemma fuel_collectIDs table rows :
  forall i ids, never OutOfFuel (collectIDs table i ids rows).
Proof.
  induction rows as [|row rows IH]; intros i ids; cbn [collectIDs].
  - never_tac.
  - destruct (decide _); [never_tac|].
    apply never_bind; [apply never_scanPK|intros pk; apply IH].
Qed.

Lemma fuel_resolveIDs table tableName sqlStr newsql args :
  never OutOfFuel (resolveIDs table tableName sqlStr newsql args).
Proof.
  unfold resolveIDs. apply never_bind; [apply never_GetIds|intros cached].
  destruct cached; [never_tac|].
  apply never_bind; [apply never_queryRows|intros rows].
  apply never_bind; [apply fuel_collectIDs|intros ids].
  apply never_bind; [apply never_rowsErr|intros _].
  apply never_bind; [apply never_tell|intros _].
  apply never_bind; [apply never_PutIds|intros _]. never_tac.
Qed.

Lemma fuel_probeBeans table tableName t ids :
  forall idx p, never OutOfFuel (probeBeans table tableName t idx ids p).
Proof.
  induction ids as [|id ids IH]; intros idx p; cbn [probeBeans]; [never_tac|].
  apply never_bind; [|intros p'; apply IH].
  unfold probeBean. apply never_bind; [never_tac|intros sid].
  apply never_bind; [apply never_GetBean|intros bean].
  unfold setTemp. never_tac.
Qed.

Lemma never_firstComponents o ides0 : never o (firstComponents ides0).
Proof.
  induction ides0 as [|ie l IH]; cbn [firstComponents]; [never_tac|].
  apply never_bind; [never_tac|intros v].
  apply never_bind; [apply IH|intros ff]. never_tac.
Qed.

Lemma never_pkCond o names ie : forall i cond, never o (pkCond names i ie cond).
Proof.
  induction names as [|name names IH]; intros i cond; cbn [pkCond];
    [never_tac|].
  apply never_bind; [never_tac|intros v]. apply IH.
Qed.

Lemma never_orConds o table ides0 : forall st, never o (orConds table ides0 st).
Proof.
  induction ides0 as [|ie l IH]; intros st; cbn [orConds]; [never_tac|].
  apply never_bind; [apply never_pkCond|intros cond]. apply IH.
Qed.

Lemma never_backfillStatement o table ides0 :
  never o (backfillStatement table ides0).
Proof.
  unfold backfillStatement. destruct (decide _).
  - apply never_bind; [apply never_firstComponents|intros ff]. never_tac.
  - apply never_orConds.
Qed.

Lemma fuel_storeBeans table tableName ididxes0 vs :
  forall temps0, never OutOfFuel (storeBeans table tableName ididxes0 vs temps0).
Proof.
  induction vs as [|rv vs IH]; intros temps0; cbn [storeBeans]; [never_tac|].
  apply never_bind; [never_tac|intros bean].
  apply never_bind; [never_tac|intros id].
  apply never_bind; [never_tac|intros sid].
  apply never_bind; [unfold setTemp; never_tac|intros temps'].
  apply never_bind; [apply never_tell|intros _].
  apply never_bind; [apply never_PutBean|intros _]. apply IH.
Qed.

Lemma fuel_composeResult t sv ids temps0 :
  forall j, never OutOfFuel (composeResult t sv ids j temps0).
Proof.
  induction temps0 as [|slot temps0 IH]; intros j; cbn [composeResult];
    [never_tac|].
  apply never_bind; [|intros _; apply IH].
  destruct slot as [bean|]; [|apply never_tell].
  unfold placeBean.
  destruct (decide _); [apply never_appendToSlice|].
  destruct (decide _); [|never_tac].
  apply never_bind; [never_tac|intros key].
  apply never_bind; [never_tac|intros keyType].
  apply never_bind; [never_tac|intros ikey]. apply never_setMapIndex.
Qed.

Lemma never_cacheFind f session t sqlStr x args :
  (forall sess st name x' s',
      is_outcome OutOfFuel (f (backfillSession sess st name) x' [] s').1
      = false) ->
  never OutOfFuel (cacheFind f session t sqlStr x args).
Proof.
  intros Hf. unfold cacheFind.
  destruct (_ || _); [never_tac|]. destruct (negb _); [never_tac|].
  destruct (decide _); [never_tac|].
  apply never_bind; [never_tac|intros table].
  apply never_bind; [apply fuel_resolveIDs|intros ids].
  unfold assemble.
  apply never_bind; [apply fuel_probeBeans|intros p].
  apply never_bind; [|intros temps0; apply fuel_composeResult].
  unfold backfill. destruct (decide _); [|never_tac].
  apply never_bind; [apply never_backfillStatement|intros st].
  apply never_bind; [|intros vs; apply fuel_storeBeans].
  intros s. unfold fetchMissing.
  specialize (Hf session st (TableName (statement session))
                 (IValue (TPtr (TSlice t))) (set_dest (CSlice []) s)).
  destruct (f _ _ _ _) as [[a|e|msg|] s1]; simpl in *; try done.
  by destruct (dest s1).
Qed.

(** [prepare] changes the statement through [SetRefValue] and the column
    map only. *)
Lemma prepare_UseCache session x cb s p :
  (forall st t st', SetRefValue st t = inr st' -> UseCache st' = UseCache st) ->
  (prepare session x cb s).1 = Ok p ->
  UseCache (statement (p_session p)) = UseCache (statement session).
Proof.
  intros Hset Hp. apply prepare_run in Hp. unfold prepare in Hp.
  destruct (LastError _); [discriminate|].
  destruct (Indirect_ValueOf x) as [sv|]; [|discriminate].
  destruct (negb _ && negb _); [discriminate|].
  apply bind_Ok_inv in Hp as (t & s1 & Ht & Hp).
  apply bind_Ok_inv in Hp as (r & s2 & Hr & Hp).
  apply bind_Ok_inv in Hp as (c & s3 & _ & Hp).
  apply bind_Ok_inv in Hp as (sess & s4 & Hsess & Hp).
  apply bind_Ok_inv in Hp as (q & s5 & _ & Hp).
  inversion Hp; subst. simpl.
  assert (Hr1 : UseCache (statement r.1) = UseCache (statement session)).
  { unfold refFromElement in Hr.
    destruct (RefTable (statement session)); [by inversion Hr|].
    destruct (decide (KindOf t = KPtr)).
    - apply bind_Ok_inv in Hr as (inner & s6 & _ & Hr).
      destruct (decide (KindOf inner = KStruct)); [|by inversion Hr].
      apply bind_Ok_inv in Hr as (st & s7 & Hst & Hr).
      apply lift_Ok_inv in Hst as [Hst _]. inversion Hr; subst. simpl.
      by eapply Hset.
    - destruct (decide (KindOf t = KStruct)); [|by inversion Hr].
      apply bind_Ok_inv in Hr as (st & s7 & Hst & Hr).
      apply lift_Ok_inv in Hst as [Hst _]. inversion Hr; subst. simpl.
      by eapply Hset. }
  unfold addPrimaryKeys in Hsess.
  destruct (_ && _).
  - apply bind_Ok_inv in Hsess as (tb & s6 & _ & Hsess).
    inversion Hsess; subst. simpl. exact Hr1.
  - inversion Hsess; subst. exact Hr1.
Qed.

(** The inner [find] of the backfill is the direct query: it does not call
    [cacheFind] again. *)
Lemma find_backfill_direct n sess st name x s :
  (forall st t st', SetRefValue st t = inr st' -> UseCache st' = UseCache st) ->
  (forall st name, UseCache (stmt_Table st name) = UseCache st) ->
  (forall sess, UseCache (statement sess) = false -> canCache sess = false) ->
  find (S n) (backfillSession sess st name) x [] s
  = find 1 (backfillSession sess st name) x [] s.
Proof.
  intros Hset Htable Hcan. cbn [find]. unfold find_body.
  destruct (prepare (backfillSession sess st name) x [] s) as [r s1] eqn:Hp.
  assert (Hp1 : (prepare (backfillSession sess st name) x [] s).1 = r)
    by (by rewrite Hp).
  unfold bind. rewrite Hp. destruct r as [p| | |]; try done.
  assert (Htries : triesCache (p_session p) = false).
  { unfold triesCache. rewrite (Hcan (p_session p)).
    - by rewrite andb_false_r.
    - rewrite (prepare_UseCache _ _ _ _ _ Hset Hp1).
      unfold backfillSession. simpl. by rewrite Htable. }
  by rewrite !materialize_direct.
Qed.

(** X4. The recursion between [find] and [cacheFind] is two levels deep.
    Suppose that [SetRefValue] and [Table] leave the cache switch of a
    statement alone and that a session whose statement has the cache
    switched off cannot cache.  Then the [find] that [cacheFind] runs for
    the backfill, on a session that went through [NoCache], takes the
    direct path; hence [find] with any fuel of two or more is [find] with
    fuel two, and that call ends without running out of fuel. *)
Theorem find_recursion_depth n session x cb s :
  (forall st t st', SetRefValue st t = inr st' -> UseCache st' = UseCache st) ->
  (forall st name, UseCache (stmt_Table st name) = UseCache st) ->
  (forall sess, UseCache (statement sess) = false -> canCache sess = false) ->
  find (S (S n)) session x cb s = find 2 session x cb s
  /\ (find 2 session x cb s).1 <> NoFuel.
Proof.
  intros Hset Htable Hcan.
  assert (Hagree : forall k, agree_on_backfill (find (S k)) (find 1)).
  { intros k sess st name x' s'. by apply find_backfill_direct. }
  split.
  - cbn [find]. apply find_body_agree. apply (Hagree n).
  - assert (Hdirect : forall sess st name x' s',
               is_outcome OutOfFuel
                          (find 1 (backfillSession sess st name) x' [] s').1
               = false).
    { intros sess st name x' s'. cbn [find]. unfold find_body.
      destruct (prepare (backfillSession sess st name) x' [] s') as [r s1] eqn:Hp.
      assert (Hp1 : (prepare (backfillSession sess st name) x' [] s').1 = r)
        by (by rewrite Hp).
      unfold bind. rewrite Hp. destruct r as [p| | |]; try done.
      - assert (Htries : triesCache (p_session p) = false).
        { unfold triesCache. rewrite (Hcan (p_session p)).
          - by rewrite andb_false_r.
          - rewrite (prepare_UseCache _ _ _ _ _ Hset Hp1).
            unfold backfillSession. simpl. by rewrite Htable. }
        rewrite materialize_direct by done. apply never_noCacheFind.
      - pose proof (never_prepare OutOfFuel (backfillSession sess st name)
                                  x' [] s') as Hn.
        by rewrite Hp in Hn. }
    assert (Hn : never OutOfFuel (find 2 session x cb)).
    { cbn [find]. unfold find_body. apply never_bind.
      - apply never_prepare.
      - intros p s'. unfold materialize. destruct (triesCache _).
        + pose proof (never_cacheFind (find_body (find 0)) (p_session p)
                        (p_elemType p) (p_sql p) x (p_args p) Hdirect s') as Hc.
          destruct (cacheFind _ _ _ _ _ _ s') as [[a|e|msg|] s1]; try done.
          destruct e; try done.
          apply (never_bind OutOfFuel (logf Warn "Cache Find Failed")
                            (fun _ => noCacheFind (p_table p) (p_sliceValue p)
                                                  (p_sql p) (p_args p))).
          * apply never_tell.
          * intros _. apply never_noCacheFind.
        + apply never_noCacheFind. }
    specialize (Hn s). intros Heq. rewrite Heq in Hn. discriminate Hn.
Qed.

End Depth.

(** ** What the probe leaves for the backfill *)

Section Misses.
Context `{GoStrings} `{Collaborators}.

Lemma probeBean_ides table tableName t idx id p s p' s' :
  probeBean table tableName t idx id p s = (Ok p', s') ->
  store s' = store s /\ dest s' = dest s
  /\ ides p'
     = ides p ++ match hitOf tableName t (store s) id with
                 | Some _ => []
                 | None => [id]
                 end
  /\ length (temps p') = length (temps p).
Proof.
  intros Hrun. unfold probeBean in Hrun.
  apply bind_Ok_inv in Hrun as (sid & s1 & Hsid & Hrun).
  apply lift_Ok_inv in Hsid as [Hsid ->].
  rewrite (bind_Ok _ _ _ _ _ (GetBean_run tableName sid s)) in Hrun.
  unfold hitOf, hitFor. rewrite Hsid.
  destruct (beans_of (store s) tableName !! sid) as [bean|] eqn:Hbean.
  - destruct (isHit t (Some bean)) eqn:Hhit; cbn [negb] in Hrun.
    + rewrite bind_logf in Hrun.
      apply bind_Ok_inv in Hrun as (pk & s2 & Hpk & Hrun).
      apply lift_Ok_inv in Hpk as [Hpk ->].
      apply bind_Ok_inv in Hrun as (xid & s3 & Hxid & Hrun).
      apply lift_Ok_inv in Hxid as [Hxid ->].
      destruct (decide (sid <> xid)) as [Hne|Heq]; [discriminate|].
      apply bind_Ok_inv in Hrun as (temps' & s4 & Hset & Hrun).
      apply setTemp_Ok_inv in Hset as (Hrange & -> & ->).
      inversion Hrun; subst. simpl.
      by rewrite app_nil_r, length_insert.
    + inversion Hrun; subst. done.
  - simpl in Hrun. inversion Hrun; subst. done.
Qed.

(** X5. A probe of the id list that succeeds queues for the backfill
    exactly the ids that the bean cache does not serve (no bean under the
    key, or a bean of another struct type than the element type), in the
    order of the id list and after the ids queued before; it changes neither
    the cache store nor the destination nor the number of slots. *)
Theorem probeBeans_queues_misses table tableName t ids :
  forall idx p s p' s',
    probeBeans table tableName t idx ids p s = (Ok p', s') ->
    store s' = store s /\ dest s' = dest s
    /\ ides p'
       = ides p ++ filter (fun id => hitOf tableName t (store s) id = None) ids
    /\ length (temps p') = length (temps p).
Proof.
  induction ids as [|id ids IH]; intros idx p s p' s' Hrun;
    cbn [probeBeans] in Hrun.
  - inversion Hrun; subst. by rewrite app_nil_r.
  - apply bind_Ok_inv in Hrun as (p1 & s1 & Hone & Hrun).
    apply probeBean_ides in Hone as (Hst1 & Hd1 & Hides1 & Hlen1).
    apply IH in Hrun as (Hst2 & Hd2 & Hides2 & Hlen2).
    split; [congruence|]. split; [congruence|]. split; [|congruence].
    rewrite Hides2, Hides1, Hst1, <- app_assoc. f_equal.
    destruct (hitOf tableName t (store s) id) as [b|] eqn:Hhit.
    + rewrite filter_cons_False; [done|]. by rewrite Hhit.
    + rewrite filter_cons_True; [done|]. by rewrite Hhit.
Qed.

End Misses.

(** ** The id list round trip *)

Section RoundTrip.
Context `{GoStrings} `{Collaborators}.

(** X6. An id list that [resolveIDs] has computed from the rewritten query
    (at most 500 rows, each of which yields a key, and a cursor without
    error) is served from the cache when the same table, rewritten SQL and
    arguments are resolved again: the second resolution returns the same
    ids, sends no query, and only reads the cache. *)
Theorem resolveIDs_round_trip table tableName sqlStr newsql args s rows pks :
  ids_of (store s) tableName !! (newsql, args) = None ->
  db_query newsql args = inr rows ->
  (length (rows_data rows) <= 500)%nat ->
  Forall2 (yields_key table) (rows_data rows) pks ->
  rows_err rows = None ->
  exists s1,
    resolveIDs table tableName sqlStr newsql args s = (Ok pks, s1)
    /\ resolveIDs table tableName sqlStr newsql args s1
       = (Ok pks,
          emit (EvLog Debug "[cache] cache hit sql")
               (emit (EvGetIds tableName newsql args) s1)).
Proof.
  intros Hmiss Hq Hlen Hall Herr.
  destruct (resolveIDs_fresh table tableName sqlStr newsql args s rows pks
              Hmiss Hq Hlen Hall Herr) as (s1 & Hrun & Hstored & _).
  exists s1. split; [exact Hrun|]. by apply resolveIDs_hit.
Qed.

End RoundTrip.

(** ** Invalidation on insert and on demand *)

Section MoreInvalidation.
Context `{GoStrings} `{Collaborators}.

(** X7. [cacheInsert] always succeeds.  It never touches the cached beans,
    the id lists of other tables or the destination; it drops every id
    list of the table when the statement uses the cache and the table has
    a cacher, and otherwise it does nothing at all (not even a log
    line). *)
Theorem cacheInsert_scope session table s :
  exists s',
    cacheInsert session table s = (Ok tt, s')
    /\ cache_beans (store s') = cache_beans (store s)
    /\ dest s' = dest s
    /\ (forall other, other <> table ->
                      ids_of (store s') other = ids_of (store s) other)
    /\ if UseCache (statement session) && GetCacher table
       then ids_of (store s') table = ∅
            /\ trace s' = trace s ++ [EvLog Debug "[cache] clear SQL";
                                      EvClearIds table]
       else s' = s.
Proof.
  destruct (UseCache (statement session) && GetCacher table) eqn:Hon.
  - apply andb_prop in Hon as [Huse Hcacher].
    destruct (cacheInsert_clears session table s Huse Hcacher)
      as (s' & Hrun & Htr & Hids & Hother & Hbeans & Hd).
    exists s'. split_and!; done.
  - exists s. split; [|done]. apply cacheInsert_off.
    apply andb_false_iff in Hon. exact Hon.
Qed.

(** X8. The struct path invalidates after the write, and only after a
    write that succeeded: when the database rejects the INSERT of
    [insertMultipleStruct], the error is returned, the statement is the
    only event of the call and the cache store is exactly as it was; when
    the database accepts it, the id lists of the table are cleared after
    the statement has been executed. *)
Theorem insertMultipleStruct_invalidates_after_write
        session bean0 beans st sql args s :
  SetRefBean (statement session) bean0 = inr st ->
  TableName st <> "" ->
  GenInsertMultipleSQL st (bean0 :: beans) = inr (sql, args) ->
  UseCache st = true ->
  GetCacher (TableName st) = true ->
  (forall msg,
      db_exec sql args = inl msg ->
      insertMultipleStruct session (bean0 :: beans) s
      = (Fail (ErrExt msg), emit (EvExec sql args) s))
  /\ (forall affected,
         db_exec sql args = inr affected ->
         exists s',
           insertMultipleStruct session (bean0 :: beans) s = (Ok affected, s')
           /\ trace s' = trace s ++ [EvExec sql args;
                                     EvLog Debug "[cache] clear SQL";
                                     EvClearIds (TableName st)]
           /\ ids_of (store s') (TableName st) = ∅).
Proof.
  intros Href Hname Hsql Huse Hcacher. split.
  - intros msg Hexec. unfold insertMultipleStruct.
    rewrite Href, lift_inr, bind_ret_l.
    rewrite decide_False by (by destruct (TableName st)).
    rewrite Hsql, lift_inr, bind_ret_l. simpl.
    unfold exec. rewrite bind_assoc, bind_tell, Hexec, lift_inl. reflexivity.
  - intros affected Hexec. by apply insertMultipleStruct_order.
Qed.

(** X9. The map path has already invalidated when the write fails: when
    the database rejects the INSERT of [insertMap], the error is returned
    and the id lists of the table are gone nevertheless, because
    [cacheInsert] ran before [exec]. *)
Theorem insertMap_failed_write_has_invalidated
        session columns args sql args' msg s :
  TableName (statement session) <> "" ->
  GenInsertMapSQL (statement session) columns args = inr (sql, args') ->
  db_exec (quoter_Replace sql) args' = inl msg ->
  UseCache (statement session) = true ->
  GetCacher (TableName (statement session)) = true ->
  exists s',
    insertMap session columns args s = (Fail (ErrExt msg), s')
    /\ trace s' = trace s ++ [EvLog Debug "[cache] clear SQL";
                              EvClearIds (TableName (statement session));
                              EvExec (quoter_Replace sql) args']
    /\ ids_of (store s') (TableName (statement session)) = ∅.
Proof.
  intros Hname Hsql Hexec Huse Hcacher. unfold insertMap.
  rewrite decide_False by (by destruct (TableName (statement session))).
  rewrite Hsql, lift_inr, bind_ret_l. simpl.
  destruct (cacheInsert_clears session (TableName (statement session)) s
              Huse Hcacher)
    as (s1 & Hrun & Htr & Hids & _).
  rewrite (bind_Ok _ _ _ _ _ Hrun).
  unfold exec. rewrite bind_assoc, bind_tell, Hexec, lift_inl.
  eexists. split; [reflexivity|]. simpl. split; [|done].
  rewrite Htr. simpl. by rewrite <- app_assoc.
Qed.

(** X10. [insertMultipleMap] orders its effects as [insertMap] does: with
    the cache in use and a cacher for the table, the id lists of the table
    are cleared before the statement is sent, nothing follows the write,
    and the id lists of other tables and all cached beans are kept. *)
Theorem insertMultipleMap_invalidates_before_write
        session columns argss sql args' affected s :
  TableName (statement session) <> "" ->
  GenInsertMultipleMapSQL (statement session) columns argss = inr (sql, args') ->
  db_exec (quoter_Replace sql) args' = inr affected ->
  UseCache (statement session) = true ->
  GetCacher (TableName (statement session)) = true ->
  exists s',
    insertMultipleMap session columns argss s = (Ok affected, s')
    /\ trace s' = trace s ++ [EvLog Debug "[cache] clear SQL";
                              EvClearIds (TableName (statement session));
                              EvExec (quoter_Replace sql) args']
    /\ ids_of (store s') (TableName (statement session)) = ∅
    /\ (forall other, other <> TableName (statement session) ->
                      ids_of (store s') other = ids_of (store s) other)
    /\ cache_beans (store s') = cache_beans (store s).
Proof.
  intros Hname Hsql Hexec Huse Hcacher. unfold insertMultipleMap.
  rewrite decide_False by (by destruct (TableName (statement session))).
  rewrite Hsql, lift_inr, bind_ret_l. simpl.
  destruct (cacheInsert_clears session (TableName (statement session)) s
              Huse Hcacher)
    as (s1 & Hrun & Htr & Hids & Hother & Hbeans & _).
  rewrite (bind_Ok _ _ _ _ _ Hrun).
  unfold exec. rewrite bind_assoc, bind_tell, Hexec, lift_inr, !bind_ret_l.
  eexists. split; [reflexivity|]. simpl.
  split_and!; try done.
  rewrite Htr. simpl. by rewrite <- app_assoc.
Qed.

(** X11. [ClearCacheBean] returns nil in every case.  When the table of
    the bean has a cacher, all id lists of that table and the one bean
    entry [id] are gone afterwards, while the other beans of the table and
    everything cached for other tables stay; when it has none, nothing is
    touched. *)
Theorem ClearCacheBean_clears_lists_and_one_bean bean id s :
  let s' := (ClearCacheBean bean id s).2 in
  (ClearCacheBean bean id s).1 = Ok tt
  /\ dest s' = dest s
  /\ if GetCacher (FullTableName bean)
     then ids_of (store s') (FullTableName bean) = ∅
          /\ beans_of (store s') (FullTableName bean) !! id = None
          /\ (forall sid, sid <> id ->
                          beans_of (store s') (FullTableName bean) !! sid
                          = beans_of (store s) (FullTableName bean) !! sid)
          /\ (forall other, other <> FullTableName bean ->
                            ids_of (store s') other = ids_of (store s) other
                            /\ beans_of (store s') other
                               = beans_of (store s) other)
     else s' = s.
Proof.
  destruct (GetCacher (FullTableName bean)) eqn:Hcacher.
  - destruct (ClearCacheBean_scope bean id s Hcacher)
      as (Hids & Hbean & Hother & Hrest).
    split; [|split; [|split_and!; done]].
    + unfold ClearCacheBean. by rewrite Hcacher.
    + unfold ClearCacheBean. by rewrite Hcacher.
  - unfold ClearCacheBean. rewrite Hcacher. done.
Qed.

(** Whether [ClearCache] clears the table [name]: a bean of the list is
    stored in it and it has a cacher. *)
Lemma ClearCache_run beans :
  forall s,
    (ClearCache beans s).1 = Ok tt
    /\ dest (ClearCache beans s).2 = dest s
    /\ forall name,
        (if bool_decide (Exists (fun b => FullTableName b = name
                                          /\ GetCacher name = true) beans)
         then ids_of (store (ClearCache beans s).2) name = ∅
              /\ beans_of (store (ClearCache beans s).2) name = ∅
         else ids_of (store (ClearCache beans s).2) name = ids_of (store s) name
              /\ beans_of (store (ClearCache beans s).2) name
                 = beans_of (store s) name).
Proof.
  induction beans as [|bean rest IH]; intros s.
  - split; [reflexivity|]. split; [reflexivity|]. intros name.
    rewrite bool_decide_eq_false_2; [done|].
    intros Hex. by apply Exists_nil in Hex.
  - cbn [ClearCache].
    set (tableName := FullTableName bean).
    set (step := if GetCacher tableName
                 then (ClearIds tableName ;; ClearBeans tableName)%go
                 else ret tt).
    assert (Hstep : exists s1,
               step s = (Ok tt, s1) /\ dest s1 = dest s
               /\ forall name,
                   if bool_decide (tableName = name /\ GetCacher name = true)
                   then ids_of (store s1) name = ∅
                        /\ beans_of (store s1) name = ∅
                   else ids_of (store s1) name = ids_of (store s) name
                        /\ beans_of (store s1) name = beans_of (store s) name).
    { unfold step. destruct (GetCacher tableName) eqn:Hcacher.
      - eexists. split; [reflexivity|]. split; [done|]. intros name.
        unfold ids_of, beans_of. simpl. case_bool_decide as Hn.
        + destruct Hn as [<- _]. by rewrite !lookup_delete_eq.
        + assert (tableName <> name) by (intros <-; by apply Hn).
          by rewrite !lookup_delete_ne.
      - exists s. split; [done|]. split; [done|]. intros name.
        rewrite bool_decide_eq_false_2; [done|]. intros [<- Hc]. congruence. }
    destruct Hstep as (s1 & Hrun & Hd1 & Hone).
    rewrite (bind_Ok _ _ _ _ _ Hrun).
    destruct (IH s1) as (Hok & Hd & Hrest).
    split; [done|]. split; [congruence|]. intros name.
    specialize (Hone name). specialize (Hrest name).
    destruct (decide (tableName = name /\ GetCacher name = true)) as [Hnow|Hnow].
    + rewrite (bool_decide_eq_true_2 _ Hnow) in Hone.
      rewrite bool_decide_eq_true_2 by (by left).
      destruct Hone as [Hi Hb].
      destruct (bool_decide (Exists _ rest)); [done|].
      destruct Hrest as [-> ->]. done.
    + rewrite (bool_decide_eq_false_2 _ Hnow) in Hone.
      destruct Hone as [Hi Hb].
      destruct (decide (Exists (fun b => FullTableName b = name
                                         /\ GetCacher name = true) rest))
        as [Hlater|Hlater].
      * rewrite (bool_decide_eq_true_2 _ Hlater) in Hrest.
        rewrite bool_decide_eq_true_2 by (by right). done.
      * rewrite (bool_decide_eq_false_2 _ Hlater) in Hrest.
        rewrite bool_decide_eq_false_2.
        -- destruct Hrest as [-> ->]. done.
        -- intros Hany. apply Exists_cons in Hany as [Hany|Hany]; done.
Qed.

(** X12. [ClearCache] returns nil and empties, for every bean of its
    argument whose table has a cacher, the id lists and the beans of that
    table; what is cached for any other table (one that no bean of the
    argument is stored in, or one without cacher) is exactly as it was. *)
Theorem ClearCache_scope beans s :
  let s' := (ClearCache beans s).2 in
  (ClearCache beans s).1 = Ok tt
  /\ dest s' = dest s
  /\ (forall bean,
         bean ∈ beans -> GetCacher (FullTableName bean) = true ->
         ids_of (store s') (FullTableName bean) = ∅
         /\ beans_of (store s') (FullTableName bean) = ∅)
  /\ (forall name,
         (forall bean, bean ∈ beans -> FullTableName bean = name ->
                       GetCacher name = false) ->
         ids_of (store s') name = ids_of (store s) name
         /\ beans_of (store s') name = beans_of (store s) name).
Proof.
  destruct (ClearCache_run beans s) as (Hok & Hd & Hnames).
  split; [done|]. split; [done|]. split.
  - intros bean Hin Hcacher. specialize (Hnames (FullTableName bean)).
    rewrite bool_decide_eq_true_2 in Hnames; [done|].
    apply Exists_exists. by exists bean.
  - intros name Hnone. specialize (Hnames name).
    rewrite bool_decide_eq_false_2 in Hnames; [done|].
    intros Hany. apply Exists_exists in Hany as (bean & Hin & Hname & Hc).
    rewrite (Hnone bean Hin Hname) in Hc. discriminate Hc.
Qed.

End MoreInvalidation.

(** ** The rewritten id query *)

Section IdQuery.
Context `{GoStrings} `{Collaborators}.

(** X13. [ConvertIDSQL] returns the empty string, which makes [cacheFind]
    give up, unless the statement has a reference table with at least one
    primary key and the SQL splits in two at its first " from "
    (case-insensitively).  In that case the result is never empty: it is
    "SELECT ", a TOP clause for MSSQL with a limit, the primary-key columns
    and " FROM " followed by everything after that " from ", verbatim. *)
Theorem ConvertIDSQL_nonempty_iff st sqlStr :
  ConvertIDSQL st sqlStr <> ""
  <-> exists table head tail,
      RefTable st = Some table
      /\ PrimaryKeys table <> []
      /\ SplitNNoCase sqlStr " from " 2 = [head; tail]
      /\ ConvertIDSQL st sqlStr
         = "SELECT "
             +:+ match LimitN st with
                 | Some n => if is_MSSQL then "TOP " +:+ Itoa n +:+ " " else ""
                 | None => ""
                 end
             +:+ joinColumns st (PKColumns table) false +:+ " FROM " +:+ tail.
Proof.
  unfold ConvertIDSQL. split.
  - destruct (RefTable st) as [table|]; [|done].
    destruct (decide (length (PKColumns table) = 0%nat)) as [Hz|Hnz]; [done|].
    destruct (SplitNNoCase sqlStr " from " 2) as [|hd [|tl [|x l]]] eqn:Hsplit;
      try done.
    intros _. exists table, hd, tl. split_and!; try done.
    intros Hpk. apply Hnz. by rewrite PKColumns_length, Hpk.
  - intros (table & hd & tl & -> & Hpk & -> & _).
    rewrite decide_False.
    + done.
    + rewrite PKColumns_length. by destruct (PrimaryKeys table).
Qed.

End IdQuery.

(** ** The column schema, when the driver reports too few types *)

Section ShortTypes.
Context `{GoStrings}.

Lemma makeFields_None fieldNames :
  forall i types,
    makeFields i fieldNames types = None
    <-> (length types < i + length fieldNames)%nat /\ fieldNames <> [].
Proof.
  induction fieldNames as [|name rest IH]; intros i types; simpl.
  - split; [done|]. by intros [_ ?].
  - destruct (types !! i) as [ty|] eqn:Hty; simpl.
    + apply lookup_lt_Some in Hty.
      destruct (makeFields (S i) rest types) as [fs|] eqn:Hrest; simpl.
      * split; [done|]. intros [Hlen _]. exfalso.
        destruct rest as [|n rest'].
        -- simpl in Hlen. lia.
        -- assert (Hn : makeFields (S i) (n :: rest') types = None).
           { apply IH. split; [simpl in *; lia|done]. }
           congruence.
      * split; [|done]. intros _. split; [|done].
        apply IH in Hrest as [Hlen _]. lia.
    + apply lookup_ge_None in Hty. split; [|done]. intros _.
      split; [lia|done].
Qed.

(** X14. [ParseColumnsSchema] panics (index out of range at [types[i]])
    exactly when there are fewer column types than column names; with at
    least as many types as names it returns a schema, whatever the names,
    the types and the table are. *)
Theorem ParseColumnsSchema_panics_iff
        (fieldNames : list string) (types : list SqlColumnType)
        (table : option Table) :
  ParseColumnsSchema fieldNames types table = None
  <-> (length types < length fieldNames)%nat.
Proof.
  unfold ParseColumnsSchema.
  destruct (makeFields 0 fieldNames types) as [fields|] eqn:Hm; simpl.
  - split; [done|]. intros Hlen. exfalso.
    assert (Hn : makeFields 0 fieldNames types = None).
    { apply makeFields_None. split; [simpl; lia|].
      intros ->. simpl in Hlen. lia. }
    congruence.
  - split; [|done]. intros _. apply makeFields_None in Hm as [Hlen _].
    simpl in Hlen. lia.
Qed.

End ShortTypes.

(** ** The direct path for elements that are not structs *)

Section DirectRows.
Context `{GoStrings} `{Collaborators}.

Lemma scanRows_partial isPointer elemType fields good :
  forall s items cells bad rest msg,
    dest s = CSlice items ->
    Forall2 (fun row c => scanValue elemType fields row = inr c) good cells ->
    scanValue elemType fields bad = inl msg ->
    scanRows elemType fields (sliceSetFunc isPointer true)
             (good ++ bad :: rest) s
    = (Fail (ErrExt msg),
       set_dest (CSlice (items ++ (asElement isPointer ∘ PRaw <$> cells))) s).
Proof.
  induction good as [|row good IH]; intros s items cells bad rest msg Hd Hall Hbad;
    inversion Hall as [|? c ? cells' Hrow Hrest]; subst; cbn [scanRows app].
  - rewrite Hbad, lift_inl. simpl. rewrite app_nil_r, <- Hd.
    by rewrite set_dest_same.
  - rewrite Hrow, lift_inr, bind_ret_l. unfold sliceSetFunc at 1.
    rewrite (bind_Ok _ _ _ _ _ (appendToSlice_run _ _ _ Hd)).
    rewrite (IH _ (items ++ [asElement isPointer (PRaw c)]) cells' bad rest msg)
      by done.
    rewrite set_dest_set_dest, <- app_assoc. reflexivity.
Qed.


Lemma stuck_panic {A} msg : stuck (@panic A msg).
Proof. intros s. split; [done|]. by intros a. Qed.

Lemma stuck_fail {A} e : stuck (@fail A e).
Proof. intros s. split; [done|]. by intros a. Qed.

Lemma stuck_bind_pure {A B} (m : M A) (f : A -> M B) :
  pure m ->
  (forall a s, m s = (Ok a, s) -> stuck (f a)) ->
  stuck (bind m f).
Proof.
  intros [r Hr] Hf s. unfold bind. rewrite Hr.
  destruct r as [a|e|msg|]; try (split; [done|]; by intros a).
  apply (Hf a s). apply Hr.
Qed.

Lemma stuck_bind_l {A B} (m : M A) (f : A -> M B) :
  stuck m -> stuck (bind m f).
Proof.
  intros Hm s. destruct (Hm s) as [Hs Hr]. unfold bind.
  destruct (m s) as [[a|e|msg|] s1]; simpl in *; subst;
    try (split; [done|]; by intros a).
  by destruct (Hr a).
Qed.

Lemma stuck_appendToSlice v : stuck (appendToSlice false v).
Proof. apply stuck_panic. Qed.

Lemma pure_rows2Beans tb cs elemType rows : pure (rows2Beans tb cs elemType rows).
Proof.
  induction rows as [|row rows IH]; cbn [rows2Beans]; [apply pure_ret|].
  apply pure_bind; [apply pure_lift|intros r].
  apply pure_bind; [apply IH|intros more]. apply pure_ret.
Qed.

Lemma rows2Beans_length tb cs elemType rows :
  forall s pending s',
    rows2Beans tb cs elemType rows s = (Ok pending, s') ->
    length pending = length rows.
Proof.
  induction rows as [|row rows IH]; intros s pending s' Hrun;
    cbn [rows2Beans] in Hrun.
  - by inversion Hrun.
  - apply bind_Ok_inv in Hrun as (r & s1 & Hr & Hrun).
    apply bind_Ok_inv in Hrun as (more & s2 & Hmore & Hrun).
    apply IH in Hmore. inversion Hrun; subst. simpl. by f_equal.
Qed.

(** X16. A slice passed by value cannot receive rows: when [noCacheFind]
    is given a slice that is not settable (the caller passed the slice
    itself, not a pointer to it) and the query returns at least one row,
    the call never returns nil: [Set] on the unaddressable value panics at
    the first row that is placed, unless an error comes first.  By then
    the query has been sent; the destination is as it was. *)
Theorem noCacheFind_unsettable_slice table ctype sql args s rows cols tys :
  KindOf ctype = KSlice ->
  KindOf (materialised ctype) <> KPtr ->
  db_query sql args = inr rows ->
  rows_columns rows = inr cols ->
  rows_types rows = inr tys ->
  rows_data rows <> [] ->
  (noCacheFind table (ctype, false) sql args s).1 <> Ok tt
  /\ (noCacheFind table (ctype, false) sql args s).2 = emit (EvQuery sql args) s.
Proof.
  intros Hk Hnp Hq Hcols Htys Hrows.
  rewrite (noCacheFind_prelude _ _ _ _ _ _ _ _ _ Hk Hnp Hq Hcols Htys).
  set (setFunc := sliceSetFunc (holdsPointers ctype) false).
  assert (Hstuck :
    stuck (if decide (KindOf (materialised ctype) = KStruct) then
             tb <- lift (ParseWithCache (materialised ctype)) ;;
             columnsSchema <-
               or_panic "index out of range"
                        (ParseColumnsSchema cols tys (Some tb)) ;;
             pending <- rows2Beans tb columnsSchema (materialised ctype)
                                   (rows_data rows) ;;
             rowsErr rows ;;
             executeProcessors setFunc pending
           else
             scanRows (materialised ctype) cols setFunc (rows_data rows) ;;
             rowsErr rows)%go).
  { destruct (decide _).
    - apply stuck_bind_pure; [apply pure_lift|intros tb s1 _].
      apply stuck_bind_pure; [apply pure_or_panic|intros cs s2 _].
      apply stuck_bind_pure; [apply pure_rows2Beans|intros pending s3 Hpend].
      apply rows2Beans_length in Hpend.
      apply stuck_bind_pure.
      { unfold rowsErr. destruct (rows_err rows); [apply pure_fail|apply pure_ret]. }
      intros _ s4 _.
      destruct pending as [|[b pk] pending].
      { simpl in Hpend. by destruct (rows_data rows). }
      cbn [executeProcessors]. apply stuck_bind_l. apply stuck_appendToSlice.
    - apply stuck_bind_l.
      destruct (rows_data rows) as [|row rest]; [done|].
      cbn [scanRows].
      apply stuck_bind_pure; [apply pure_lift|intros cells s1 _].
      apply stuck_bind_l. apply stuck_appendToSlice. }
  destruct (Hstuck (emit (EvQuery sql args) s)) as [Hs Hr].
  split; [apply Hr|exact Hs].
Qed.

End DirectRows.

(** ** Insert from maps of strings *)

Section InsertMapsFacts.
Context `{GoStrings} `{Collaborators}.
Variable IsColExist : Statement -> string -> bool.

Lemma sortStrings_sorted l : StronglySorted String.le (sortStrings l).
Proof. apply StronglySorted_merge_sort; apply _. Qed.

Lemma sortStrings_Permutation l : sortStrings l ≡ₚ l.
Proof. apply merge_sort_Permutation. Qed.

Lemma sortStrings_order l1 l2 : l1 ≡ₚ l2 -> sortStrings l1 = sortStrings l2.
Proof.
  intros Hperm. apply (StronglySorted_unique String.le);
    [apply sortStrings_sorted..|].
  by rewrite !sortStrings_Permutation.
Qed.

Lemma mapColumns_order st order1 order2 :
  order1 ≡ₚ order2 ->
  mapColumns IsColExist st order1 = mapColumns IsColExist st order2.
Proof.
  intros Hperm. unfold mapColumns. apply sortStrings_order. by rewrite Hperm.
Qed.

Lemma mapColumns_elem st order k :
  k ∈ mapColumns IsColExist st order <-> k ∈ order /\ IsColExist st k = false.
Proof.
  unfold mapColumns. rewrite sortStrings_Permutation.
  rewrite list_elem_of_filter. tauto.
Qed.

(** X17. [insertMapString] hands the columns to the SQL generator in
    ascending byte order, each once: they are the keys of the map that the
    statement gives no expression, and argument [j] is the value of the
    map under column [j].  The order in which Go's [range] yields the keys
    of the map has no influence on the call. *)
Theorem insertMapString_columns session (m : gmap string string) order :
  order ≡ₚ (map_to_list m).*1 ->
  m <> ∅ ->
  TableName (statement session) <> "" ->
  let columns := mapColumns IsColExist (statement session) order in
  insertMapString IsColExist session m order
  = insertMap session columns (rowArgs columns m)
  /\ StronglySorted String.le columns
  /\ NoDup columns
  /\ (forall k, k ∈ columns
                <-> is_Some (m !! k) /\ IsColExist (statement session) k = false)
  /\ (forall j k, columns !! j = Some k ->
                  exists v, m !! k = Some v
                            /\ rowArgs columns m !! j = Some (SqlStr v))
  /\ (forall order',
         order' ≡ₚ (map_to_list m).*1 ->
         insertMapString IsColExist session m order'
         = insertMapString IsColExist session m order).
Proof.
  intros Horder Hne Hname columns.
  assert (Hkeys : forall k, k ∈ order <-> is_Some (m !! k)).
  { intros k. rewrite Horder. rewrite list_elem_of_fmap. split.
    - intros ([k' v] & -> & Hin). apply elem_of_map_to_list in Hin.
      by exists v.
    - intros [v Hv]. exists (k, v). split; [done|].
      by apply elem_of_map_to_list. }
  assert (Hcols : forall k, k ∈ columns
            <-> is_Some (m !! k) /\ IsColExist (statement session) k = false).
  { intros k. unfold columns. rewrite mapColumns_elem. by rewrite Hkeys. }
  split; [|split; [|split; [|split; [|split]]]].
  - unfold insertMapString.
    rewrite decide_False by (by intros ?%map_size_empty_inv).
    rewrite decide_False by (by destruct (TableName (statement session))).
    reflexivity.
  - apply sortStrings_sorted.
  - unfold columns, mapColumns. rewrite sortStrings_Permutation.
    apply NoDup_filter. rewrite Horder. apply NoDup_fst_map_to_list.
  - exact Hcols.
  - intros j k Hj.
    assert (Hin : k ∈ columns) by (apply list_elem_of_lookup; eauto).
    apply Hcols in Hin as [[v Hv] _]. exists v. split; [done|].
    unfold rowArgs. rewrite list_lookup_fmap, Hj. simpl. by rewrite Hv.
  - intros order' Horder'. unfold insertMapString.
    rewrite (mapColumns_order _ order' order); [done|].
    by rewrite Horder, Horder'.
Qed.

(** X18. [insertMultipleMapString] takes the columns from the first map
    alone (its keys without expression, in ascending byte order, whatever
    the order in which [range] yields them) and reads every map through
    them: row [i] has one argument per column, the value of map [i] under
    that column, and the empty string when map [i] has no such key; a key
    that only a later map has reaches no row. *)
Theorem insertMultipleMapString_columns
        session (m0 : gmap string string) rest order :
  order ≡ₚ (map_to_list m0).*1 ->
  TableName (statement session) <> "" ->
  let columns := mapColumns IsColExist (statement session) order in
  let argss := rowArgs columns <$> (m0 :: rest) in
  insertMultipleMapString IsColExist session (m0 :: rest) order
  = insertMultipleMap session columns argss
  /\ StronglySorted String.le columns
  /\ (forall k, k ∈ columns
                <-> is_Some (m0 !! k) /\ IsColExist (statement session) k = false)
  /\ (forall i m j k,
         (m0 :: rest) !! i = Some m -> columns !! j = Some k ->
         exists args,
           argss !! i = Some args
           /\ length args = length columns
           /\ args !! j = Some (SqlStr (default "" (m !! k))))
  /\ (forall order',
         order' ≡ₚ (map_to_list m0).*1 ->
         insertMultipleMapString IsColExist session (m0 :: rest) order'
         = insertMultipleMapString IsColExist session (m0 :: rest) order).
Proof.
  intros Horder Hname columns argss.
  split; [|split; [|split; [|split]]].
  - unfold insertMultipleMapString.
    rewrite decide_False by (by destruct (TableName (statement session))).
    reflexivity.
  - apply sortStrings_sorted.
  - intros k. unfold columns. rewrite mapColumns_elem, Horder.
    rewrite list_elem_of_fmap. split.
    + intros [([k' v] & -> & Hin) Hex]. apply elem_of_map_to_list in Hin.
      split; [by exists v|done].
    + intros [[v Hv] Hex]. split; [|done]. exists (k, v). split; [done|].
      by apply elem_of_map_to_list.
  - intros i m j k Hi Hj. exists (rowArgs columns m).
    split; [|split].
    + unfold argss. by rewrite list_lookup_fmap, Hi.
    + unfold rowArgs. by rewrite length_fmap.
    + unfold rowArgs. by rewrite list_lookup_fmap, Hj.
  - intros order' Horder'. unfold insertMultipleMapString.
    rewrite (mapColumns_order _ order' order); [done|].
    by rewrite Horder, Horder'.
Qed.

End InsertMapsFacts.

(** ** Table names with a schema *)

(** X19. [TableNameWithSchema] prefixes a table name with the schema of
    the dialect exactly when there is a schema and the name has no dot.
    Hence a name that already has a dot is returned as it is, with a
    schema the result always has a dot, and applying the function to its
    own result changes nothing. *)
Theorem TableNameWithSchema_idempotent schema tableName :
  Dialects.TableNameWithSchema schema
    (Dialects.TableNameWithSchema schema tableName)
  = Dialects.TableNameWithSchema schema tableName
  /\ (Dialects.Contains tableName "." = true ->
      Dialects.TableNameWithSchema schema tableName = tableName)
  /\ (schema <> "" ->
      Dialects.Contains (Dialects.TableNameWithSchema schema tableName) "."
      = true).
Proof.
  assert (Hdot : schema <> "" ->
            Dialects.Contains (Dialects.TableNameWithSchema schema tableName) "."
            = true).
  { intros Hs. unfold Dialects.TableNameWithSchema.
    rewrite (bool_decide_eq_false_2 _ Hs). simpl.
    destruct (Dialects.Contains tableName ".") eqn:Hc; simpl; [done|].
    unfold Dialects.Contains. apply bool_decide_eq_true_2.
    apply Index_found. by exists schema, tableName. }
  split; [|split; [|done]].
  - destruct (decide (schema = "")) as [->|Hs]; [done|].
    specialize (Hdot Hs).
    unfold Dialects.TableNameWithSchema at 1. rewrite Hdot.
    by rewrite andb_false_r.
  - intros Hc. unfold Dialects.TableNameWithSchema. rewrite Hc.
    by rewrite andb_false_r.
Qed.

(** ** The update statement of the cache *)

Section UpdateSQLFacts.
Context `{GoStrings} `{Collaborators}.
Import Stdlib.Strings.Ascii.
Variable quote : Statement -> string -> string.
Variable is_POSTGRES : bool.

Lemma Split_nonempty s sep : Split s sep <> [].
Proof.
  induction s as [|c s IH]; simpl; [done|].
  destruct (decide (c = sep)); [done|]. by destruct (Split s sep).
Qed.

Lemma renumber_panics para chunks :
  forall i whereStr,
    renumber para i chunks whereStr = None
    <-> Exists (fun c => cut c " "%char = None) chunks.
Proof.
  induction chunks as [|c chunks IH]; intros i whereStr; simpl.
  - split; [done|]. by intros ?%Exists_nil.
  - unfold SplitN2. destruct (cut c " "%char) as [[before after]|] eqn:Hcut.
    + rewrite IH. split; [by right|].
      intros Hex. apply Exists_cons in Hex as [Hex|Hex]; [congruence|done].
    + split; [by left|done].
Qed.

(** X20. For a table with exactly one primary key and an SQL text with a
    where clause, [ConvertUpdateSQL] panics (index out of range at
    [ccs[1]]) exactly when the dialect has a placeholder prefix (POSTGRES
    or MSSQL), the where clause contains it, and some placeholder is not
    followed by a blank before the next placeholder or the end of the
    text, as in a clause that ends with its last placeholder. *)
Theorem ConvertUpdateSQL_panics_iff st sqlStr table head tail :
  RefTable st = Some table ->
  length (PrimaryKeys table) = 1%nat ->
  SplitNNoCase sqlStr "where" 2 = [head; tail] ->
  ConvertUpdateSQL quote is_POSTGRES st sqlStr = None
  <-> exists para,
      paraStr is_POSTGRES = Some para
      /\ Dialects.Contains tail (String para "") = true
      /\ Exists (fun c => cut c " "%char = None) (drop 1 (Split tail para)).
Proof.
  intros Htable Hpk Hsplit. unfold ConvertUpdateSQL.
  rewrite Htable, decide_False by lia. rewrite Hsplit.
  destruct (paraStr is_POSTGRES) as [para|]; simpl.
  - destruct (Dialects.Contains tail (String para "")) eqn:Hc; simpl.
    + pose proof (Split_nonempty tail para) as Hne.
      destruct (Split tail para) as [|first chunks] eqn:Hs; [done|]. simpl.
      destruct (renumber para 0 chunks first) as [w|] eqn:Hr; simpl.
      * split; [done|]. intros (para' & [= <-] & _ & Hex).
        rewrite Hs in Hex. cbn [drop] in Hex.
        apply (renumber_panics para chunks 0 first) in Hex. congruence.
      * split; [|done]. intros _. exists para. split; [done|].
        split; [done|]. rewrite Hs. cbn [drop].
        by apply (renumber_panics para chunks 0 first).
    + split; [done|]. intros (para' & [= <-] & Hc' & _). congruence.
  - split; [done|]. by intros (para' & ? & _).
Qed.

End UpdateSQLFacts.

(** * Concrete runs *)

Module Concrete.
Import Demo.

(** ** C5 *)

Lemma ParseColumnsSchema_spec_witness :
  exists cs,
    ParseColumnsSchema ["id"; "Name"; "ID"] ["INT"; "TEXT"; "INT"] (Some userTable)
    = Some cs
    /\ length (Fields cs) = 3%nat.
Proof.
  destruct (ParseColumnsSchema_spec ["id"; "Name"; "ID"] ["INT"; "TEXT"; "INT"]
              (Some userTable)) as (cs & Hcs & Hlen & _).
  - simpl. lia.
  - simpl. lia.
  - exists cs. split; assumption.
Defined.

(** The second "id" of a result set gets index 1 and finds no second column
    of that name in the table. *)
Example ParseColumnsSchema_duplicate :
  (fun f => (FieldName f, TempIndex f, Name <$> ColumnSchema f))
    <$> from_option Fields []
          (ParseColumnsSchema ["id"; "Name"; "ID"] ["INT"; "TEXT"; "INT"]
                              (Some userTable))
  = [("id", 0, Some "id"); ("Name", 0, Some "name"); ("ID", 1, None)].
Proof. vm_compute. reflexivity. Qed.

(** ** C6 *)

Lemma find_bypasses_cache_witness :
  store (find 2 distinctSession usersPtr [] s0).2 = store s0.
Proof.
  assert (Hp : (prepare distinctSession usersPtr [] s0).1
               = Ok (prepared distinctSession usersPtr))
    by (vm_compute; reflexivity).
  destruct (find_bypasses_cache 1 distinctSession usersPtr [] s0 _ Hp)
    as (_ & Hstore & _).
  - left. vm_compute. reflexivity.
  - exact Hstore.
Defined.

(** ** C4 *)

(** A table with the primary key [(a, b)] fetched into [map[int]Pair]
    without the cache: the query is sent, then the call is rejected. *)
Lemma find_composite_key_map_queries_first :
  let r := find 2 (NoCache session) pairMapPtr [] (initial emptyStore (CMap ∅)) in
  r.1 = Fail (ErrNew "don't support multiple primary key's map has non-slice key type")
  /\ trace r.2 = [EvQuery "SELECT * FROM `pair`" []]
  /\ ~ Forall (fun e => is_query e = false) (trace r.2).
Proof.
  vm_compute. split; [reflexivity|]. split; [reflexivity|].
  intros Hall. inversion Hall as [|? ? Hq _]. discriminate Hq.
Qed.

(** With the cache in use the same call sends the rewritten query and the
    backfill query before it is rejected. *)
Example find_composite_key_map_cached :
  let r := find 2 session pairMapPtr [] (initial emptyStore (CMap ∅)) in
  r.1 = Fail (ErrNew "table have multiple primary keys, key is not schemas.PK or slice")
  /\ filter (fun e => is_query e = true) (trace r.2)
     = [EvQuery "SELECT `a`, `b` FROM `pair`" [];
        EvQuery "SELECT * FROM `pair` WHERE OR" []].
Proof. vm_compute. split; reflexivity. Qed.

(** A pointer-to-pointer element type with the cache in use: the rewritten
    query is sent before the call is rejected. *)
Example find_pointer_to_pointer_cached :
  let r := find 2 (onTable "user" (mkSession (Demo.with_RefTable (Some userTable) newStatement) true))
                (IValue (TPtr (TSlice (TPtr (TPtr User))))) []
                s0 in
  r.1 = Fail (ErrNew "pointer to pointer is not supported")
  /\ filter (fun e => is_query e = true) (trace r.2)
     = [EvQuery "SELECT `id` FROM `user`" []].
Proof. vm_compute. split; reflexivity. Qed.

Lemma find_shape_errors_witness :
  exists e,
    find 2 (NoCache session) pairMapPtr [] (initial emptyStore (CMap ∅))
    = (Fail e, emit (EvQuery "SELECT * FROM `pair`" [])
                    (initial emptyStore (CMap ∅))).
Proof.
  set (st0 := initial emptyStore (CMap ∅)).
  assert (Hp : (prepare (NoCache session) pairMapPtr [] st0).1
               = Ok (prepared (NoCache session) pairMapPtr))
    by (vm_compute; reflexivity).
  destruct (find_shape_errors 1 (NoCache session) pairMapPtr [] st0)
    as [_ Hdirect].
  destruct (Hdirect _ Hp) as [_ Hmap]; [vm_compute; reflexivity|].
  destruct (Hmap pairTable TInt) as (e & Hrun & _).
  - vm_compute. reflexivity.
  - vm_compute. reflexivity.
  - vm_compute. discriminate.
  - vm_compute. reflexivity.
  - vm_compute. lia.
  - vm_compute. intros [e He]. discriminate He.
  - exists e. exact Hrun.
Defined.

(** ** C3 *)

(** A bean of another type is cached under the key of user 1: the call is
    not abandoned; both users are fetched by the backfill query and the
    result comes from the cache-assisted path. *)
Lemma type_mismatch_is_backfilled :
  let r := find 2 session usersPtr [] (initial otherTypeStore (CSlice [])) in
  r.1 = Ok tt
  /\ trace r.2
     = [EvGetIds "user" "SELECT `id` FROM `user`" [];
        EvQuery "SELECT `id` FROM `user`" [];
        EvLog Debug "[cache] cache sql";
        EvPutIds "user" "SELECT `id` FROM `user`" [];
        EvGetBean "user" "1,"; EvGetBean "user" "2,";
        EvQuery "SELECT * FROM `user` WHERE `id` IN (?)" [SqlStr "1"; SqlStr "2"];
        EvLog Debug "[cache] cache bean"; EvPutBean "user" "1,";
        EvLog Debug "[cache] cache bean"; EvPutBean "user" "2,"]
  /\ dest r.2 = CSlice [VDirect (PBean user1); VDirect (PBean user2)]
  /\ ~ In (EvLog Warn "Cache Find Failed") (trace r.2)
  /\ (cacheFind (find 1) (p_session (prepared session usersPtr)) User
                "SELECT * FROM `user`" usersPtr []
                (initial otherTypeStore (CSlice []))).1 <> Fail ErrCacheFailed.
Proof.
  vm_compute. split_and!; try reflexivity.
  - intros Hin. repeat (destruct Hin as [Hin|Hin]; [discriminate Hin|]). exact Hin.
  - discriminate.
Qed.

Lemma probeBean_type_mismatch_witness :
  (probeBean userTable "user" User 0 [SqlStr "1"]
             (mkProbe ∅ [] [None; None]) (initial otherTypeStore (CSlice []))).1
  = Ok (mkProbe {["1," := 0]} [[SqlStr "1"]] [None; None]).
Proof.
  destruct (probeBean_type_mismatch userTable "user" User 0 [SqlStr "1"]
              (mkProbe ∅ [] [None; None]) (initial otherTypeStore (CSlice []))
              "1," (mkBean (TStruct "Other") [("id", SqlStr "1")]))
    as [Hrun _].
  - vm_compute. reflexivity.
  - vm_compute. reflexivity.
  - vm_compute. discriminate.
  - vm_compute. discriminate.
  - rewrite Hrun. vm_compute. reflexivity.
Defined.

(** ** C1 *)

Lemma big_row_yields_key c : yields_key bigTable [c] [SqlStr c].
Proof. intros s. reflexivity. Qed.


(** The 501 rows of [big] are all returned by the fallback. *)
Example find_501_rows :
  let r := find 2 session bigsPtr [] s0 in
  r.1 = Ok tt
  /\ match dest r.2 with CSlice items => length items | CMap _ => 0%nat end
     = 501%nat
  /\ trace r.2
     = [EvGetIds "big" "SELECT `id` FROM `big`" [];
        EvQuery "SELECT `id` FROM `big`" [];
        EvLog Debug "[cacheFind] ids length > 500, no cache";
        EvLog Warn "Cache Find Failed";
        EvQuery "SELECT * FROM `big`" []]
  /\ cache_ids (store r.2) = ∅.
Proof. vm_compute. split_and!; reflexivity. Qed.

(** ** C10 *)

Lemma find_cache_key_mismatch_witness :
  (find 2 session usersPtr [] (initial corruptStore (CSlice []))).1 = Ok tt
  /\ trace (find 2 session usersPtr [] (initial corruptStore (CSlice []))).2
     = [EvGetIds "user" "SELECT `id` FROM `user`" [];
        EvQuery "SELECT `id` FROM `user`" [];
        EvLog Debug "[cache] cache sql";
        EvPutIds "user" "SELECT `id` FROM `user`" [];
        EvGetBean "user" "1,";
        EvLog Debug "[cache] cache hit bean";
        EvLog Error "[cache] error cache";
        EvLog Warn "Cache Find Failed";
        EvQuery "SELECT * FROM `user`" []].
Proof.
  set (st0 := initial corruptStore (CSlice [])).
  assert (Hp : (prepare session usersPtr [] st0).1
               = Ok (prepared session usersPtr))
    by (vm_compute; reflexivity).
  destruct (find_cache_key_mismatch 1 session usersPtr [] st0 _ userTable
              [[SqlStr "1"]; [SqlStr "2"]] (userIDs corruptStore).2
              [] [SqlStr "1"] [[SqlStr "2"]]
              (mkProbe ∅ [] [None; None]) (userIDs corruptStore).2
              "1," user2 [SqlStr "2"] "2," Hp) as [_ Hfind].
  - vm_compute. reflexivity.
  - vm_compute. reflexivity.
  - vm_compute. reflexivity.
  - vm_compute. discriminate.
  - vm_compute. reflexivity.
  - vm_compute. reflexivity.
  - reflexivity.
  - vm_compute. reflexivity.
  - vm_compute. reflexivity.
  - vm_compute. reflexivity.
  - vm_compute. reflexivity.
  - vm_compute. reflexivity.
  - vm_compute. reflexivity.
  - vm_compute. discriminate.
  - rewrite Hfind. vm_compute. split; reflexivity.
Defined.

(** ** C7 and C2 *)

(** The cached id list names row 3, which the database no longer has. *)
Example find_skips_missing_row :
  let r := find 2 session usersPtr [] (initial staleIdsStore (CSlice [])) in
  r.1 = Ok tt
  /\ dest r.2 = CSlice [VDirect (PBean user1); VDirect (PBean user2)]
  /\ filter (fun e => bool_decide (e = EvLog Warn "[cache] cache no hit"))
            (trace r.2)
     = [EvLog Warn "[cache] cache no hit"].
Proof. vm_compute. split_and!; reflexivity. Qed.

Lemma missing_beans_are_skipped_witness :
  exists s',
    assemble (find 1) (p_session (prepared session usersPtr)) userTable "user"
             User usersPtr [[SqlStr "1"]; [SqlStr "2"]; [SqlStr "3"]]
             (userIDs staleIdsStore).2
    = (Ok tt, s')
    /\ dest s' = CSlice [VDirect (PBean user1); VDirect (PBean user2)].
Proof.
  destruct (missing_beans_are_skipped
              (find 1) (p_session (prepared session usersPtr)) userTable "user"
              User usersPtr (TSlice User)
              [[SqlStr "1"]; [SqlStr "2"]; [SqlStr "3"]]
              (userIDs staleIdsStore).2
              (okOr (mkProbe ∅ [] []) (userProbe staleIdsStore).1)
              (userProbe staleIdsStore).2
              (okOr [] (userBackfill staleIdsStore).1)
              (userBackfill staleIdsStore).2 [])
    as [Hrun _].
  - vm_compute. reflexivity.
  - vm_compute. reflexivity.
  - vm_compute. reflexivity.
  - vm_compute. reflexivity.
  - vm_compute. reflexivity.
  - eexists. split; [exact Hrun|]. vm_compute. reflexivity.
Defined.

(** The backfill of the users into an empty cache returns only users that
    were asked for. *)
Lemma user_backfill_keys st vs s3 :
  backfillStatement userTable (ides (okOr (mkProbe ∅ [] []) (userProbe emptyStore).1))
                    (userProbe emptyStore).2
  = (Ok st, (userProbe emptyStore).2) ->
  fetchMissing (find 1)
               (backfillSession (p_session (prepared session usersPtr)) st "user")
               User (userProbe emptyStore).2 = (Ok vs, s3) ->
  forall v b sid,
    v ∈ vs -> payload v = PBean b -> keyed userTable b sid ->
    is_Some (ididxes (okOr (mkProbe ∅ [] []) (userProbe emptyStore).1) !! sid).
Proof.
  intros Hst Hvs v b sid Hv Hb (pk & Hpk & Hsid).
  vm_compute in Hst. injection Hst as <-.
  vm_compute in Hvs. injection Hvs as <- _.
  apply elem_of_cons in Hv as [->|Hv];
    [|apply elem_of_cons in Hv as [->|Hv]; [|by apply not_elem_of_nil in Hv]].
  - vm_compute in Hb. injection Hb as <-.
    vm_compute in Hpk. injection Hpk as <-.
    vm_compute in Hsid. injection Hsid as <-.
    vm_compute. eexists. reflexivity.
  - vm_compute in Hb. injection Hb as <-.
    vm_compute in Hpk. injection Hpk as <-.
    vm_compute in Hsid. injection Hsid as <-.
    vm_compute. eexists. reflexivity.
Qed.

(** The backfill of the users returns only users that were asked for. *)
Lemma user_rows_asked b sid :
  b ∈ beansOf (okOr [] (userFetched reversedIdsStore).1) ->
  keyOf userTable b = Some sid ->
  exists id,
    id ∈ ides (okOr (mkProbe ∅ [] []) (userProbe reversedIdsStore).1)
    /\ PK_ToString id = inr sid.
Proof.
  intros Hb Hkey.
  assert (Hbs : beansOf (okOr [] (userFetched reversedIdsStore).1)
                = [user1; user2]) by (vm_compute; reflexivity).
  assert (Hides : ides (okOr (mkProbe ∅ [] []) (userProbe reversedIdsStore).1)
                  = [[SqlStr "2"]; [SqlStr "1"]]) by (vm_compute; reflexivity).
  rewrite Hbs in Hb. rewrite Hides.
  apply elem_of_cons in Hb as [->|Hb];
    [|apply elem_of_cons in Hb as [->|Hb]; [|by apply not_elem_of_nil in Hb]].
  - vm_compute in Hkey. injection Hkey as <-.
    exists [SqlStr "1"]. split; [right; left|reflexivity].
  - vm_compute in Hkey. injection Hkey as <-.
    exists [SqlStr "2"]. split; [left|reflexivity].
Qed.

Lemma output_order_witness :
  beansOf (okOr [] (userFetched reversedIdsStore).1) = [user1; user2]
  /\ dest (find 2 session usersPtr [] (initial reversedIdsStore (CSlice []))).2
     = CSlice [VDirect (PBean user2); VDirect (PBean user1)].
Proof.
  split; [vm_compute; reflexivity|].
  destruct (output_order
              (find 1) (p_session (prepared session usersPtr)) userTable "user"
              User usersPtr (TSlice User) [[SqlStr "2"]; [SqlStr "1"]]
              ["2,"; "1,"]
              (userIDs reversedIdsStore).2
              (find 2 session usersPtr [] (initial reversedIdsStore (CSlice []))).2
              []
              (okOr (mkProbe ∅ [] []) (userProbe reversedIdsStore).1)
              (userProbe reversedIdsStore).2
              (okOr [] (userFetched reversedIdsStore).1)
              (userFetched reversedIdsStore).2)
    as [Hdest _].
  - vm_compute. reflexivity.
  - vm_compute. reflexivity.
  - vm_compute. reflexivity.
  - vm_compute. reflexivity.
  - repeat constructor; vm_compute; reflexivity.
  - apply NoDup_cons. split; [|apply NoDup_singleton].
    intros Hin. apply list_elem_of_singleton in Hin. discriminate Hin.
  - vm_compute. reflexivity.
  - vm_compute. reflexivity.
  - apply user_rows_asked.
  - vm_compute. reflexivity.
  - rewrite Hdest. vm_compute. reflexivity.
Defined.

(** The ids are resolved in the order 2, 1 and the backfill answers in the
    order 1, 2: the output follows the ids. *)
Example find_follows_id_order :
  let r := find 2 session usersPtr [] (initial reversedIdsStore (CSlice [])) in
  r.1 = Ok tt
  /\ dest r.2 = CSlice [VDirect (PBean user2); VDirect (PBean user1)]
  /\ filter (fun e => is_query e = true) (trace r.2)
     = [EvQuery "SELECT * FROM `user` WHERE `id` IN (?)" [SqlStr "2"; SqlStr "1"]].
Proof. vm_compute. split_and!; reflexivity. Qed.

(** A cache hit and a backfilled bean in one call: user 2 comes from the
    bean cache, user 1 from the backfill, and the output follows the
    ids. *)
Example find_mixes_hit_and_backfill :
  let r := find 2 session usersPtr [] (initial mixedStore (CSlice [])) in
  r.1 = Ok tt
  /\ dest r.2 = CSlice [VDirect (PBean user2); VDirect (PBean user1)]
  /\ filter (fun e => is_query e = true) (trace r.2)
     = [EvQuery "SELECT * FROM `user` WHERE `id` IN (?)" [SqlStr "1"]].
Proof. vm_compute. split_and!; reflexivity. Qed.

(** ** C9 *)

Lemma insertMap_invalidates_before_write_witness :
  exists s',
    insertMap (onTable "user" session) ["name"] [SqlStr "c"]
              (initial staleIdsStore (CSlice []))
    = (Ok 1, s')
    /\ trace s' = [EvLog Debug "[cache] clear SQL"; EvClearIds "user";
                   EvExec "INSERT INTO `user` VALUES (?)" [SqlStr "c"]]
    /\ ids_of (store s') "user" = ∅.
Proof.
  destruct (insertMap_invalidates_before_write
              (onTable "user" session) ["name"] [SqlStr "c"]
              "INSERT INTO `user` VALUES (?)" [SqlStr "c"] 1
              (initial staleIdsStore (CSlice [])))
    as (s' & Hrun & Htrace & Hids & _).
  - vm_compute. discriminate.
  - vm_compute. reflexivity.
  - vm_compute. reflexivity.
  - vm_compute. reflexivity.
  - vm_compute. reflexivity.
  - exists s'. split; [exact Hrun|]. split; [exact Htrace|exact Hids].
Defined.

(** [Insert] of a map through a session on table [user]: the id lists of
    the table are cleared, then the statement is executed. *)
Example insert_map_order :
  trace (insertMap (onTable "user" session) ["name"] [SqlStr "c"]
                   (initial staleIdsStore (CSlice []))).2
  = [EvLog Debug "[cache] clear SQL"; EvClearIds "user";
     EvExec "INSERT INTO `user` VALUES (?)" [SqlStr "c"]].
Proof. vm_compute. reflexivity. Qed.

(** [Insert] of a slice of structs: the statement is executed, then the id
    lists are cleared. *)
Example insert_structs_order :
  trace (insertMultipleStruct session [user1]
                              (initial staleIdsStore (CSlice []))).2
  = [EvExec "INSERT INTO `user` VALUES (?)" [SqlStr "1"; SqlStr "a"];
     EvLog Debug "[cache] clear SQL"; EvClearIds "user"].
Proof. vm_compute. reflexivity. Qed.

(** ** C8 *)

Lemma repeated_find_is_served_from_cache_witness :
  exists s1 s2,
    find 2 session usersPtr [] s0 = (Ok tt, s1)
    /\ find 2 session usersPtr [] (set_dest (CSlice []) s1) = (Ok tt, s2)
    /\ dest s2 = dest s1
    /\ filter (fun e => is_query e = true) (trace s2)
       = filter (fun e => is_query e = true) (trace s1).
Proof.
  assert (Hp : (prepare session usersPtr [] s0).1 = Ok (prepared session usersPtr))
    by (vm_compute; reflexivity).
  destruct (repeated_find_is_served_from_cache
              0 session usersPtr [] s0 _ userTable (TSlice User) []
              [[SqlStr "1"]; [SqlStr "2"]] (userIDs emptyStore).2
              (okOr (mkProbe ∅ [] []) (userProbe emptyStore).1)
              (userProbe emptyStore).2
              (okOr [] (userBackfill emptyStore).1)
              (userBackfill emptyStore).2 ["1,"; "2,"] Hp)
    as (s1 & Hfirst & _ & s2 & Hsecond & Hdest & evs & Htrace & Hevs).
  - vm_compute. reflexivity.
  - vm_compute. reflexivity.
  - vm_compute. reflexivity.
  - vm_compute. discriminate.
  - vm_compute. reflexivity.
  - vm_compute. reflexivity.
  - vm_compute. reflexivity.
  - vm_compute. reflexivity.
  - vm_compute. reflexivity.
  - vm_compute. reflexivity.
  - vm_compute. reflexivity.
  - vm_compute. reflexivity.
  - vm_compute. repeat constructor; discriminate.
  - repeat constructor; vm_compute; reflexivity.
  - apply NoDup_cons. split; [|apply NoDup_singleton].
    intros Hin. apply list_elem_of_singleton in Hin. discriminate Hin.
  - intros st s' p' Hst Hp'. vm_compute in Hst. injection Hst as <-.
    apply prepare_run in Hp'. vm_compute in Hp'. injection Hp' as <-.
    vm_compute. reflexivity.
  - apply user_backfill_keys.
  - exists s1, s2. split; [exact Hfirst|]. split; [exact Hsecond|].
    split; [exact Hdest|].
    rewrite Htrace, filter_app.
    rewrite (filter_none _ evs), app_nil_r; [reflexivity|].
    intros e He. rewrite Forall_forall in Hevs. rewrite (Hevs e He). discriminate.
Defined.

(** The scenario of the specification: two rows, fetched twice. *)
Example find_twice :
  let r1 := find 2 session usersPtr [] s0 in
  let r2 := find 2 session usersPtr [] (set_dest (CSlice []) r1.2) in
  r1.1 = Ok tt /\ r2.1 = Ok tt
  /\ dest r1.2 = CSlice [VDirect (PBean user1); VDirect (PBean user2)]
  /\ dest r2.2 = dest r1.2
  /\ drop (length (trace r1.2)) (trace r2.2)
     = [EvGetIds "user" "SELECT `id` FROM `user`" [];
        EvLog Debug "[cache] cache hit sql";
        EvGetBean "user" "1,"; EvLog Debug "[cache] cache hit bean";
        EvGetBean "user" "2,"; EvLog Debug "[cache] cache hit bean"].
Proof. vm_compute. split_and!; reflexivity. Qed.

End Concrete.

(** * More concrete runs *)

Module MoreConcrete.
Import Demo MoreDemo.

Lemma find_without_primary_key_skips_cache_witness :
  let r := find 2 (sessionOn unkeyedTable) usersPtr [] s0 in
  store r.2 = store s0
  /\ exists evs,
      trace r.2 = trace s0 ++ evs
      /\ Forall (fun e => is_cache_event e = false) evs.
Proof.
  assert (Hp : (prepare (sessionOn unkeyedTable) usersPtr [] s0).1
               = Ok (prepared (sessionOn unkeyedTable) usersPtr))
    by (vm_compute; reflexivity).
  destruct (find_without_primary_key_skips_cache
              1 (sessionOn unkeyedTable) usersPtr [] s0 _ Hp)
    as (_ & Hstore & Htrace).
  - vm_compute. reflexivity.
  - split; [exact Hstore|exact Htrace].
Defined.

(** A table without primary key: the cache is attempted and given up at
    once, the rows come from the direct query. *)
Example find_unkeyed_table :
  find 2 (sessionOn unkeyedTable) usersPtr [] s0
  = (Ok tt,
     mkState emptyStore
             [EvLog Warn "Cache Find Failed"; EvQuery "SELECT * FROM `user`" []]
             (CSlice [VDirect (PBean user1); VDirect (PBean user2)])).
Proof. vm_compute. reflexivity. Qed.

Lemma find_id_resolution_error_witness :
  exists s',
    find 2 (sessionOn byNameTable) usersPtr [] s0
    = (Fail (ErrExt "no such table"), s')
    /\ store s' = store s0 /\ dest s' = dest s0.
Proof.
  assert (Hp : (prepare (sessionOn byNameTable) usersPtr [] s0).1
               = Ok (prepared (sessionOn byNameTable) usersPtr))
    by (vm_compute; reflexivity).
  eexists.
  apply (find_id_resolution_error
           1 (sessionOn byNameTable) usersPtr [] s0 _ byNameTable
           (ErrExt "no such table") _ Hp).
  - vm_compute. reflexivity.
  - vm_compute. reflexivity.
  - vm_compute. reflexivity.
  - vm_compute. discriminate.
  - vm_compute. reflexivity.
  - vm_compute. reflexivity.
  - discriminate.
Defined.

(** The failing id query is the only statement sent. *)
Example find_id_query_fails :
  trace (find 2 (sessionOn byNameTable) usersPtr [] s0).2
  = [EvGetIds "user" "SELECT `name` FROM `user`" [];
     EvQuery "SELECT `name` FROM `user`" []].
Proof. vm_compute. reflexivity. Qed.

Lemma demo_SetRefValue_UseCache st t st' :
  SetRefValue st t = inr st' -> UseCache st' = UseCache st.
Proof.
  simpl. unfold setRefValue. destruct (tableOfType t); [discriminate|].
  intros [= <-]. reflexivity.
Qed.

Lemma find_recursion_depth_witness :
  find 5 session usersPtr [] s0 = find 2 session usersPtr [] s0
  /\ (find 2 session usersPtr [] s0).1 <> NoFuel.
Proof.
  apply (find_recursion_depth 3 session usersPtr [] s0).
  - exact demo_SetRefValue_UseCache.
  - intros st name. reflexivity.
  - intros sess Hoff. simpl. rewrite Hoff. apply andb_false_r.
Defined.

(** User 1 is served by the bean cache, user 2 is queued. *)
Lemma probeBeans_queues_misses_witness :
  let r := probeBeans userTable "user" User 0 [[SqlStr "1"]; [SqlStr "2"]]
                      (mkProbe ∅ [] [None; None])
                      (initial halfWarmStore (CSlice [])) in
  ides (okOr (mkProbe ∅ [] []) r.1) = [[SqlStr "2"]]
  /\ store r.2 = halfWarmStore.
Proof.
  destruct (probeBeans_queues_misses
              userTable "user" User [[SqlStr "1"]; [SqlStr "2"]] 0
              (mkProbe ∅ [] [None; None]) (initial halfWarmStore (CSlice []))
              (okOr (mkProbe ∅ [] [])
                    (probeBeans userTable "user" User 0
                                [[SqlStr "1"]; [SqlStr "2"]]
                                (mkProbe ∅ [] [None; None])
                                (initial halfWarmStore (CSlice []))).1)
              (probeBeans userTable "user" User 0
                          [[SqlStr "1"]; [SqlStr "2"]]
                          (mkProbe ∅ [] [None; None])
                          (initial halfWarmStore (CSlice []))).2)
    as (Hstore & _ & Hides & _).
  - vm_compute. reflexivity.
  - split; [rewrite Hides; vm_compute; reflexivity|exact Hstore].
Defined.

Lemma resolveIDs_round_trip_witness :
  exists s1,
    resolveIDs userTable "user" "SELECT * FROM `user`" "SELECT `id` FROM `user`"
               [] s0
    = (Ok [[SqlStr "1"]; [SqlStr "2"]], s1)
    /\ resolveIDs userTable "user" "SELECT * FROM `user`"
                  "SELECT `id` FROM `user`" [] s1
       = (Ok [[SqlStr "1"]; [SqlStr "2"]],
          emit (EvLog Debug "[cache] cache hit sql")
               (emit (EvGetIds "user" "SELECT `id` FROM `user`" []) s1)).
Proof.
  apply (resolveIDs_round_trip
           userTable "user" "SELECT * FROM `user`" "SELECT `id` FROM `user`" []
           s0 (cursor ["id"] ((take 1) <$> userRows))).
  - vm_compute. reflexivity.
  - vm_compute. reflexivity.
  - vm_compute. lia.
  - repeat constructor; intros s; vm_compute; reflexivity.
  - vm_compute. reflexivity.
Defined.

Lemma insertMultipleStruct_invalidates_after_write_witness :
  exists s',
    insertMultipleStruct session [user1] (initial staleIdsStore (CSlice []))
    = (Ok 1, s')
    /\ trace s' = [EvExec "INSERT INTO `user` VALUES (?)" [SqlStr "1"; SqlStr "a"];
                   EvLog Debug "[cache] clear SQL"; EvClearIds "user"]
    /\ ids_of (store s') "user" = ∅.
Proof.
  destruct (insertMultipleStruct_invalidates_after_write
              session user1 [] (with_RefTable (Some userTable) newStatement)
              "INSERT INTO `user` VALUES (?)" [SqlStr "1"; SqlStr "a"]
              (initial staleIdsStore (CSlice []))) as [_ Hok].
  - vm_compute. reflexivity.
  - vm_compute. discriminate.
  - vm_compute. reflexivity.
  - vm_compute. reflexivity.
  - vm_compute. reflexivity.
  - apply (Hok 1). vm_compute. reflexivity.
Defined.

(** The same insert into a database that rejects it: the cached id list
    is still there. *)
Example insert_structs_rejected :
  let r := @insertMultipleStruct rejectingWrites session [user1]
                                 (initial staleIdsStore (CSlice [])) in
  r.1 = Fail (ErrExt "constraint failed")
  /\ store r.2 = staleIdsStore.
Proof. vm_compute. split; reflexivity. Qed.

Lemma insertMap_failed_write_has_invalidated_witness :
  exists s',
    @insertMap rejectingWrites (onTable "user" session) ["name"] [SqlStr "c"]
               (initial staleIdsStore (CSlice []))
    = (Fail (ErrExt "constraint failed"), s')
    /\ trace s' = [EvLog Debug "[cache] clear SQL"; EvClearIds "user";
                   EvExec "INSERT INTO `user` VALUES (?)" [SqlStr "c"]]
    /\ @ids_of (store s') "user" = ∅.
Proof.
  apply (@insertMap_failed_write_has_invalidated rejectingWrites
           (onTable "user" session) ["name"] [SqlStr "c"]
           "INSERT INTO `user` VALUES (?)" [SqlStr "c"] "constraint failed"
           (initial staleIdsStore (CSlice []))).
  - vm_compute. discriminate.
  - vm_compute. reflexivity.
  - vm_compute. reflexivity.
  - vm_compute. reflexivity.
  - vm_compute. reflexivity.
Defined.

Lemma insertMultipleMap_invalidates_before_write_witness :
  exists s',
    insertMultipleMap (onTable "user" session) ["name"]
                      [[SqlStr "c"]; [SqlStr "d"]]
                      (initial staleIdsStore (CSlice []))
    = (Ok 1, s')
    /\ trace s' = [EvLog Debug "[cache] clear SQL"; EvClearIds "user";
                   EvExec "INSERT INTO `user` VALUES (?)" [SqlStr "c"; SqlStr "d"]]
    /\ ids_of (store s') "user" = ∅.
Proof.
  destruct (insertMultipleMap_invalidates_before_write
              (onTable "user" session) ["name"] [[SqlStr "c"]; [SqlStr "d"]]
              "INSERT INTO `user` VALUES (?)" [SqlStr "c"; SqlStr "d"] 1
              (initial staleIdsStore (CSlice [])))
    as (s' & Hrun & Htrace & Hids & _).
  - vm_compute. discriminate.
  - vm_compute. reflexivity.
  - vm_compute. reflexivity.
  - vm_compute. reflexivity.
  - vm_compute. reflexivity.
  - exists s'. split; [exact Hrun|]. split; [exact Htrace|exact Hids].
Defined.


(** [Find(users)] with the slice itself instead of a pointer to it. *)
Lemma noCacheFind_unsettable_slice_witness :
  (noCacheFind (Some userTable) (TSlice User, false) "SELECT * FROM `user`" []
               s0).1
  <> Ok tt
  /\ (noCacheFind (Some userTable) (TSlice User, false) "SELECT * FROM `user`"
                  [] s0).2
     = emit (EvQuery "SELECT * FROM `user`" []) s0.
Proof.
  apply (noCacheFind_unsettable_slice
           (Some userTable) (TSlice User) "SELECT * FROM `user`" [] s0
           (cursor ["id"; "name"] userRows) ["id"; "name"] ["TEXT"; "TEXT"]).
  - reflexivity.
  - vm_compute. discriminate.
  - vm_compute. reflexivity.
  - reflexivity.
  - reflexivity.
  - vm_compute. discriminate.
Defined.

Example find_by_value_panics :
  (find 2 session (IValue (TSlice User)) [] s0).1
  = Panic "reflect: reflect.Value.Set using unaddressable value".
Proof. vm_compute. reflexivity. Qed.

(** [Insert(map[string]string{"name": "c", "id": "3"})]: the columns are
    sorted whatever the order of the iteration. *)
Lemma insertMapString_columns_witness :
  let st := initial staleIdsStore (CSlice []) in
  insertMapString noExprs (onTable "user" session) newUser ["id"; "name"] st
  = insertMapString noExprs (onTable "user" session) newUser ["name"; "id"] st
  /\ StronglySorted String.le
                    (mapColumns noExprs (statement (onTable "user" session))
                                ["name"; "id"]).
Proof.
  destruct (insertMapString_columns noExprs (onTable "user" session) newUser
              ["name"; "id"]) as (_ & Hsorted & _ & _ & _ & Horder).
  - vm_compute. apply perm_swap.
  - vm_compute. discriminate.
  - vm_compute. discriminate.
  - split; [|exact Hsorted]. rewrite (Horder ["id"; "name"]); [reflexivity|].
    vm_compute. reflexivity.
Defined.

Example insert_map_of_strings :
  mapColumns noExprs (statement (onTable "user" session)) ["name"; "id"]
  = ["id"; "name"]
  /\ trace (insertMapString noExprs (onTable "user" session) newUser
                            ["name"; "id"] (initial staleIdsStore (CSlice []))).2
     = [EvLog Debug "[cache] clear SQL"; EvClearIds "user";
        EvExec "INSERT INTO `user` VALUES (?)" [SqlStr "3"; SqlStr "c"]].
Proof. vm_compute. split; reflexivity. Qed.

(** Two rows: the second map lacks [name] and has a key [age] of its
    own. *)
Lemma insertMultipleMapString_columns_witness :
  let st := initial staleIdsStore (CSlice []) in
  insertMultipleMapString noExprs (onTable "user" session) [newUser; oddUser]
                          ["id"; "name"] st
  = insertMultipleMapString noExprs (onTable "user" session)
                            [newUser; oddUser] ["name"; "id"] st
  /\ StronglySorted String.le
                    (mapColumns noExprs (statement (onTable "user" session))
                                ["name"; "id"]).
Proof.
  destruct (insertMultipleMapString_columns noExprs (onTable "user" session)
              newUser [oddUser] ["name"; "id"])
    as (_ & Hsorted & _ & _ & Horder).
  - vm_compute. apply perm_swap.
  - vm_compute. discriminate.
  - split; [|exact Hsorted]. rewrite (Horder ["id"; "name"]); [reflexivity|].
    vm_compute. reflexivity.
Defined.

Example insert_maps_of_strings :
  trace (insertMultipleMapString noExprs (onTable "user" session)
                                 [newUser; oddUser] ["name"; "id"]
                                 (initial staleIdsStore (CSlice []))).2
  = [EvLog Debug "[cache] clear SQL"; EvClearIds "user";
     EvExec "INSERT INTO `user` VALUES (?)"
            [SqlStr "3"; SqlStr "c"; SqlStr "4"; SqlStr ""]].
Proof. vm_compute. reflexivity. Qed.

(** An update whose where clause ends with its placeholder, on
    POSTGRES. *)
Lemma ConvertUpdateSQL_panics_iff_witness :
  ConvertUpdateSQL backquote true (statement (sessionOn userTable))
                   "UPDATE `user` SET `name` = $1 WHERE `id` = $2"
  = None.
Proof.
  apply (ConvertUpdateSQL_panics_iff
           backquote true (statement (sessionOn userTable))
           "UPDATE `user` SET `name` = $1 WHERE `id` = $2" userTable
           "UPDATE `user` SET `name` = $1 " " `id` = $2").
  - reflexivity.
  - reflexivity.
  - vm_compute. reflexivity.
  - eexists. split; [reflexivity|]. split; [vm_compute; reflexivity|].
    vm_compute. apply Exists_cons_hd. reflexivity.
Defined.

(** With a blank after every placeholder the placeholders are numbered
    from 1 in the order of the where clause. *)
Example ConvertUpdateSQL_renumbers :
  ConvertUpdateSQL backquote true (statement (sessionOn userTable))
                   "UPDATE `user` SET `name` = $1 WHERE `id` = $2 AND `name` <> $3 "
  = Some ("UPDATE `user` SET `name` = $1 ",
          "SELECT `id` FROM `user` WHERE  `id` = $1 AND `name` <> $2 ").
Proof. vm_compute. reflexivity. Qed.

End MoreConcrete.
